(** * The Lox tree-sitter grammar: tokenizer, parse tables and parse engine

    A shallow embedding of [src/tree-sitter/src/parser.c]: the generated
    tokenizer [ts_lex], the lexical modes, the two-tier parse table, the
    action list and the field maps, together with the table interpreter
    that executes them.  Identifiers keep the names of the C source. *)

From Stdlib Require Import ZArith Lia Bool Arith String Ascii List.
Import ListNotations.

(** ** Symbols *)

(** [TSSymbol] and [TSStateId] are [uint16_t] in the C source; every value
    that occurs is a table index below 2^16 and no arithmetic is performed
    on them, so they are kept as natural numbers. *)
Definition TSSymbol := nat.
Definition TSStateId := nat.
Definition TSFieldId := nat.

Definition LANGUAGE_VERSION := 14.
Definition STATE_COUNT := 30.
Definition LARGE_STATE_COUNT := 4.
Definition SYMBOL_COUNT := 36.
Definition ALIAS_COUNT := 0.
Definition TOKEN_COUNT := 24.
Definition EXTERNAL_TOKEN_COUNT := 0.
Definition FIELD_COUNT := 6.
Definition MAX_ALIAS_SEQUENCE_LENGTH := 5.
Definition PRODUCTION_ID_COUNT := 5.

(** Modelled from the spec: the builtin end-of-input symbol comes from the
    header [tree_sitter/parser.h], which is not part of the sources.  It is
    symbol 0: it indexes the table rows next to [anon_sym_SEMI = 1]. *)
Definition ts_builtin_sym_end : TSSymbol := 0.

Definition anon_sym_SEMI : TSSymbol := 1.
Definition anon_sym_print : TSSymbol := 2.
Definition anon_sym_COMMA : TSSymbol := 3.
Definition anon_sym_EQ_EQ : TSSymbol := 4.
Definition anon_sym_BANG_EQ : TSSymbol := 5.
Definition anon_sym_LT : TSSymbol := 6.
Definition anon_sym_LT_EQ : TSSymbol := 7.
Definition anon_sym_GT : TSSymbol := 8.
Definition anon_sym_GT_EQ : TSSymbol := 9.
Definition anon_sym_PLUS : TSSymbol := 10.
Definition anon_sym_DASH : TSSymbol := 11.
Definition anon_sym_STAR : TSSymbol := 12.
Definition anon_sym_SLASH : TSSymbol := 13.
Definition anon_sym_QMARK : TSSymbol := 14.
Definition anon_sym_COLON : TSSymbol := 15.
Definition anon_sym_BANG : TSSymbol := 16.
Definition anon_sym_LPAREN : TSSymbol := 17.
Definition anon_sym_RPAREN : TSSymbol := 18.
Definition sym_number : TSSymbol := 19.
Definition sym_string : TSSymbol := 20.
Definition anon_sym_true : TSSymbol := 21.
Definition anon_sym_false : TSSymbol := 22.
Definition sym_nil : TSSymbol := 23.
Definition sym_program : TSSymbol := 24.
Definition sym__statement : TSSymbol := 25.
Definition sym_expression_statement : TSSymbol := 26.
Definition sym_print_statement : TSSymbol := 27.
Definition sym__expression : TSSymbol := 28.
Definition sym_binary_expression : TSSymbol := 29.
Definition sym_ternary_expression : TSSymbol := 30.
Definition sym_unary_expression : TSSymbol := 31.
Definition sym_group_expression : TSSymbol := 32.
Definition sym__literal_expression : TSSymbol := 33.
Definition sym_boolean : TSSymbol := 34.
Definition aux_sym_program_repeat1 : TSSymbol := 35.

Definition ts_symbol_names : list string := [
  "end"; ";"; "print"; ","; "=="; "!="; "<"; "<="; ">"; ">="; "+"; "-"; "*"; "/";
  "?"; ":"; "!"; "("; ")"; "number"; "string"; "true"; "false"; "nil"; "program";
  "_statement"; "expression_statement"; "print_statement"; "_expression";
  "binary_expression"; "ternary_expression"; "unary_expression";
  "group_expression"; "_literal_expression"; "boolean"; "program_repeat1"
]%string.

Record TSSymbolMetadata := metadata { visible : bool; named : bool }.

Definition ts_symbol_metadata : list TSSymbolMetadata := [
  (* ts_builtin_sym_end *) metadata false true;
  (* anon_sym_SEMI *) metadata true false;
  (* anon_sym_print *) metadata true false;
  (* anon_sym_COMMA *) metadata true false;
  (* anon_sym_EQ_EQ *) metadata true false;
  (* anon_sym_BANG_EQ *) metadata true false;
  (* anon_sym_LT *) metadata true false;
  (* anon_sym_LT_EQ *) metadata true false;
  (* anon_sym_GT *) metadata true false;
  (* anon_sym_GT_EQ *) metadata true false;
  (* anon_sym_PLUS *) metadata true false;
  (* anon_sym_DASH *) metadata true false;
  (* anon_sym_STAR *) metadata true false;
  (* anon_sym_SLASH *) metadata true false;
  (* anon_sym_QMARK *) metadata true false;
  (* anon_sym_COLON *) metadata true false;
  (* anon_sym_BANG *) metadata true false;
  (* anon_sym_LPAREN *) metadata true false;
  (* anon_sym_RPAREN *) metadata true false;
  (* sym_number *) metadata true true;
  (* sym_string *) metadata true true;
  (* anon_sym_true *) metadata true false;
  (* anon_sym_false *) metadata true false;
  (* sym_nil *) metadata true true;
  (* sym_program *) metadata true true;
  (* sym__statement *) metadata false true;
  (* sym_expression_statement *) metadata true true;
  (* sym_print_statement *) metadata true true;
  (* sym__expression *) metadata false true;
  (* sym_binary_expression *) metadata true true;
  (* sym_ternary_expression *) metadata true true;
  (* sym_unary_expression *) metadata true true;
  (* sym_group_expression *) metadata true true;
  (* sym__literal_expression *) metadata false true;
  (* sym_boolean *) metadata true true;
  (* aux_sym_program_repeat1 *) metadata false false
].

(** ** Fields *)

Definition field_condition : TSFieldId := 1.
Definition field_else : TSFieldId := 2.
Definition field_expression : TSFieldId := 3.
Definition field_left : TSFieldId := 4.
Definition field_right : TSFieldId := 5.
Definition field_then : TSFieldId := 6.

Definition ts_field_names : list (option string) := [
  None; Some "condition"; Some "else"; Some "expression"; Some "left";
  Some "right"; Some "then"
]%string.

Module FieldMap.
Record TSFieldMapSlice := slice { index : nat; length : nat }.
Record TSFieldMapEntry := field_entry { field_id : TSFieldId; child_index : nat }.
End FieldMap.
Import FieldMap (TSFieldMapSlice, TSFieldMapEntry, slice, field_entry).

(** Indexed by production id; entry [0] is not initialised in the source and
    is therefore all zeroes. *)
Definition ts_field_map_slices : list TSFieldMapSlice := [
  (* [0] *) slice 0 0;
  (* [1] *) slice 0 1;
  (* [2] *) slice 1 1;
  (* [3] *) slice 2 2;
  (* [4] *) slice 4 3
].

Definition ts_field_map_entries : list TSFieldMapEntry := [
  (* [0] *) field_entry field_right 1;
  (* [1] *) field_entry field_expression 1;
  (* [2] *) field_entry field_left 0;
            field_entry field_right 2;
  (* [4] *) field_entry field_condition 0;
            field_entry field_else 4;
            field_entry field_then 2
].

(** ** The tokenizer *)

(** [lookahead] is an [int32_t] code point in the source; the comparisons of
    [ts_lex] are against character literals, written here with [chr]. *)
Definition chr (c : ascii) : Z := Z.of_nat (nat_of_ascii c).
Arguments chr c%_char.

Definition DQUOTE : Z := 34.
Definition TAB : Z := 9.
Definition LF : Z := 10.
Definition CR : Z := 13.
Definition SPACE : Z := 32.

(** Modelled from the spec: the lexer macros of [tree_sitter/parser.h]
    (missing from the sources).  [ACCEPT_TOKEN] records a match ending at the
    current position, [ADVANCE] and [SKIP] consume the lookahead and move to
    another automaton state ([SKIP] also restarts the token, so skipped
    whitespace is never part of it), [END_STATE] returns what was accepted so
    far; the [default:] branch of the switch returns [false]. *)
Inductive lex_accept := NO_TOKEN | ACCEPT_TOKEN (symbol_value : TSSymbol).
Inductive lex_exit :=
| ADVANCE (state_value : TSStateId)
| SKIP (state_value : TSStateId)
| END_STATE
| RETURN_FALSE.

Local Infix "==" := Z.eqb (at level 70, no associativity).
Local Infix "<==" := Z.leb (at level 70, no associativity).

(** One [case] of the switch in [ts_lex]: the token accepted on entry, if
    any, and the first transition whose guard holds. *)
Definition ts_lex_case (state : TSStateId) (eof : bool) (lookahead : Z)
  : lex_accept * lex_exit :=
  match state with
  | 0 => (NO_TOKEN,
      if eof then ADVANCE 20 else
      if lookahead == chr "!" then ADVANCE 37 else
      if lookahead == DQUOTE then ADVANCE 2 else
      if lookahead == chr "(" then ADVANCE 38 else
      if lookahead == chr ")" then ADVANCE 39 else
      if lookahead == chr "*" then ADVANCE 32 else
      if lookahead == chr "+" then ADVANCE 30 else
      if lookahead == chr "," then ADVANCE 23 else
      if lookahead == chr "-" then ADVANCE 31 else
      if lookahead == chr "/" then ADVANCE 33 else
      if lookahead == chr ":" then ADVANCE 35 else
      if lookahead == chr ";" then ADVANCE 21 else
      if lookahead == chr "<" then ADVANCE 26 else
      if lookahead == chr "=" then ADVANCE 4 else
      if lookahead == chr ">" then ADVANCE 28 else
      if lookahead == chr "?" then ADVANCE 34 else
      if lookahead == chr "f" then ADVANCE 5 else
      if lookahead == chr "n" then ADVANCE 9 else
      if lookahead == chr "p" then ADVANCE 14 else
      if lookahead == chr "t" then ADVANCE 13 else
      if (lookahead == TAB) || (lookahead == LF) || (lookahead == CR) || (lookahead == SPACE) then SKIP 0 else
      if (chr "0" <== lookahead) && (lookahead <== chr "9") then ADVANCE 40 else
      END_STATE)
  | 1 => (NO_TOKEN,
      if lookahead == chr "!" then ADVANCE 3 else
      if lookahead == chr ")" then ADVANCE 39 else
      if lookahead == chr "*" then ADVANCE 32 else
      if lookahead == chr "+" then ADVANCE 30 else
      if lookahead == chr "," then ADVANCE 23 else
      if lookahead == chr "-" then ADVANCE 31 else
      if lookahead == chr "/" then ADVANCE 33 else
      if lookahead == chr ":" then ADVANCE 35 else
      if lookahead == chr ";" then ADVANCE 21 else
      if lookahead == chr "<" then ADVANCE 26 else
      if lookahead == chr "=" then ADVANCE 4 else
      if lookahead == chr ">" then ADVANCE 28 else
      if lookahead == chr "?" then ADVANCE 34 else
      if (lookahead == TAB) || (lookahead == LF) || (lookahead == CR) || (lookahead == SPACE) then SKIP 1 else
      END_STATE)
  | 2 => (NO_TOKEN,
      if lookahead == DQUOTE then ADVANCE 42 else
      if negb (lookahead == 0) then ADVANCE 2 else
      END_STATE)
  | 3 => (NO_TOKEN,
      if lookahead == chr "=" then ADVANCE 25 else
      END_STATE)
  | 4 => (NO_TOKEN,
      if lookahead == chr "=" then ADVANCE 24 else
      END_STATE)
  | 5 => (NO_TOKEN,
      if lookahead == chr "a" then ADVANCE 10 else
      END_STATE)
  | 6 => (NO_TOKEN,
      if lookahead == chr "e" then ADVANCE 43 else
      END_STATE)
  | 7 => (NO_TOKEN,
      if lookahead == chr "e" then ADVANCE 44 else
      END_STATE)
  | 8 => (NO_TOKEN,
      if lookahead == chr "i" then ADVANCE 12 else
      END_STATE)
  | 9 => (NO_TOKEN,
      if lookahead == chr "i" then ADVANCE 11 else
      END_STATE)
  | 10 => (NO_TOKEN,
      if lookahead == chr "l" then ADVANCE 15 else
      END_STATE)
  | 11 => (NO_TOKEN,
      if lookahead == chr "l" then ADVANCE 45 else
      END_STATE)
  | 12 => (NO_TOKEN,
      if lookahead == chr "n" then ADVANCE 16 else
      END_STATE)
  | 13 => (NO_TOKEN,
      if lookahead == chr "r" then ADVANCE 17 else
      END_STATE)
  | 14 => (NO_TOKEN,
      if lookahead == chr "r" then ADVANCE 8 else
      END_STATE)
  | 15 => (NO_TOKEN,
      if lookahead == chr "s" then ADVANCE 7 else
      END_STATE)
  | 16 => (NO_TOKEN,
      if lookahead == chr "t" then ADVANCE 22 else
      END_STATE)
  | 17 => (NO_TOKEN,
      if lookahead == chr "u" then ADVANCE 6 else
      END_STATE)
  | 18 => (NO_TOKEN,
      if (chr "0" <== lookahead) && (lookahead <== chr "9") then ADVANCE 41 else
      END_STATE)
  | 19 => (NO_TOKEN,
      if eof then ADVANCE 20 else
      if lookahead == chr "!" then ADVANCE 36 else
      if lookahead == DQUOTE then ADVANCE 2 else
      if lookahead == chr "(" then ADVANCE 38 else
      if lookahead == chr "-" then ADVANCE 31 else
      if lookahead == chr "f" then ADVANCE 5 else
      if lookahead == chr "n" then ADVANCE 9 else
      if lookahead == chr "p" then ADVANCE 14 else
      if lookahead == chr "t" then ADVANCE 13 else
      if (lookahead == TAB) || (lookahead == LF) || (lookahead == CR) || (lookahead == SPACE) then SKIP 19 else
      if (chr "0" <== lookahead) && (lookahead <== chr "9") then ADVANCE 40 else
      END_STATE)
  | 20 => (ACCEPT_TOKEN ts_builtin_sym_end,
      END_STATE)
  | 21 => (ACCEPT_TOKEN anon_sym_SEMI,
      END_STATE)
  | 22 => (ACCEPT_TOKEN anon_sym_print,
      END_STATE)
  | 23 => (ACCEPT_TOKEN anon_sym_COMMA,
      END_STATE)
  | 24 => (ACCEPT_TOKEN anon_sym_EQ_EQ,
      END_STATE)
  | 25 => (ACCEPT_TOKEN anon_sym_BANG_EQ,
      END_STATE)
  | 26 => (ACCEPT_TOKEN anon_sym_LT,
      if lookahead == chr "=" then ADVANCE 27 else
      END_STATE)
  | 27 => (ACCEPT_TOKEN anon_sym_LT_EQ,
      END_STATE)
  | 28 => (ACCEPT_TOKEN anon_sym_GT,
      if lookahead == chr "=" then ADVANCE 29 else
      END_STATE)
  | 29 => (ACCEPT_TOKEN anon_sym_GT_EQ,
      END_STATE)
  | 30 => (ACCEPT_TOKEN anon_sym_PLUS,
      END_STATE)
  | 31 => (ACCEPT_TOKEN anon_sym_DASH,
      END_STATE)
  | 32 => (ACCEPT_TOKEN anon_sym_STAR,
      END_STATE)
  | 33 => (ACCEPT_TOKEN anon_sym_SLASH,
      END_STATE)
  | 34 => (ACCEPT_TOKEN anon_sym_QMARK,
      END_STATE)
  | 35 => (ACCEPT_TOKEN anon_sym_COLON,
      END_STATE)
  | 36 => (ACCEPT_TOKEN anon_sym_BANG,
      END_STATE)
  | 37 => (ACCEPT_TOKEN anon_sym_BANG,
      if lookahead == chr "=" then ADVANCE 25 else
      END_STATE)
  | 38 => (ACCEPT_TOKEN anon_sym_LPAREN,
      END_STATE)
  | 39 => (ACCEPT_TOKEN anon_sym_RPAREN,
      END_STATE)
  | 40 => (ACCEPT_TOKEN sym_number,
      if lookahead == chr "." then ADVANCE 18 else
      if (chr "0" <== lookahead) && (lookahead <== chr "9") then ADVANCE 40 else
      END_STATE)
  | 41 => (ACCEPT_TOKEN sym_number,
      if (chr "0" <== lookahead) && (lookahead <== chr "9") then ADVANCE 41 else
      END_STATE)
  | 42 => (ACCEPT_TOKEN sym_string,
      END_STATE)
  | 43 => (ACCEPT_TOKEN anon_sym_true,
      END_STATE)
  | 44 => (ACCEPT_TOKEN anon_sym_false,
      END_STATE)
  | 45 => (ACCEPT_TOKEN sym_nil,
      END_STATE)
  | _ => (NO_TOKEN, RETURN_FALSE)
  end.


(** Modelled from the spec: the [TSLexer] the generated function drives.
    [input_rest] is the input from the current position on; the lookahead is
    its head, or 0 with [eof] set when it is empty.  The token end stays
    undefined until [mark_end] is called. *)
Record TSLexer := mkLexer {
  input_rest : list Z;
  current_position : nat;
  token_start_position : nat;
  token_end_position : option nat;
  result_symbol : TSSymbol
}.

Definition lexer_start (rest : list Z) (offset : nat) : TSLexer :=
  mkLexer rest offset offset None 0.

Definition lexer_lookahead (lexer : TSLexer) : Z := hd 0%Z (input_rest lexer).

Definition lexer_eof (lexer : TSLexer) : bool :=
  match input_rest lexer with [] => true | _ => false end.

Definition lexer_advance (lexer : TSLexer) (skip : bool) : TSLexer :=
  match input_rest lexer with
  | [] => lexer
  | _ :: rest =>
      mkLexer rest (S (current_position lexer))
              (if skip then S (current_position lexer)
               else token_start_position lexer)
              (token_end_position lexer) (result_symbol lexer)
  end.

Definition lexer_token_end (lexer : TSLexer) : nat :=
  match token_end_position lexer with
  | Some offset => offset
  | None => current_position lexer
  end.

Definition lexer_accept (lexer : TSLexer) (symbol_value : TSSymbol) : TSLexer :=
  mkLexer (input_rest lexer) (current_position lexer)
          (token_start_position lexer) (Some (current_position lexer))
          symbol_value.

(** The loop that [START_LEXER] and the [goto next_state] of [ADVANCE] and
    [SKIP] build around the switch.  [result] is the C local of the same
    name.  The loop is bounded by [fuel]; [ts_lex_total] below shows that the
    bound chosen by [ts_lex] is never reached. *)
Fixpoint ts_lex_loop (fuel : nat) (lexer : TSLexer) (result : bool)
         (state : TSStateId) : option (bool * TSLexer) :=
  match fuel with
  | O => None
  | S fuel' =>
      let (accept, exit) :=
        ts_lex_case state (lexer_eof lexer) (lexer_lookahead lexer) in
      let result' :=
        match accept with ACCEPT_TOKEN _ => true | NO_TOKEN => result end in
      let lexer' :=
        match accept with
        | ACCEPT_TOKEN symbol_value => lexer_accept lexer symbol_value
        | NO_TOKEN => lexer
        end in
      match exit with
      | ADVANCE state_value =>
          ts_lex_loop fuel' (lexer_advance lexer' false) result' state_value
      | SKIP state_value =>
          ts_lex_loop fuel' (lexer_advance lexer' true) result' state_value
      | END_STATE => Some (result', lexer')
      | RETURN_FALSE => Some (false, lexer')
      end
  end.

Definition ts_lex (lexer : TSLexer) (state : TSStateId) : option (bool * TSLexer) :=
  ts_lex_loop (2 + length (input_rest lexer)) lexer false state.

(** Input text as the list of its character codes. *)
Definition codes (s : string) : list Z :=
  map (fun c => Z.of_nat (nat_of_ascii c)) (list_ascii_of_string s).

(** ** Parse tables *)

(** Modelled from the spec: the table macros of [tree_sitter/parser.h]
    (missing from the sources).  [ACTIONS] and [STATE] tag a table cell as an
    index into [ts_parse_actions] or as a goto state; both are the identity.
    [SMALL_STATE] rebases a state id for [ts_small_parse_table_map]. *)
Definition ACTIONS (id : nat) : nat := id.
Definition STATE (id : TSStateId) : nat := id.
Definition SMALL_STATE (id : TSStateId) : nat := id - LARGE_STATE_COUNT.

Definition ts_lex_modes : list nat := [0; 19; 19; 19; 1; 1; 1; 1; 19; 1; 1; 1; 1; 19; 19; 19; 19; 19; 19; 19; 19; 19; 1; 1; 1; 1; 1; 19; 19; 0].

(** The rows of the large states.  The C array is initialised with
    designators; a cell that is not listed is 0. *)
Definition ts_parse_table : list (list (nat * nat)) := [
  [ (ts_builtin_sym_end, ACTIONS 1);
    (anon_sym_SEMI, ACTIONS 1);
    (anon_sym_print, ACTIONS 1);
    (anon_sym_COMMA, ACTIONS 1);
    (anon_sym_EQ_EQ, ACTIONS 1);
    (anon_sym_BANG_EQ, ACTIONS 1);
    (anon_sym_LT, ACTIONS 1);
    (anon_sym_LT_EQ, ACTIONS 1);
    (anon_sym_GT, ACTIONS 1);
    (anon_sym_GT_EQ, ACTIONS 1);
    (anon_sym_PLUS, ACTIONS 1);
    (anon_sym_DASH, ACTIONS 1);
    (anon_sym_STAR, ACTIONS 1);
    (anon_sym_SLASH, ACTIONS 1);
    (anon_sym_QMARK, ACTIONS 1);
    (anon_sym_COLON, ACTIONS 1);
    (anon_sym_BANG, ACTIONS 1);
    (anon_sym_LPAREN, ACTIONS 1);
    (anon_sym_RPAREN, ACTIONS 1);
    (sym_number, ACTIONS 1);
    (sym_string, ACTIONS 1);
    (anon_sym_true, ACTIONS 1);
    (anon_sym_false, ACTIONS 1);
    (sym_nil, ACTIONS 1) ];
  [ (sym_program, STATE 29);
    (sym__statement, STATE 2);
    (sym_expression_statement, STATE 2);
    (sym_print_statement, STATE 2);
    (sym__expression, STATE 26);
    (sym_binary_expression, STATE 26);
    (sym_ternary_expression, STATE 26);
    (sym_unary_expression, STATE 26);
    (sym_group_expression, STATE 26);
    (sym__literal_expression, STATE 26);
    (sym_boolean, STATE 26);
    (aux_sym_program_repeat1, STATE 2);
    (ts_builtin_sym_end, ACTIONS 3);
    (anon_sym_print, ACTIONS 5);
    (anon_sym_DASH, ACTIONS 7);
    (anon_sym_BANG, ACTIONS 7);
    (anon_sym_LPAREN, ACTIONS 9);
    (sym_number, ACTIONS 11);
    (sym_string, ACTIONS 11);
    (anon_sym_true, ACTIONS 13);
    (anon_sym_false, ACTIONS 13);
    (sym_nil, ACTIONS 11) ];
  [ (sym__statement, STATE 3);
    (sym_expression_statement, STATE 3);
    (sym_print_statement, STATE 3);
    (sym__expression, STATE 26);
    (sym_binary_expression, STATE 26);
    (sym_ternary_expression, STATE 26);
    (sym_unary_expression, STATE 26);
    (sym_group_expression, STATE 26);
    (sym__literal_expression, STATE 26);
    (sym_boolean, STATE 26);
    (aux_sym_program_repeat1, STATE 3);
    (ts_builtin_sym_end, ACTIONS 15);
    (anon_sym_print, ACTIONS 5);
    (anon_sym_DASH, ACTIONS 7);
    (anon_sym_BANG, ACTIONS 7);
    (anon_sym_LPAREN, ACTIONS 9);
    (sym_number, ACTIONS 11);
    (sym_string, ACTIONS 11);
    (anon_sym_true, ACTIONS 13);
    (anon_sym_false, ACTIONS 13);
    (sym_nil, ACTIONS 11) ];
  [ (sym__statement, STATE 3);
    (sym_expression_statement, STATE 3);
    (sym_print_statement, STATE 3);
    (sym__expression, STATE 26);
    (sym_binary_expression, STATE 26);
    (sym_ternary_expression, STATE 26);
    (sym_unary_expression, STATE 26);
    (sym_group_expression, STATE 26);
    (sym__literal_expression, STATE 26);
    (sym_boolean, STATE 26);
    (aux_sym_program_repeat1, STATE 3);
    (ts_builtin_sym_end, ACTIONS 17);
    (anon_sym_print, ACTIONS 19);
    (anon_sym_DASH, ACTIONS 22);
    (anon_sym_BANG, ACTIONS 22);
    (anon_sym_LPAREN, ACTIONS 25);
    (sym_number, ACTIONS 28);
    (sym_string, ACTIONS 28);
    (anon_sym_true, ACTIONS 31);
    (anon_sym_false, ACTIONS 31);
    (sym_nil, ACTIONS 28) ]
].

(** The rows of the small states, as the flat [uint16_t] array of the
    source: per state a group count, then per group the cell value, the
    number of symbols and the symbols that share this value. *)
Definition ts_small_parse_table : list nat := [
  (* [0] *) 2;
    ACTIONS 36; 2; anon_sym_LT; anon_sym_GT;
    ACTIONS 34; 13; anon_sym_SEMI; anon_sym_COMMA; anon_sym_EQ_EQ; anon_sym_BANG_EQ;
      anon_sym_LT_EQ; anon_sym_GT_EQ; anon_sym_PLUS; anon_sym_DASH; anon_sym_STAR;
      anon_sym_SLASH; anon_sym_QMARK; anon_sym_COLON; anon_sym_RPAREN;
  (* [20] *) 5;
    ACTIONS 40; 2; anon_sym_LT; anon_sym_GT;
    ACTIONS 42; 2; anon_sym_LT_EQ; anon_sym_GT_EQ;
    ACTIONS 44; 2; anon_sym_PLUS; anon_sym_DASH;
    ACTIONS 46; 2; anon_sym_STAR; anon_sym_SLASH;
    ACTIONS 38; 7; anon_sym_SEMI; anon_sym_COMMA; anon_sym_EQ_EQ; anon_sym_BANG_EQ;
      anon_sym_QMARK; anon_sym_COLON; anon_sym_RPAREN;
  (* [46] *) 2;
    ACTIONS 50; 2; anon_sym_LT; anon_sym_GT;
    ACTIONS 48; 13; anon_sym_SEMI; anon_sym_COMMA; anon_sym_EQ_EQ; anon_sym_BANG_EQ;
      anon_sym_LT_EQ; anon_sym_GT_EQ; anon_sym_PLUS; anon_sym_DASH; anon_sym_STAR;
      anon_sym_SLASH; anon_sym_QMARK; anon_sym_COLON; anon_sym_RPAREN;
  (* [66] *) 7;
    ACTIONS 56; 1; anon_sym_QMARK;
    ACTIONS 40; 2; anon_sym_LT; anon_sym_GT;
    ACTIONS 42; 2; anon_sym_LT_EQ; anon_sym_GT_EQ;
    ACTIONS 44; 2; anon_sym_PLUS; anon_sym_DASH;
    ACTIONS 46; 2; anon_sym_STAR; anon_sym_SLASH;
    ACTIONS 54; 2; anon_sym_EQ_EQ; anon_sym_BANG_EQ;
    ACTIONS 52; 4; anon_sym_SEMI; anon_sym_COMMA; anon_sym_COLON; anon_sym_RPAREN;
  (* [96] *) 5;
    ACTIONS 9; 1; anon_sym_LPAREN;
    ACTIONS 7; 2; anon_sym_DASH; anon_sym_BANG;
    ACTIONS 13; 2; anon_sym_true; anon_sym_false;
    ACTIONS 58; 3; sym_number; sym_string; sym_nil;
    STATE 7; 7; sym__expression; sym_binary_expression; sym_ternary_expression;
      sym_unary_expression; sym_group_expression; sym__literal_expression; sym_boolean;
  (* [122] *) 2;
    ACTIONS 60; 2; anon_sym_LT; anon_sym_GT;
    ACTIONS 38; 13; anon_sym_SEMI; anon_sym_COMMA; anon_sym_EQ_EQ; anon_sym_BANG_EQ;
      anon_sym_LT_EQ; anon_sym_GT_EQ; anon_sym_PLUS; anon_sym_DASH; anon_sym_STAR;
      anon_sym_SLASH; anon_sym_QMARK; anon_sym_COLON; anon_sym_RPAREN;
  (* [142] *) 2;
    ACTIONS 64; 2; anon_sym_LT; anon_sym_GT;
    ACTIONS 62; 13; anon_sym_SEMI; anon_sym_COMMA; anon_sym_EQ_EQ; anon_sym_BANG_EQ;
      anon_sym_LT_EQ; anon_sym_GT_EQ; anon_sym_PLUS; anon_sym_DASH; anon_sym_STAR;
      anon_sym_SLASH; anon_sym_QMARK; anon_sym_COLON; anon_sym_RPAREN;
  (* [162] *) 3;
    ACTIONS 46; 2; anon_sym_STAR; anon_sym_SLASH;
    ACTIONS 60; 2; anon_sym_LT; anon_sym_GT;
    ACTIONS 38; 11; anon_sym_SEMI; anon_sym_COMMA; anon_sym_EQ_EQ; anon_sym_BANG_EQ;
      anon_sym_LT_EQ; anon_sym_GT_EQ; anon_sym_PLUS; anon_sym_DASH; anon_sym_QMARK;
      anon_sym_COLON; anon_sym_RPAREN;
  (* [184] *) 4;
    ACTIONS 44; 2; anon_sym_PLUS; anon_sym_DASH;
    ACTIONS 46; 2; anon_sym_STAR; anon_sym_SLASH;
    ACTIONS 60; 2; anon_sym_LT; anon_sym_GT;
    ACTIONS 38; 9; anon_sym_SEMI; anon_sym_COMMA; anon_sym_EQ_EQ; anon_sym_BANG_EQ;
      anon_sym_LT_EQ; anon_sym_GT_EQ; anon_sym_QMARK; anon_sym_COLON; anon_sym_RPAREN;
  (* [208] *) 5;
    ACTIONS 9; 1; anon_sym_LPAREN;
    ACTIONS 7; 2; anon_sym_DASH; anon_sym_BANG;
    ACTIONS 13; 2; anon_sym_true; anon_sym_false;
    ACTIONS 66; 3; sym_number; sym_string; sym_nil;
    STATE 22; 7; sym__expression; sym_binary_expression; sym_ternary_expression;
      sym_unary_expression; sym_group_expression; sym__literal_expression; sym_boolean;
  (* [234] *) 5;
    ACTIONS 9; 1; anon_sym_LPAREN;
    ACTIONS 7; 2; anon_sym_DASH; anon_sym_BANG;
    ACTIONS 13; 2; anon_sym_true; anon_sym_false;
    ACTIONS 68; 3; sym_number; sym_string; sym_nil;
    STATE 5; 7; sym__expression; sym_binary_expression; sym_ternary_expression;
      sym_unary_expression; sym_group_expression; sym__literal_expression; sym_boolean;
  (* [260] *) 5;
    ACTIONS 9; 1; anon_sym_LPAREN;
    ACTIONS 7; 2; anon_sym_DASH; anon_sym_BANG;
    ACTIONS 13; 2; anon_sym_true; anon_sym_false;
    ACTIONS 70; 3; sym_number; sym_string; sym_nil;
    STATE 12; 7; sym__expression; sym_binary_expression; sym_ternary_expression;
      sym_unary_expression; sym_group_expression; sym__literal_expression; sym_boolean;
  (* [286] *) 5;
    ACTIONS 9; 1; anon_sym_LPAREN;
    ACTIONS 7; 2; anon_sym_DASH; anon_sym_BANG;
    ACTIONS 13; 2; anon_sym_true; anon_sym_false;
    ACTIONS 72; 3; sym_number; sym_string; sym_nil;
    STATE 11; 7; sym__expression; sym_binary_expression; sym_ternary_expression;
      sym_unary_expression; sym_group_expression; sym__literal_expression; sym_boolean;
  (* [312] *) 5;
    ACTIONS 9; 1; anon_sym_LPAREN;
    ACTIONS 7; 2; anon_sym_DASH; anon_sym_BANG;
    ACTIONS 13; 2; anon_sym_true; anon_sym_false;
    ACTIONS 74; 3; sym_number; sym_string; sym_nil;
    STATE 9; 7; sym__expression; sym_binary_expression; sym_ternary_expression;
      sym_unary_expression; sym_group_expression; sym__literal_expression; sym_boolean;
  (* [338] *) 5;
    ACTIONS 9; 1; anon_sym_LPAREN;
    ACTIONS 7; 2; anon_sym_DASH; anon_sym_BANG;
    ACTIONS 13; 2; anon_sym_true; anon_sym_false;
    ACTIONS 76; 3; sym_number; sym_string; sym_nil;
    STATE 25; 7; sym__expression; sym_binary_expression; sym_ternary_expression;
      sym_unary_expression; sym_group_expression; sym__literal_expression; sym_boolean;
  (* [364] *) 5;
    ACTIONS 9; 1; anon_sym_LPAREN;
    ACTIONS 7; 2; anon_sym_DASH; anon_sym_BANG;
    ACTIONS 13; 2; anon_sym_true; anon_sym_false;
    ACTIONS 78; 3; sym_number; sym_string; sym_nil;
    STATE 24; 7; sym__expression; sym_binary_expression; sym_ternary_expression;
      sym_unary_expression; sym_group_expression; sym__literal_expression; sym_boolean;
  (* [390] *) 5;
    ACTIONS 9; 1; anon_sym_LPAREN;
    ACTIONS 7; 2; anon_sym_DASH; anon_sym_BANG;
    ACTIONS 13; 2; anon_sym_true; anon_sym_false;
    ACTIONS 80; 3; sym_number; sym_string; sym_nil;
    STATE 23; 7; sym__expression; sym_binary_expression; sym_ternary_expression;
      sym_unary_expression; sym_group_expression; sym__literal_expression; sym_boolean;
  (* [416] *) 5;
    ACTIONS 9; 1; anon_sym_LPAREN;
    ACTIONS 7; 2; anon_sym_DASH; anon_sym_BANG;
    ACTIONS 13; 2; anon_sym_true; anon_sym_false;
    ACTIONS 82; 3; sym_number; sym_string; sym_nil;
    STATE 10; 7; sym__expression; sym_binary_expression; sym_ternary_expression;
      sym_unary_expression; sym_group_expression; sym__literal_expression; sym_boolean;
  (* [442] *) 7;
    ACTIONS 56; 1; anon_sym_QMARK;
    ACTIONS 40; 2; anon_sym_LT; anon_sym_GT;
    ACTIONS 42; 2; anon_sym_LT_EQ; anon_sym_GT_EQ;
    ACTIONS 44; 2; anon_sym_PLUS; anon_sym_DASH;
    ACTIONS 46; 2; anon_sym_STAR; anon_sym_SLASH;
    ACTIONS 54; 2; anon_sym_EQ_EQ; anon_sym_BANG_EQ;
    ACTIONS 38; 4; anon_sym_SEMI; anon_sym_COMMA; anon_sym_COLON; anon_sym_RPAREN;
  (* [472] *) 8;
    ACTIONS 56; 1; anon_sym_QMARK;
    ACTIONS 84; 1; anon_sym_COMMA;
    ACTIONS 86; 1; anon_sym_RPAREN;
    ACTIONS 40; 2; anon_sym_LT; anon_sym_GT;
    ACTIONS 42; 2; anon_sym_LT_EQ; anon_sym_GT_EQ;
    ACTIONS 44; 2; anon_sym_PLUS; anon_sym_DASH;
    ACTIONS 46; 2; anon_sym_STAR; anon_sym_SLASH;
    ACTIONS 54; 2; anon_sym_EQ_EQ; anon_sym_BANG_EQ;
  (* [502] *) 8;
    ACTIONS 56; 1; anon_sym_QMARK;
    ACTIONS 84; 1; anon_sym_COMMA;
    ACTIONS 88; 1; anon_sym_SEMI;
    ACTIONS 40; 2; anon_sym_LT; anon_sym_GT;
    ACTIONS 42; 2; anon_sym_LT_EQ; anon_sym_GT_EQ;
    ACTIONS 44; 2; anon_sym_PLUS; anon_sym_DASH;
    ACTIONS 46; 2; anon_sym_STAR; anon_sym_SLASH;
    ACTIONS 54; 2; anon_sym_EQ_EQ; anon_sym_BANG_EQ;
  (* [532] *) 8;
    ACTIONS 56; 1; anon_sym_QMARK;
    ACTIONS 84; 1; anon_sym_COMMA;
    ACTIONS 90; 1; anon_sym_COLON;
    ACTIONS 40; 2; anon_sym_LT; anon_sym_GT;
    ACTIONS 42; 2; anon_sym_LT_EQ; anon_sym_GT_EQ;
    ACTIONS 44; 2; anon_sym_PLUS; anon_sym_DASH;
    ACTIONS 46; 2; anon_sym_STAR; anon_sym_SLASH;
    ACTIONS 54; 2; anon_sym_EQ_EQ; anon_sym_BANG_EQ;
  (* [562] *) 8;
    ACTIONS 56; 1; anon_sym_QMARK;
    ACTIONS 84; 1; anon_sym_COMMA;
    ACTIONS 92; 1; anon_sym_SEMI;
    ACTIONS 40; 2; anon_sym_LT; anon_sym_GT;
    ACTIONS 42; 2; anon_sym_LT_EQ; anon_sym_GT_EQ;
    ACTIONS 44; 2; anon_sym_PLUS; anon_sym_DASH;
    ACTIONS 46; 2; anon_sym_STAR; anon_sym_SLASH;
    ACTIONS 54; 2; anon_sym_EQ_EQ; anon_sym_BANG_EQ;
  (* [592] *) 1;
    ACTIONS 94; 10; ts_builtin_sym_end; anon_sym_print; anon_sym_DASH; anon_sym_BANG;
      anon_sym_LPAREN; sym_number; sym_string; anon_sym_true; anon_sym_false; sym_nil;
  (* [605] *) 1;
    ACTIONS 96; 10; ts_builtin_sym_end; anon_sym_print; anon_sym_DASH; anon_sym_BANG;
      anon_sym_LPAREN; sym_number; sym_string; anon_sym_true; anon_sym_false; sym_nil;
  (* [618] *) 1;
    ACTIONS 98; 1; ts_builtin_sym_end
].


(** Indexed by [SMALL_STATE(id)]. *)
Definition ts_small_parse_table_map : list nat := [0; 20; 46; 66; 96; 122; 142; 162; 184; 208; 234; 260; 286; 312; 338; 364; 390; 416; 442; 472; 502; 532; 562; 592; 605; 618].

(** Modelled from the spec: the action cells of [tree_sitter/parser.h].
    [SHIFT_REPEAT] is a shift marked as a repetition. *)
Inductive TSParseAction :=
| Shift (state : TSStateId) (repetition : bool)
| Reduce (symbol : TSSymbol) (child_count : nat) (production_id : nat)
| Recover
| Accept.

Inductive TSParseActionEntry :=
| entry (count : nat) (reusable : bool)
| action (a : TSParseAction).

Definition SHIFT (state_value : TSStateId) := action (Shift state_value false).
Definition SHIFT_REPEAT (state_value : TSStateId) := action (Shift state_value true).
Definition REDUCE (symbol_val : TSSymbol) (child_count_val : nat) :=
  action (Reduce symbol_val child_count_val 0).
(** [REDUCE(symbol, count, .production_id = id)] *)
Definition REDUCE_ID (symbol_val : TSSymbol) (child_count_val production_id : nat) :=
  action (Reduce symbol_val child_count_val production_id).
Definition RECOVER := action Recover.
Definition ACCEPT_INPUT := action Accept.

Definition ts_parse_actions : list TSParseActionEntry := [
  (* [0] *) entry 0 false;
  (* [1] *) entry 1 false; RECOVER;
  (* [3] *) entry 1 true; REDUCE sym_program 0;
  (* [5] *) entry 1 true; SHIFT 19;
  (* [7] *) entry 1 true; SHIFT 21;
  (* [9] *) entry 1 true; SHIFT 20;
  (* [11] *) entry 1 true; SHIFT 26;
  (* [13] *) entry 1 true; SHIFT 6;
  (* [15] *) entry 1 true; REDUCE sym_program 1;
  (* [17] *) entry 1 true; REDUCE aux_sym_program_repeat1 2;
  (* [19] *) entry 2 true; REDUCE aux_sym_program_repeat1 2; SHIFT_REPEAT 19;
  (* [22] *) entry 2 true; REDUCE aux_sym_program_repeat1 2; SHIFT_REPEAT 21;
  (* [25] *) entry 2 true; REDUCE aux_sym_program_repeat1 2; SHIFT_REPEAT 20;
  (* [28] *) entry 2 true; REDUCE aux_sym_program_repeat1 2; SHIFT_REPEAT 26;
  (* [31] *) entry 2 true; REDUCE aux_sym_program_repeat1 2; SHIFT_REPEAT 6;
  (* [34] *) entry 1 true; REDUCE_ID sym_group_expression 3 2;
  (* [36] *) entry 1 false; REDUCE_ID sym_group_expression 3 2;
  (* [38] *) entry 1 true; REDUCE_ID sym_binary_expression 3 3;
  (* [40] *) entry 1 false; SHIFT 15;
  (* [42] *) entry 1 true; SHIFT 15;
  (* [44] *) entry 1 true; SHIFT 16;
  (* [46] *) entry 1 true; SHIFT 17;
  (* [48] *) entry 1 true; REDUCE sym_boolean 1;
  (* [50] *) entry 1 false; REDUCE sym_boolean 1;
  (* [52] *) entry 1 true; REDUCE_ID sym_ternary_expression 5 4;
  (* [54] *) entry 1 true; SHIFT 14;
  (* [56] *) entry 1 true; SHIFT 18;
  (* [58] *) entry 1 true; SHIFT 7;
  (* [60] *) entry 1 false; REDUCE_ID sym_binary_expression 3 3;
  (* [62] *) entry 1 true; REDUCE_ID sym_unary_expression 2 1;
  (* [64] *) entry 1 false; REDUCE_ID sym_unary_expression 2 1;
  (* [66] *) entry 1 true; SHIFT 22;
  (* [68] *) entry 1 true; SHIFT 5;
  (* [70] *) entry 1 true; SHIFT 12;
  (* [72] *) entry 1 true; SHIFT 11;
  (* [74] *) entry 1 true; SHIFT 9;
  (* [76] *) entry 1 true; SHIFT 25;
  (* [78] *) entry 1 true; SHIFT 24;
  (* [80] *) entry 1 true; SHIFT 23;
  (* [82] *) entry 1 true; SHIFT 10;
  (* [84] *) entry 1 true; SHIFT 13;
  (* [86] *) entry 1 true; SHIFT 4;
  (* [88] *) entry 1 true; SHIFT 27;
  (* [90] *) entry 1 true; SHIFT 8;
  (* [92] *) entry 1 true; SHIFT 28;
  (* [94] *) entry 1 true; REDUCE sym_print_statement 3;
  (* [96] *) entry 1 true; REDUCE sym_expression_statement 2;
  (* [98] *) entry 1 true; ACCEPT_INPUT
].

(** ** Table lookup *)

(** Reading a row that was initialised with designators. *)
Fixpoint row_get (symbol : TSSymbol) (row : list (nat * nat)) : nat :=
  match row with
  | [] => 0
  | (designator, value) :: row' =>
      if designator =? symbol then value else row_get symbol row'
  end.

Fixpoint small_table_lookup (group_count : nat) (data : list nat)
         (symbol : TSSymbol) : nat :=
  match group_count, data with
  | S groups, section_value :: symbol_count :: data' =>
      if existsb (Nat.eqb symbol) (firstn symbol_count data') then section_value
      else small_table_lookup groups (skipn symbol_count data') symbol
  | _, _ => 0
  end.

(** Modelled from the spec: the two-tier lookup of section 6 (the function
    lives in the tree-sitter runtime, not in the sources).  Large states
    index [ts_parse_table] directly; a small state finds its offset in
    [ts_small_parse_table_map] and scans its groups; a symbol that is not
    listed yields 0. *)
Definition ts_language_lookup (state : TSStateId) (symbol : TSSymbol) : nat :=
  if LARGE_STATE_COUNT <=? state then
    match nth_error ts_small_parse_table_map (SMALL_STATE state) with
    | Some offset =>
        match skipn offset ts_small_parse_table with
        | group_count :: data => small_table_lookup group_count data symbol
        | [] => 0
        end
    | None => 0
    end
  else
    match nth_error ts_parse_table state with
    | Some row => row_get symbol row
    | None => 0
    end.

Definition cell_actions (cells : list TSParseActionEntry) : list TSParseAction :=
  flat_map (fun c => match c with action a => [a] | entry _ _ => [] end) cells.

(** The actions listed for a terminal in a state: the [count] cells that
    follow the entry header at the index the table gives. *)
Definition ts_language_actions (state : TSStateId) (symbol : TSSymbol)
  : list TSParseAction :=
  match skipn (ts_language_lookup state symbol) ts_parse_actions with
  | entry count _ :: cells => cell_actions (firstn count cells)
  | _ => []
  end.

(** The action the engine executes for a lookahead: the one listed, where a
    shift marked as a repetition is passed over (the reduction listed before
    it is the action taken). *)
Definition parse_action (state : TSStateId) (symbol : TSSymbol)
  : option TSParseAction :=
  if symbol <? TOKEN_COUNT then
    find (fun a => match a with Shift _ true => false | _ => true end)
         (ts_language_actions state symbol)
  else None.

(** The goto of a state on a nonterminal; 0 when there is none. *)
Definition goto (state : TSStateId) (symbol : TSSymbol) : TSStateId :=
  if symbol <? TOKEN_COUNT then 0 else ts_language_lookup state symbol.

Definition lex_mode (state : TSStateId) : TSStateId := nth state ts_lex_modes 0.

(** The field map of a production: its slice of [ts_field_map_entries]. *)
Definition field_map (production_id : nat) : list TSFieldMapEntry :=
  match nth_error ts_field_map_slices production_id with
  | Some s => firstn (FieldMap.length s) (skipn (FieldMap.index s) ts_field_map_entries)
  | None => []
  end.

(** ** Tokens and nodes *)

Record Token := mkToken { kind : TSSymbol; token_start : nat; token_end : nat }.

Inductive LexOutcome :=
| Matched (t : Token)
| NoMatch (offset : nat).

(** [next_token(buffer, offset, mode) -> Token | NoMatch] of section 4.1.
    The outer [option] is the bound of [ts_lex_loop]. *)
Definition next_token (buffer : list Z) (offset : nat) (mode : TSStateId)
  : option LexOutcome :=
  match ts_lex (lexer_start (skipn offset buffer) offset) mode with
  | Some (true, lexer) =>
      Some (Matched (mkToken (result_symbol lexer) (token_start_position lexer)
                             (lexer_token_end lexer)))
  | Some (false, lexer) => Some (NoMatch (token_start_position lexer))
  | None => None
  end.

(** Modelled from the spec: the nodes of section 3.  A [Leaf] wraps a
    token, a [Tree] is the node of a reduction, an [Error] is the node error
    recovery synthesises (without children it stands for a byte that starts
    no token). *)
#[warnings="-register-all"]
Inductive Node :=
| Leaf (symbol : TSSymbol) (start_byte end_byte : nat)
| Tree (symbol : TSSymbol) (production_id : nat) (children : list Node)
       (start_byte end_byte : nat)
| Error (children : list Node) (start_byte end_byte : nat).

Definition node_start (n : Node) : nat :=
  match n with Leaf _ a _ => a | Tree _ _ _ a _ => a | Error _ a _ => a end.
Definition node_end (n : Node) : nat :=
  match n with Leaf _ _ b => b | Tree _ _ _ _ b => b | Error _ _ b => b end.
Definition node_children (n : Node) : list Node :=
  match n with Leaf _ _ _ => [] | Tree _ _ cs _ _ => cs | Error cs _ _ => cs end.

Definition leaf_of (t : Token) : Node := Leaf (kind t) (token_start t) (token_end t).

(** Field lookup: the child at the position the production's field map
    gives for the field. *)
Definition child_by_field_id (n : Node) (field : TSFieldId) : option Node :=
  match n with
  | Tree _ production_id children _ _ =>
      match find (fun e => FieldMap.field_id e =? field) (field_map production_id) with
      | Some e => nth_error children (FieldMap.child_index e)
      | None => None
      end
  | Leaf _ _ _ | Error _ _ _ => None
  end.

(** ** Tree builder (section 4.4) *)

Definition is_visible (symbol : TSSymbol) : bool :=
  match nth_error ts_symbol_metadata symbol with
  | Some m => visible m
  | None => true
  end.

(** A node of a suppressed symbol (the repetition helper) is replaced by its
    children when its parent is built. *)
Definition expose (n : Node) : list Node :=
  match n with
  | Tree symbol _ children _ _ => if is_visible symbol then [n] else children
  | Leaf _ _ _ | Error _ _ _ => [n]
  end.

(** Modelled from the spec: the range of a new node runs from the first
    child's start to the last child's end; without children it is the empty
    range at the current offset. *)
Definition span_start (children : list Node) (offset : nat) : nat :=
  match children with
  | [] => offset
  | first :: _ => node_start first
  end.

Definition span_end (children : list Node) (offset : nat) : nat :=
  match children with
  | [] => offset
  | first :: _ => node_end (last children first)
  end.

Definition build_node (symbol : TSSymbol) (production_id : nat)
           (popped : list Node) (offset : nat) : Node :=
  let children := flat_map expose popped in
  Tree symbol production_id children
       (span_start children offset) (span_end children offset).

Definition error_node (popped : list Node) (offset : nat) : Node :=
  let children := flat_map expose popped in
  Error children (span_start children offset) (span_end children offset).

(** ** Parser engine (sections 4.3 and 4.5) *)

Definition Stack := list (TSStateId * Node).

(** State 0 is the recovery row of the table; parsing starts in state 1. *)
Definition start_state : TSStateId := 1.

Definition top_state (stack : Stack) : TSStateId :=
  match stack with
  | [] => start_state
  | (state, _) :: _ => state
  end.

Record Parser := mkParser {
  stack : Stack;
  position : nat;
  lookahead : option Token;
  history : list TSParseAction
}.

Inductive Outcome :=
| Continue (p : Parser)
| Accepted (root : Node) (actions : list TSParseAction)
| Failed.

(** A statement may start in the states that have a goto on [_statement]. *)
Definition is_statement_boundary (state : TSStateId) : bool :=
  negb (goto state sym__statement =? 0).

(** Pops the entries above the last statement boundary; [wrapped] collects
    their nodes in source order. *)
Fixpoint unwind (stack : Stack) (wrapped : list Node) : list Node * Stack :=
  match stack with
  | [] => (wrapped, [])
  | (state, n) :: below =>
      if is_statement_boundary state then (wrapped, stack)
      else unwind below (n :: wrapped)
  end.

Section Engine.

Variable input : list Z.

(** Modelled from the spec: the scan to a synchronising token of section
    4.5, in the lexical mode of the recovery state.  A byte that starts no
    token is skipped as an error node and scanning resumes behind it; [;]
    is consumed, end-of-input is not. *)
Fixpoint resynchronize (fuel : nat) (offset : nat) (skipped : list Node)
  : option (list Node * nat) :=
  match fuel with
  | O => None
  | S fuel' =>
      match next_token input offset (lex_mode 0) with
      | Some (Matched t) =>
          if kind t =? ts_builtin_sym_end then Some (skipped, offset)
          else if kind t =? anon_sym_SEMI
               then Some (skipped ++ [leaf_of t], token_end t)
               else resynchronize fuel' (token_end t) (skipped ++ [leaf_of t])
      | Some (NoMatch at_offset) =>
          resynchronize fuel' (S at_offset)
            (skipped ++ [Error [] at_offset (S at_offset)])
      | None => None
      end
  end.

(** Modelled from the spec: error recovery of section 4.5.  The error node
    wraps what was consumed since the last statement boundary and what the
    scan skipped, and is pushed as a completed statement. *)
Definition recover (p : Parser) : Outcome :=
  let (wrapped, below) := unwind (stack p) [] in
  match resynchronize (S (length input - position p)) (position p) [] with
  | Some (skipped, offset) =>
      let next_state := goto (top_state below) sym__statement in
      if next_state =? 0 then Failed
      else
        let error := error_node (wrapped ++ skipped) (position p) in
        Continue (mkParser ((next_state, error) :: below) offset None
                           (history p ++ [Recover]))
  | None => Failed
  end.

(** Modelled from the spec: a reduction (step 4 of section 4.3). *)
Definition reduce (p : Parser) (symbol : TSSymbol) (child_count : nat)
           (production_id : nat) : Outcome :=
  if child_count <=? length (stack p) then
    let popped := rev (map snd (firstn child_count (stack p))) in
    let below := skipn child_count (stack p) in
    let next_state := goto (top_state below) symbol in
    if next_state =? 0 then Failed
    else
      let parent := build_node symbol production_id popped (position p) in
      Continue (mkParser ((next_state, parent) :: below) (position p)
                         (lookahead p)
                         (history p ++ [Reduce symbol child_count production_id]))
  else Failed.

(** Modelled from the spec: one turn of the loop of section 4.3. *)
Definition parser_step (p : Parser) : Outcome :=
  match lookahead p with
  | None =>
      match next_token input (position p) (lex_mode (top_state (stack p))) with
      | Some (Matched t) =>
          Continue (mkParser (stack p) (position p) (Some t) (history p))
      | Some (NoMatch _) => recover p
      | None => Failed
      end
  | Some t =>
      match parse_action (top_state (stack p)) (kind t) with
      | Some (Shift next_state _) =>
          Continue (mkParser ((next_state, leaf_of t) :: stack p) (token_end t)
                             None (history p ++ [Shift next_state false]))
      | Some (Reduce symbol child_count production_id) =>
          reduce p symbol child_count production_id
      | Some Accept =>
          match stack p with
          | [(_, root)] => Accepted root (history p ++ [Accept])
          | _ => Failed
          end
      | Some Recover | None => recover p
      end
  end.

Fixpoint run (fuel : nat) (p : Parser) : option (Node * list TSParseAction) :=
  match fuel with
  | O => None
  | S fuel' =>
      match parser_step p with
      | Continue p' => run fuel' p'
      | Accepted root actions => Some (root, actions)
      | Failed => None
      end
  end.

(** The bound on the turns of the loop. *)
Definition parse_fuel : nat := 20 * length input + 12.

Definition parse_with_history : option (Node * list TSParseAction) :=
  run parse_fuel (mkParser [] 0 None []).

Definition parse : option Node := option_map fst parse_with_history.

End Engine.

(** ** Character classes and statements about tokens *)

Definition is_space (c : Z) : bool :=
  ((c =? TAB) || (c =? LF) || (c =? CR) || (c =? SPACE))%Z.

Definition is_digit (c : Z) : bool := ((chr "0" <=? c) && (c <=? chr "9"))%Z.

(** The character the lexer sees in front of [rest]: its head, or 0 at the
    end of the input. *)
Definition next_char (rest : list Z) : Z := hd 0%Z rest.

(** A lexical mode recognises a symbol when some input makes the tokenizer
    return a token of that kind in that mode. *)
Definition recognizes (mode : TSStateId) (symbol : TSSymbol) : Prop :=
  exists buffer t,
    next_token buffer 0 mode = Some (Matched t) /\ kind t = symbol.

(** The two-character operators and their token kinds. *)
Definition two_char_operators : list (list Z * TSSymbol) :=
  [ (codes "==", anon_sym_EQ_EQ); (codes "!=", anon_sym_BANG_EQ);
    (codes "<=", anon_sym_LT_EQ); (codes ">=", anon_sym_GT_EQ) ].

(** The automaton states that can be reached from lex state 19, and the
    symbols accepted in them. *)
Definition mode19_states : list TSStateId :=
  [19; 20; 36; 2; 42; 38; 31; 5; 10; 15; 7; 44; 9; 11; 45; 14; 8; 12; 16; 22;
   13; 17; 6; 43; 40; 18; 41].

Definition mode19_symbols : list TSSymbol :=
  [ts_builtin_sym_end; anon_sym_print; anon_sym_DASH; anon_sym_BANG;
   anon_sym_LPAREN; sym_number; sym_string; anon_sym_true; anon_sym_false;
   sym_nil].

Definition mem (x : nat) (l : list nat) : bool := existsb (Nat.eqb x) l.

(** ** Statements about the parse table *)

Definition all_states : list TSStateId := seq 0 STATE_COUNT.
Definition terminals : list TSSymbol := seq 0 TOKEN_COUNT.
Definition all_symbols : list TSSymbol := seq 0 SYMBOL_COUNT.

(** The state reached from [state] over [symbol]: the target of the shift
    for a terminal, the goto for a nonterminal; 0 when there is none. *)
Definition transition (state : TSStateId) (symbol : TSSymbol) : TSStateId :=
  if symbol <? TOKEN_COUNT then
    match parse_action state symbol with
    | Some (Shift next_state _) => next_state
    | _ => 0
    end
  else goto state symbol.

(** The states entered by shifting one of [symbols]. *)
Definition shift_targets (symbols : list TSSymbol) : list TSStateId :=
  nodup Nat.eq_dec
    (flat_map
       (fun state =>
          flat_map
            (fun symbol =>
               match parse_action state symbol with
               | Some (Shift next_state _) => [next_state]
               | _ => []
               end) symbols)
       all_states).

(** The tokens behind which a new operand is expected: the operators and
    the opening delimiter. *)
Definition operand_introducers : list TSSymbol :=
  [anon_sym_COMMA; anon_sym_EQ_EQ; anon_sym_BANG_EQ; anon_sym_LT;
   anon_sym_LT_EQ; anon_sym_GT; anon_sym_GT_EQ; anon_sym_PLUS; anon_sym_DASH;
   anon_sym_STAR; anon_sym_SLASH; anon_sym_QMARK; anon_sym_COLON;
   anon_sym_BANG; anon_sym_LPAREN].

Definition operand_states : list TSStateId := shift_targets operand_introducers.

Definition statement_start_states : list TSStateId :=
  filter is_statement_boundary all_states.

(** The precedence ladder in the words of the specification (section 4.2),
    lowest first. *)
Inductive OperatorClass :=
| Ternary | Equality | Comparison | Additive | Multiplicative | UnaryPrefix.

Definition precedence (c : OperatorClass) : nat :=
  match c with
  | Ternary => 1
  | Equality => 2
  | Comparison => 3
  | Additive => 4
  | Multiplicative => 5
  | UnaryPrefix => 6
  end.

Definition right_associative (c : OperatorClass) : bool :=
  match c with
  | Ternary | UnaryPrefix => true
  | Equality | Comparison | Additive | Multiplicative => false
  end.

(** The operators that can follow a complete operand. *)
Inductive InfixOperator :=
| OpQuestion | OpEqEq | OpBangEq | OpLt | OpLtEq | OpGt | OpGtEq
| OpPlus | OpMinus | OpStar | OpSlash.

Definition infix_operators : list InfixOperator :=
  [OpQuestion; OpEqEq; OpBangEq; OpLt; OpLtEq; OpGt; OpGtEq; OpPlus; OpMinus;
   OpStar; OpSlash].

Definition operator_token (op : InfixOperator) : TSSymbol :=
  match op with
  | OpQuestion => anon_sym_QMARK
  | OpEqEq => anon_sym_EQ_EQ
  | OpBangEq => anon_sym_BANG_EQ
  | OpLt => anon_sym_LT
  | OpLtEq => anon_sym_LT_EQ
  | OpGt => anon_sym_GT
  | OpGtEq => anon_sym_GT_EQ
  | OpPlus => anon_sym_PLUS
  | OpMinus => anon_sym_DASH
  | OpStar => anon_sym_STAR
  | OpSlash => anon_sym_SLASH
  end.

Definition operator_class (op : InfixOperator) : OperatorClass :=
  match op with
  | OpQuestion => Ternary
  | OpEqEq | OpBangEq => Equality
  | OpLt | OpLtEq | OpGt | OpGtEq => Comparison
  | OpPlus | OpMinus => Additive
  | OpStar | OpSlash => Multiplicative
  end.

(** The token that precedes the last operand of an expression of a class:
    the operator itself, [:] for the ternary. *)
Definition last_operator_token (c : OperatorClass) : TSSymbol :=
  match c with
  | Ternary => anon_sym_COLON
  | Equality => anon_sym_EQ_EQ
  | Comparison => anon_sym_LT
  | Additive => anon_sym_PLUS
  | Multiplicative => anon_sym_STAR
  | UnaryPrefix => anon_sym_BANG
  end.

(** The state in which the operand behind [symbol] starts, read off the
    table: the state entered by shifting [symbol]. *)
Definition operand_state (symbol : TSSymbol) : TSStateId :=
  hd 0 (shift_targets [symbol]).

(** The symbols over which the engine leaves the state in which an operand
    started, once the operand is complete: the literal tokens it shifts, and
    the nonterminals that the reductions of [ts_parse_actions] build for an
    expression.  ([_expression] and [_literal_expression] are not among
    them: no reduction builds them, so the engine never reads their
    columns.) *)
Definition operand_symbols : list TSSymbol :=
  [sym_number; sym_string; sym_nil; sym_boolean; sym_binary_expression;
   sym_ternary_expression; sym_unary_expression; sym_group_expression].

(** The symbols that the reductions of [ts_parse_actions] build. *)
Definition reduced_symbols : list TSSymbol :=
  nodup Nat.eq_dec
    (flat_map (fun cell =>
                 match cell with
                 | action (Reduce symbol _ _) => [symbol]
                 | _ => []
                 end)
              ts_parse_actions).

(** The states in which an operand can start: those that shift a number. *)
Definition live_operand_states : list TSStateId :=
  filter (fun state =>
            match parse_action state sym_number with
            | Some (Shift _ _) => true
            | _ => false
            end)
         all_states.

(** The state in which the engine is when an operand that started in
    [state] is complete, named by the shift of a number. *)
Definition behind_operand (state : TSStateId) : TSStateId :=
  transition state sym_number.

(** The state in which [true] and [false] are reduced to a [boolean]. *)
Definition boolean_state : TSStateId := operand_state anon_sym_true.

(** Every way in which the engine leaves [state] over a complete operand
    leads to the same state, and the tokens that start a nested operand are
    shifted to the states of their own. *)
Definition operand_exits_agree (state : TSStateId) : Prop :=
  behind_operand state <> 0
  /\ Forall (fun symbol => transition state symbol = behind_operand state)
            operand_symbols
  /\ Forall (fun symbol =>
               parse_action state symbol = Some (Shift boolean_state false))
            [anon_sym_true; anon_sym_false]
  /\ Forall (fun symbol =>
               parse_action state symbol
               = Some (Shift (operand_state anon_sym_BANG) false))
            [anon_sym_DASH; anon_sym_BANG]
  /\ parse_action state anon_sym_LPAREN
     = Some (Shift (operand_state anon_sym_LPAREN) false).

(** The state entered by shifting an infix operator behind a complete
    operand at statement level ([-] is also a prefix operator, hence the
    context). *)
Definition infix_operand_state (op : InfixOperator) : TSStateId :=
  match parse_action (behind_operand start_state) (operator_token op) with
  | Some (Shift next_state _) => next_state
  | _ => 0
  end.

(** The state in which the last operand of an expression with operator
    [op] starts: for the ternary this is the operand behind [:]. *)
Definition last_operand_state (op : InfixOperator) : TSStateId :=
  match op with
  | OpQuestion => operand_state anon_sym_COLON
  | _ => infix_operand_state op
  end.

(** The state on top of the stack when the last operand of an expression of
    class [c] is complete. *)
Definition completed_state (c : OperatorClass) : TSStateId :=
  behind_operand (operand_state (last_operator_token c)).

(** The reduction that builds an expression of a class. *)
Definition class_reduction (c : OperatorClass) : TSParseAction :=
  match c with
  | Ternary => Reduce sym_ternary_expression 5 4
  | UnaryPrefix => Reduce sym_unary_expression 2 1
  | Equality | Comparison | Additive | Multiplicative =>
      Reduce sym_binary_expression 3 3
  end.

(** What the ladder demands when an expression of class [c] is complete and
    [op] is the lookahead: shift when [op] binds tighter, or as tight with
    [c] right-associative; reduce otherwise. *)
Definition ladder_action (c : OperatorClass) (op : InfixOperator) : TSParseAction :=
  let c' := operator_class op in
  if (precedence c <? precedence c')
     || ((precedence c =? precedence c') && right_associative c)
  then Shift (infix_operand_state op) false
  else class_reduction c.

(** The states in which an operand starts behind an operator of the
    ladder. *)
Definition pending_operand_states : list TSStateId :=
  nodup Nat.eq_dec
    (operand_state anon_sym_BANG :: map last_operand_state infix_operators).

(** The states in which an operand starts and no operator is pending: at
    the start of a statement (the first and the later ones), behind [print],
    behind an opening parenthesis and in the then-branch of a ternary. *)
Definition fresh_operand_states : list TSStateId :=
  [start_state; transition start_state aux_sym_program_repeat1;
   operand_state anon_sym_print; operand_state anon_sym_LPAREN;
   infix_operand_state OpQuestion].

(** The states in which an operand is complete and no operator is
    pending. *)
Definition fresh_states : list TSStateId :=
  nodup Nat.eq_dec (map behind_operand fresh_operand_states).

(** All states in which an operand is complete. *)
Definition operand_complete_states : list TSStateId :=
  filter (fun state => lex_mode state =? 1) all_states.

(** The tokens that close an expression. *)
Definition closing_tokens : list TSSymbol :=
  [anon_sym_SEMI; anon_sym_COLON; anon_sym_RPAREN].

(** The tokens that can follow a complete operand. *)
Definition continuation_tokens : list TSSymbol :=
  map operator_token infix_operators ++ anon_sym_COMMA :: closing_tokens.

(** ** Invariants of a tokenizer run *)

Definition entry_states : list TSStateId := [0; 1; 19].

(** A run that started in lex state [mode] at [offset] in front of [rest0],
    at the moment the automaton is in state [s]: [w] is the whitespace
    skipped so far and [tok] what the token under construction has
    consumed. *)
Definition lex_inv (rest0 : list Z) (offset : nat) (mode : TSStateId)
           (lexer : TSLexer) (result : bool) (s : TSStateId) : Prop :=
  exists w tok,
    rest0 = w ++ tok ++ input_rest lexer
    /\ Forall (fun c => is_space c = true) w
    /\ token_start_position lexer = offset + length w
    /\ current_position lexer = offset + length w + length tok
    /\ (mem s entry_states = true -> s = mode /\ result = false /\ tok = [])
    /\ (mem s entry_states = false ->
        (s = 20 /\ tok = [] /\ input_rest lexer = []) \/ (s <> 20 /\ tok <> []))
    /\ (result = true ->
        result_symbol lexer < TOKEN_COUNT
        /\ exists e,
            token_end_position lexer = Some e
            /\ offset + length w <= e <= current_position lexer
            /\ (result_symbol lexer <> ts_builtin_sym_end -> offset + length w < e)
            /\ (result_symbol lexer = ts_builtin_sym_end ->
                tok = [] /\ input_rest lexer = [])).

(** What the run has established when it returns. *)
Definition lex_post (rest0 : list Z) (offset : nat) (mode : TSStateId)
           (lexer : TSLexer) (result : bool) : Prop :=
  exists w tail,
    rest0 = w ++ tail
    /\ Forall (fun c => is_space c = true) w
    /\ token_start_position lexer = offset + length w
    /\ (result = true ->
        result_symbol lexer < TOKEN_COUNT
        /\ offset + length w <= lexer_token_end lexer <= offset + length rest0
        /\ (result_symbol lexer <> ts_builtin_sym_end ->
            offset + length w < lexer_token_end lexer)
        /\ (result_symbol lexer = ts_builtin_sym_end -> tail = []))
    /\ (result = false -> mode <> 1 -> tail <> []).

(** What a state of the automaton may accept. *)
Definition accept_facts (s : TSStateId) (acc : lex_accept) : Prop :=
  match acc with
  | ACCEPT_TOKEN symbol =>
      mem s entry_states = false /\ symbol < TOKEN_COUNT
      /\ (symbol = ts_builtin_sym_end <-> s = 20)
  | NO_TOKEN => s <> 20
  end.

(** ** Well-formed parser configurations *)

Definition edge (a b : TSStateId) : bool :=
  (a <? STATE_COUNT) && (b <? STATE_COUNT) && negb (b =? 0)
  && existsb (fun symbol => transition a symbol =? b) all_symbols.

(** The states of a stack, top first, form a path of the automaton that
    starts in the start state. *)
Fixpoint valid_stack (states : list TSStateId) : bool :=
  match states with
  | [] => true
  | s :: below => edge (hd start_state below) s && valid_stack below
  end.

Definition preds (s : TSStateId) : list TSStateId :=
  filter (fun a => edge a s) all_states.

(** The states [n] entries below one of the states [l]. *)
Fixpoint back (n : nat) (l : list TSStateId) : list TSStateId :=
  match n with
  | O => l
  | S n' => back n' (nodup Nat.eq_dec (flat_map preds l))
  end.

(** A ranking of the states under which every step of the engine that
    consumes no input lowers [stack_weight]. *)
Definition rank (state : TSStateId) : nat :=
  match state with
  | 1 => 5
  | 6 => 3
  | 29 => 0
  | 2 | 3 => 1
  | _ => 2
  end.

Definition stack_weight (states : list TSStateId) : nat :=
  4 * length states + rank (hd start_state states).

Definition measure (input : list Z) (p : Parser) : nat :=
  20 * (length input - position p)
  + 2 * stack_weight (map fst (stack p))
  + match lookahead p with None => 1 | Some _ => 0 end.

(** The properties of the table the engine relies on, as checks over all
    states and terminals. *)
Definition shift_ok (s : TSStateId) (t : TSSymbol) : bool :=
  match parse_action s t with
  | Some (Shift s' _) =>
      (s' <? STATE_COUNT) && negb (s' =? 0) && negb (s' =? 29)
      && negb (t =? ts_builtin_sym_end)
  | _ => true
  end.

Definition reduce_ok (s : TSStateId) (t : TSSymbol) : bool :=
  match parse_action s t with
  | Some (Reduce symbol n _) =>
      (TOKEN_COUNT <=? symbol) && (symbol <? SYMBOL_COUNT)
      && forallb (fun j => negb (mem start_state (back j [s]))) (seq 0 n)
      && forallb (fun b =>
                    let s' := goto b symbol in
                    (s' <? STATE_COUNT) && negb (s' =? 0)
                    && (4 + rank s' <? 4 * n + rank s)
                    && (negb (s' =? 29) || (t =? ts_builtin_sym_end)))
                 (back n [s])
  | _ => true
  end.

Definition accept_ok (s : TSStateId) (t : TSSymbol) : bool :=
  match parse_action s t with
  | Some Accept => s =? 29
  | _ => true
  end.

Definition state_ok (s : TSStateId) : bool :=
  mem (lex_mode s) entry_states
  && (if is_statement_boundary s
      then let s' := goto s sym__statement in
           (s' <? STATE_COUNT) && negb (s' =? 0) && negb (s' =? 29)
           && (rank s' <=? 1) && negb (lex_mode s =? 1)
           && match parse_action s ts_builtin_sym_end with
              | None | Some Recover => false
              | _ => true
              end
      else 2 <=? rank s + (if s =? 29 then 2 else 0))
  && negb (edge s start_state)
  && (negb (edge s 29) || (s =? start_state))
  && forallb (fun t => shift_ok s t && reduce_ok s t && accept_ok s t) terminals.

(** The configurations the engine passes through on [input]. *)
Definition parser_inv (input : list Z) (p : Parser) : Prop :=
  position p <= length input
  /\ valid_stack (map fst (stack p)) = true
  /\ match lookahead p with
     | Some t =>
         exists mode,
           In mode entry_states
           /\ next_token input (position p) mode = Some (Matched t)
     | None => True
     end
  /\ (top_state (stack p) = 29 ->
      exists t, lookahead p = Some t /\ kind t = ts_builtin_sym_end).

(** ** Byte ranges and coverage *)

Definition slice (input : list Z) (a b : nat) : list Z :=
  firstn (b - a) (skipn a input).

(** The bytes from [a] to [b] are whitespace the tokenizer skips. *)
Definition ws_between (input : list Z) (a b : nat) : bool :=
  (a <=? b) && (b <=? length input) && forallb is_space (slice input a b).

(** The nodes [ns] lie in order between [a] and [b], without overlap, and
    nothing but skipped whitespace lies before, between and behind them. *)
Fixpoint gaps_ok (input : list Z) (a : nat) (ns : list Node) (b : nat) : bool :=
  match ns with
  | [] => ws_between input a b
  | n :: ns' =>
      ws_between input a (node_start n)
      && (node_start n <=? node_end n)
      && gaps_ok input (node_end n) ns' b
  end.

(** The end of the last of [ns], or [a] when there is none. *)
Fixpoint last_end (a : nat) (ns : list Node) : nat :=
  match ns with
  | [] => a
  | n :: ns' => last_end (node_end n) ns'
  end.

(** The range of every node of the tree runs from its first child's start
    to its last child's end, and its children lie in order, apart by skipped
    whitespace only.  A reduction without children has an empty range. *)
Fixpoint well_ranged (input : list Z) (n : Node) : bool :=
  match n with
  | Leaf _ a b => (a <=? b) && (b <=? length input)
  | Tree _ _ children a b =>
      (a <=? b) && (b <=? length input)
      && forallb (well_ranged input) children
      && (a =? span_start children a) && (b =? span_end children a)
      && gaps_ok input a children b
  | Error children a b =>
      (a <=? b) && (b <=? length input)
      && forallb (well_ranged input) children
      && match children with
         | [] => true
         | _ => (a =? span_start children a) && (b =? span_end children a)
                && gaps_ok input a children b
         end
  end.

(** The leaves of a tree in source order: the tokens, and the bytes error
    recovery skipped because they start no token. *)
Fixpoint leaf_nodes (n : Node) : list Node :=
  match n with
  | Leaf _ _ _ => [n]
  | Tree _ _ children _ _ => flat_map leaf_nodes children
  | Error children _ _ =>
      match children with
      | [] => [n]
      | _ => flat_map leaf_nodes children
      end
  end.

(** The input put together again from the slices of the leaves [ls] and
    what lies between them, from [pos] on. *)
Fixpoint reassemble (input : list Z) (pos : nat) (ls : list Node) : list Z :=
  match ls with
  | [] => slice input pos (length input)
  | n :: ls' =>
      slice input pos (node_start n)
      ++ slice input (node_start n) (node_end n)
      ++ reassemble input (node_end n) ls'
  end.

(** The nodes on the stack, in source order, account for the input up to
    the current position. *)
Definition stack_tiles (input : list Z) (p : Parser) : Prop :=
  gaps_ok input 0 (rev (map snd (stack p))) (position p) = true
  /\ forallb (well_ranged input) (map snd (stack p)) = true.

(** The configurations the engine passes through. *)
Definition good (input : list Z) (p : Parser) : Prop :=
  parser_inv input p /\ stack_tiles input p.

(** Modelled from the spec: the invariant of section 3 as it is worded,
    without gaps: the ranges of the children follow one another from the
    start of the node to its end with no byte between them. *)
Fixpoint contiguous (a : nat) (ns : list Node) (b : nat) : bool :=
  match ns with
  | [] => a =? b
  | n :: ns' => (a =? node_start n) && contiguous (node_end n) ns' b
  end.

(** Modelled from the spec: every node of the tree with children is the
    [contiguous] sequence of them. *)
Fixpoint tiles_exactly (n : Node) : bool :=
  match n with
  | Leaf _ _ _ => true
  | Tree _ _ children a b | Error children a b =>
      forallb tiles_exactly children
      && match children with
         | [] => true
         | _ => contiguous a children b
         end
  end.

(** The root the engine returns is a [program]: the node that sits on the
    stack under the accepting state. *)
Definition is_program (n : Node) : bool :=
  match n with
  | Tree symbol _ _ _ _ => symbol =? sym_program
  | Leaf _ _ _ | Error _ _ _ => false
  end.

Definition root_inv (stack : Stack) : Prop :=
  forall state n, In (state, n) stack -> state = 29 -> is_program n = true.

(** ** Error recovery along a parse *)

(** The configuration after [n] turns of the loop; [None] once the parse
    has ended. *)
Fixpoint configuration (input : list Z) (n : nat) : option Parser :=
  match n with
  | O => Some (mkParser [] 0 None [])
  | S n' =>
      match configuration input n' with
      | Some p =>
          match parser_step input p with
          | Continue p' => Some p'
          | Accepted _ _ | Failed => None
          end
      | None => None
      end
  end.

(** The error conditions of section 4.5: the tokenizer finds no token in
    the lexical mode of the state on top of the stack, or the table has no
    action for the lookahead there (or the recovery action). *)
Definition error_condition (input : list Z) (p : Parser) : bool :=
  match lookahead p with
  | None =>
      match next_token input (position p) (lex_mode (top_state (stack p))) with
      | Some (NoMatch _) => true
      | _ => false
      end
  | Some t =>
      match parse_action (top_state (stack p)) (kind t) with
      | None | Some Recover => true
      | Some _ => false
      end
  end.

Definition is_semicolon (n : Node) : bool :=
  match n with
  | Leaf symbol _ _ => symbol =? anon_sym_SEMI
  | Tree _ _ _ _ _ | Error _ _ _ => false
  end.

(** The scan of error recovery ended where it should: behind the first [;]
    it met, or, having met none, where nothing but whitespace is left of the
    input. *)
Definition synchronised (input : list Z) (skipped : list Node) (offset : nat)
  : Prop :=
  (exists before a,
      skipped = before ++ [Leaf anon_sym_SEMI a offset]
      /\ existsb is_semicolon before = false)
  \/ (existsb is_semicolon skipped = false
      /\ ws_between input offset (length input) = true).

(** A tree with an error node in it. *)
Fixpoint has_error (n : Node) : bool :=
  match n with
  | Leaf _ _ _ => false
  | Tree _ _ children _ _ => existsb has_error children
  | Error _ _ _ => true
  end.

(** Error nodes are on the stack exactly when recovery has run. *)
Definition errors_recorded (p : Parser) : Prop :=
  existsb has_error (map snd (stack p)) = true <-> In Recover (history p).

(** * Properties *)

(** ** The tokenizer loop *)

Arguments ts_lex_case : simpl never.

Lemma ts_lex_loop_more_fuel :
  forall fuel lexer result state r,
    ts_lex_loop fuel lexer result state = Some r ->
    forall fuel', fuel <= fuel' -> ts_lex_loop fuel' lexer result state = Some r.
Proof.
  induction fuel as [|fuel IH]; intros lexer result state r H fuel' Hle.
  - discriminate.
  - destruct fuel' as [|fuel']; [lia|].
    cbn [ts_lex_loop] in *.
    destruct (ts_lex_case state (lexer_eof lexer) (lexer_lookahead lexer)) as [acc ex].
    destruct ex; try assumption; apply IH with (fuel' := fuel') in H; auto; lia.
Qed.

Lemma is_space_cases :
  forall c, is_space c = true -> c = TAB \/ c = LF \/ c = CR \/ c = SPACE.
Proof.
  intros c H. unfold is_space in H.
  repeat rewrite orb_true_iff in H. repeat rewrite Z.eqb_eq in H. tauto.
Qed.

Lemma lex_case_space :
  forall mode c, In mode [0; 1; 19] -> is_space c = true ->
    ts_lex_case mode false c = (NO_TOKEN, SKIP mode).
Proof.
  intros mode c Hm Hc. apply is_space_cases in Hc.
  cbn [In] in Hm.
  destruct Hm as [<-|[<-|[<-|[]]]];
    destruct Hc as [->|[->|[->| ->]]]; reflexivity.
Qed.

(** Leading whitespace is skipped: lexing continues behind it with the
    token restarted there. *)
Lemma ts_lex_loop_skip_spaces :
  forall ws rest fuel offset mode,
    In mode [0; 1; 19] -> Forall (fun c => is_space c = true) ws ->
    ts_lex_loop (length ws + fuel) (lexer_start (ws ++ rest) offset) false mode
    = ts_lex_loop fuel (lexer_start rest (offset + length ws)) false mode.
Proof.
  unfold lexer_start.
  induction ws as [|c ws IH]; intros rest fuel offset mode Hm Hws.
  - cbn. rewrite Nat.add_0_r. reflexivity.
  - inversion Hws as [|? ? Hc Hws']; subst.
    cbn [app length Nat.add ts_lex_loop lexer_eof lexer_lookahead input_rest hd].
    rewrite (lex_case_space _ _ Hm Hc).
    cbn [lexer_advance input_rest current_position token_start_position
         token_end_position result_symbol].
    rewrite IH by assumption.
    replace (S offset + length ws) with (offset + S (length ws)) by lia.
    reflexivity.
Qed.

Lemma ts_lex_skip_spaces :
  forall ws rest offset mode,
    In mode [0; 1; 19] -> Forall (fun c => is_space c = true) ws ->
    ts_lex (lexer_start (ws ++ rest) offset) mode
    = ts_lex (lexer_start rest (offset + length ws)) mode.
Proof.
  intros ws rest offset mode Hm Hws. unfold ts_lex.
  cbn [lexer_start input_rest]. rewrite length_app.
  replace (2 + (length ws + length rest)) with (length ws + (2 + length rest)) by lia.
  apply ts_lex_loop_skip_spaces; assumption.
Qed.

Lemma skipn_app_length :
  forall (A : Type) (pre rest : list A), skipn (length pre) (pre ++ rest) = rest.
Proof.
  intros A pre rest. induction pre as [|a pre IH]; cbn; auto.
Qed.

Lemma next_token_skip_spaces :
  forall pre ws rest mode,
    In mode [0; 1; 19] -> Forall (fun c => is_space c = true) ws ->
    next_token (pre ++ ws ++ rest) (length pre) mode
    = next_token (pre ++ ws ++ rest) (length pre + length ws) mode.
Proof.
  intros pre ws rest mode Hm Hws. unfold next_token.
  rewrite skipn_app_length.
  rewrite ts_lex_skip_spaces by assumption.
  replace (pre ++ ws ++ rest) with ((pre ++ ws) ++ rest) by (rewrite app_assoc; reflexivity).
  rewrite <- (length_app pre ws). rewrite skipn_app_length. reflexivity.
Qed.

(** ** Number tokens *)

Lemma lex_case_40 :
  forall eof c,
    ts_lex_case 40 eof c
    = (ACCEPT_TOKEN sym_number,
       if (c =? chr ".")%Z then ADVANCE 18
       else if is_digit c then ADVANCE 40 else END_STATE).
Proof. reflexivity. Qed.

Lemma lex_case_41 :
  forall eof c,
    ts_lex_case 41 eof c
    = (ACCEPT_TOKEN sym_number, if is_digit c then ADVANCE 41 else END_STATE).
Proof. reflexivity. Qed.

Lemma lex_case_18 :
  forall eof c,
    ts_lex_case 18 eof c = (NO_TOKEN, if is_digit c then ADVANCE 41 else END_STATE).
Proof. reflexivity. Qed.

Lemma is_digit_not_dot : forall c, is_digit c = true -> (c =? chr ".")%Z = false.
Proof.
  intros c H. unfold is_digit in H. apply andb_true_iff in H as [H _].
  apply Z.leb_le in H. apply Z.eqb_neq. change (chr "0") with 48%Z in H.
  change (chr ".") with 46%Z. lia.
Qed.

Lemma lex_start_digit :
  forall mode c, In mode [0; 19] -> is_digit c = true ->
    ts_lex_case mode false c = (NO_TOKEN, ADVANCE 40).
Proof.
  intros mode c Hm Hc.
  assert (Hr : (48 <= c <= 57)%Z).
  { unfold is_digit in Hc. apply andb_true_iff in Hc as [H1 H2].
    apply Z.leb_le in H1, H2. change (chr "0") with 48%Z in H1.
    change (chr "9") with 57%Z in H2. lia. }
  assert (Hc' : (c = 48 \/ c = 49 \/ c = 50 \/ c = 51 \/ c = 52 \/ c = 53 \/
                 c = 54 \/ c = 55 \/ c = 56 \/ c = 57)%Z) by lia.
  cbn [In] in Hm. destruct Hm as [<-|[<-|[]]];
    repeat (destruct Hc' as [->|Hc']; [reflexivity|]); subst; reflexivity.
Qed.

(** Entering state 40 or 41 accepts at once, so what was recorded before is
    overwritten. *)
Lemma lex_enter_40 :
  forall fuel rest pos ts te sym result,
    ts_lex_loop fuel (mkLexer rest pos ts te sym) result 40
    = ts_lex_loop fuel (mkLexer rest pos ts None 0) false 40.
Proof.
  intros [|fuel] rest pos ts te sym result; [reflexivity|].
  cbn [ts_lex_loop]. rewrite !lex_case_40. reflexivity.
Qed.

Lemma lex_enter_41 :
  forall fuel rest pos ts te sym result,
    ts_lex_loop fuel (mkLexer rest pos ts te sym) result 41
    = ts_lex_loop fuel (mkLexer rest pos ts None 0) false 41.
Proof.
  intros [|fuel] rest pos ts te sym result; [reflexivity|].
  cbn [ts_lex_loop]. rewrite !lex_case_41. reflexivity.
Qed.

Lemma lex_run_40 :
  forall ds rest fuel pos ts,
    Forall (fun c => is_digit c = true) ds ->
    ts_lex_loop (length ds + fuel) (mkLexer (ds ++ rest) pos ts None 0) false 40
    = ts_lex_loop fuel (mkLexer rest (pos + length ds) ts None 0) false 40.
Proof.
  induction ds as [|d ds IH]; intros rest fuel pos ts Hds.
  - cbn. rewrite Nat.add_0_r. reflexivity.
  - inversion Hds as [|? ? Hd Hds']; subst.
    cbn [length Nat.add app ts_lex_loop lexer_eof lexer_lookahead input_rest hd].
    rewrite lex_case_40, (is_digit_not_dot _ Hd), Hd.
    cbn [lexer_accept lexer_advance input_rest current_position
         token_start_position token_end_position result_symbol].
    rewrite lex_enter_40, IH by assumption.
    replace (S pos + length ds) with (pos + S (length ds)) by lia. reflexivity.
Qed.

Lemma lex_run_41 :
  forall fs rest fuel pos ts,
    Forall (fun c => is_digit c = true) fs ->
    ts_lex_loop (length fs + fuel) (mkLexer (fs ++ rest) pos ts None 0) false 41
    = ts_lex_loop fuel (mkLexer rest (pos + length fs) ts None 0) false 41.
Proof.
  induction fs as [|d fs IH]; intros rest fuel pos ts Hfs.
  - cbn. rewrite Nat.add_0_r. reflexivity.
  - inversion Hfs as [|? ? Hd Hfs']; subst.
    cbn [length Nat.add app ts_lex_loop lexer_eof lexer_lookahead input_rest hd].
    rewrite lex_case_41, Hd.
    cbn [lexer_accept lexer_advance input_rest current_position
         token_start_position token_end_position result_symbol].
    rewrite lex_enter_41, IH by assumption.
    replace (S pos + length fs) with (pos + S (length fs)) by lia. reflexivity.
Qed.

Lemma ts_lex_loop_unfold :
  forall fuel lexer result state,
    ts_lex_loop (S fuel) lexer result state
    = let (accept, exit) :=
        ts_lex_case state (lexer_eof lexer) (lexer_lookahead lexer) in
      let result' :=
        match accept with ACCEPT_TOKEN _ => true | NO_TOKEN => result end in
      let lexer' :=
        match accept with
        | ACCEPT_TOKEN symbol_value => lexer_accept lexer symbol_value
        | NO_TOKEN => lexer
        end in
      match exit with
      | ADVANCE state_value =>
          ts_lex_loop fuel (lexer_advance lexer' false) result' state_value
      | SKIP state_value =>
          ts_lex_loop fuel (lexer_advance lexer' true) result' state_value
      | END_STATE => Some (result', lexer')
      | RETURN_FALSE => Some (false, lexer')
      end.
Proof. reflexivity. Qed.

(** [lex_open] exposes the next turn of the loop, [lex_close] takes the
    transition once the case of the automaton has been rewritten. *)
Ltac lex_close :=
  unfold lexer_accept;
  cbn [lexer_advance negb
       input_rest current_position token_start_position token_end_position
       result_symbol hd app length Nat.add].

Ltac lex_open :=
  cbn [length Nat.add app];
  rewrite ts_lex_loop_unfold; unfold lexer_eof, lexer_lookahead;
  cbn [input_rest hd].

Ltac lex_step := lex_close; lex_open.

Ltac lex_done :=
  unfold lexer_accept;
  cbn [input_rest current_position token_start_position
       token_end_position result_symbol];
  repeat (f_equal; try lia).

Lemma lex_number_integer :
  forall mode d ds rest offset,
    In mode [0; 19] ->
    Forall (fun c => is_digit c = true) (d :: ds) ->
    is_digit (next_char rest) = false ->
    next_char rest <> chr "." ->
    ts_lex (lexer_start (d :: ds ++ rest) offset) mode
    = Some (true, mkLexer rest (offset + S (length ds)) offset
                          (Some (offset + S (length ds))) sym_number).
Proof.
  intros mode d ds rest offset Hm Hds Hnd Hdot.
  inversion Hds as [|? ? Hd Hds']; subst.
  unfold next_char in *. apply Z.eqb_neq in Hdot.
  apply ts_lex_loop_more_fuel with (fuel := S (length ds + 1)).
  - unfold lexer_start. lex_open. rewrite (lex_start_digit _ _ Hm Hd). lex_close.
    rewrite lex_run_40 by assumption. lex_open.
    rewrite lex_case_40, Hdot, Hnd. lex_done.
  - cbn [lexer_start input_rest length]. rewrite length_app. lia.
Qed.

Lemma lex_number_bare_dot :
  forall mode d ds rest offset,
    In mode [0; 19] ->
    Forall (fun c => is_digit c = true) (d :: ds) ->
    is_digit (next_char rest) = false ->
    ts_lex (lexer_start (d :: ds ++ chr "." :: rest) offset) mode
    = Some (true, mkLexer rest (S (offset + S (length ds))) offset
                          (Some (offset + S (length ds))) sym_number).
Proof.
  intros mode d ds rest offset Hm Hds Hnd.
  inversion Hds as [|? ? Hd Hds']; subst.
  unfold next_char in *.
  apply ts_lex_loop_more_fuel with (fuel := S (length ds + 2)).
  - unfold lexer_start. lex_open. rewrite (lex_start_digit _ _ Hm Hd). lex_close.
    rewrite lex_run_40 by assumption. lex_open.
    rewrite lex_case_40. rewrite Z.eqb_refl. lex_step.
    rewrite lex_case_18, Hnd. lex_done.
  - cbn [lexer_start input_rest length]. rewrite length_app. cbn [length]. lia.
Qed.

Lemma lex_number_fraction :
  forall mode d ds f fs rest offset,
    In mode [0; 19] ->
    Forall (fun c => is_digit c = true) (d :: ds) ->
    Forall (fun c => is_digit c = true) (f :: fs) ->
    is_digit (next_char rest) = false ->
    ts_lex (lexer_start (d :: ds ++ chr "." :: f :: fs ++ rest) offset) mode
    = Some (true,
            mkLexer rest (offset + S (length ds) + 1 + S (length fs)) offset
                    (Some (offset + S (length ds) + 1 + S (length fs)))
                    sym_number).
Proof.
  intros mode d ds f fs rest offset Hm Hds Hfs Hnd.
  inversion Hds as [|? ? Hd Hds']; subst.
  inversion Hfs as [|? ? Hf Hfs']; subst.
  unfold next_char in *.
  apply ts_lex_loop_more_fuel with (fuel := S (length ds + S (S (length fs + 1)))).
  - unfold lexer_start. lex_open. rewrite (lex_start_digit _ _ Hm Hd). lex_close.
    rewrite lex_run_40 by assumption. lex_open.
    rewrite lex_case_40. rewrite Z.eqb_refl. lex_step.
    rewrite lex_case_18, Hf. lex_close.
    rewrite lex_enter_41, lex_run_41 by assumption. lex_open.
    rewrite lex_case_41, Hnd. lex_done.
  - cbn [lexer_start input_rest length]. rewrite length_app. cbn [length].
    rewrite length_app. lia.
Qed.

(** C7.  A number token is the maximal run of digits, with one ['.'] and
    the digits behind it when at least one digit follows the ['.']; a ['.']
    that no digit follows ends the token and stays outside it.  [ds] is the
    digit run, [rest] starts with no digit. *)
Theorem number_token_extent :
  forall mode pre ds rest,
    In mode [0; 19] ->
    ds <> [] ->
    Forall (fun c => is_digit c = true) ds ->
    is_digit (next_char rest) = false ->
    (next_char rest <> chr "." ->
     next_token (pre ++ ds ++ rest) (length pre) mode
     = Some (Matched (mkToken sym_number (length pre) (length pre + length ds))))
    /\
    next_token (pre ++ ds ++ chr "." :: rest) (length pre) mode
    = Some (Matched (mkToken sym_number (length pre) (length pre + length ds)))
    /\
    (forall fs,
        fs <> [] ->
        Forall (fun c => is_digit c = true) fs ->
        next_token (pre ++ ds ++ chr "." :: fs ++ rest) (length pre) mode
        = Some (Matched (mkToken sym_number (length pre)
                                 (length pre + length ds + 1 + length fs)))).
Proof.
  intros mode pre ds rest Hm Hne Hds Hnd.
  destruct ds as [|d ds]; [contradiction|].
  repeat split.
  - intros Hdot. unfold next_token. rewrite skipn_app_length.
    cbn [app]. rewrite lex_number_integer by assumption. reflexivity.
  - unfold next_token. rewrite skipn_app_length.
    cbn [app]. rewrite lex_number_bare_dot by assumption. reflexivity.
  - intros fs Hfne Hfs. destruct fs as [|f fs]; [contradiction|].
    unfold next_token. rewrite skipn_app_length.
    cbn [app]. rewrite lex_number_fraction by assumption. reflexivity.
Qed.

Lemma number_token_extent_witness :
  next_token (codes "print 12;") 6 19 = Some (Matched (mkToken sym_number 6 8))
  /\ next_token (codes "print 12.;") 6 19 = Some (Matched (mkToken sym_number 6 8))
  /\ next_token (codes "print 12.50;") 6 19 = Some (Matched (mkToken sym_number 6 11)).
Proof.
  destruct (number_token_extent 19 (codes "print ") (codes "12") (codes ";"))
    as [Hint [Hdot Hfrac]].
  - cbn; auto.
  - discriminate.
  - repeat constructor.
  - reflexivity.
  - split; [|split].
    + apply Hint. discriminate.
    + exact Hdot.
    + apply (Hfrac (codes "50")); [discriminate | repeat constructor].
Defined.

(** ** String tokens *)

Lemma lex_case_2 :
  forall eof c,
    ts_lex_case 2 eof c
    = (NO_TOKEN,
       if (c =? DQUOTE)%Z then ADVANCE 42
       else if negb (c =? 0)%Z then ADVANCE 2 else END_STATE).
Proof. reflexivity. Qed.

Lemma lex_case_42 :
  forall eof c, ts_lex_case 42 eof c = (ACCEPT_TOKEN sym_string, END_STATE).
Proof. reflexivity. Qed.

Lemma lex_start_dquote :
  forall mode, In mode [0; 19] ->
    ts_lex_case mode false DQUOTE = (NO_TOKEN, ADVANCE 2).
Proof.
  intros mode Hm. cbn [In] in Hm. destruct Hm as [<-|[<-|[]]]; reflexivity.
Qed.

(** Inside a string every character that is neither the quote nor 0 is
    consumed and the automaton stays in state 2. *)
Lemma lex_run_2 :
  forall s rest fuel pos ts te sym result,
    Forall (fun c => c <> DQUOTE /\ c <> 0%Z) s ->
    ts_lex_loop (length s + fuel) (mkLexer (s ++ rest) pos ts te sym) result 2
    = ts_lex_loop fuel (mkLexer rest (pos + length s) ts te sym) result 2.
Proof.
  induction s as [|c s IH]; intros rest fuel pos ts te sym result Hs.
  - cbn. rewrite Nat.add_0_r. reflexivity.
  - inversion Hs as [|? ? [Hq Hz] Hs']; subst.
    apply Z.eqb_neq in Hq, Hz.
    lex_open. rewrite lex_case_2, Hq, Hz. lex_close.
    rewrite IH by assumption.
    replace (S pos + length s) with (pos + S (length s)) by lia. reflexivity.
Qed.

(** Without a closing quote the scan ends at a 0 character or at the end of
    the input, and nothing was accepted. *)
Lemma lex_string_open :
  forall s fuel pos ts te sym,
    Forall (fun c => c <> DQUOTE) s ->
    length s < fuel ->
    exists lexer,
      ts_lex_loop fuel (mkLexer s pos ts te sym) false 2 = Some (false, lexer)
      /\ token_start_position lexer = ts.
Proof.
  induction s as [|c s IH]; intros fuel pos ts te sym Hs Hfuel;
    (destruct fuel as [|fuel]; [cbn in Hfuel; lia|]).
  - lex_open. rewrite lex_case_2. cbn. eauto.
  - inversion Hs as [|? ? Hq Hs']; subst. apply Z.eqb_neq in Hq.
    lex_open. rewrite lex_case_2, Hq.
    destruct (c =? 0)%Z; cbn [negb].
    + eauto.
    + lex_close. apply IH; [assumption | cbn in Hfuel; lia].
Qed.

(** A 0 character inside the quotes stops the scan as well, whatever
    follows it. *)
Lemma lex_string_nul :
  forall s tail fuel pos ts te sym,
    Forall (fun c => c <> DQUOTE) s ->
    In 0%Z s ->
    length s < fuel ->
    exists lexer,
      ts_lex_loop fuel (mkLexer (s ++ tail) pos ts te sym) false 2
      = Some (false, lexer)
      /\ token_start_position lexer = ts.
Proof.
  induction s as [|c s IH]; intros tail fuel pos ts te sym Hs Hin Hfuel;
    [destruct Hin|].
  destruct fuel as [|fuel]; [cbn in Hfuel; lia|].
  inversion Hs as [|? ? Hq Hs']; subst. apply Z.eqb_neq in Hq.
  lex_open. rewrite lex_case_2, Hq.
  destruct (Z.eqb_spec c 0) as [->|Hc]; cbn [negb].
  - eauto.
  - lex_close. apply IH; [assumption | | cbn in Hfuel; lia].
    destruct Hin as [Hin|Hin]; [congruence | assumption].
Qed.

Lemma lex_string_closed :
  forall mode s rest offset,
    In mode [0; 19] ->
    Forall (fun c => c <> DQUOTE /\ c <> 0%Z) s ->
    ts_lex (lexer_start (DQUOTE :: s ++ DQUOTE :: rest) offset) mode
    = Some (true, mkLexer rest (offset + length s + 2) offset
                          (Some (offset + length s + 2)) sym_string).
Proof.
  intros mode s rest offset Hm Hs.
  apply ts_lex_loop_more_fuel with (fuel := S (length s + 2)).
  - unfold lexer_start. lex_open. rewrite (lex_start_dquote _ Hm). lex_close.
    rewrite lex_run_2 by assumption. lex_open.
    rewrite lex_case_2, Z.eqb_refl. lex_step. rewrite lex_case_42.
    lex_done.
  - cbn [lexer_start input_rest length]. rewrite length_app. cbn [length]. lia.
Qed.

(** C9, as the code has it.  After the opening quote every character other
    than the quote and other than 0 is consumed as it is (no escapes) and
    the closing quote completes the token.  Without a closing quote before
    the end of the input there is no token and the opening quote is a lex
    error; a 0 character inside the quotes has the same effect. *)
Theorem string_token_extent :
  forall mode pre s rest,
    In mode [0; 19] ->
    Forall (fun c => c <> DQUOTE) s ->
    (Forall (fun c => c <> 0%Z) s ->
     next_token (pre ++ DQUOTE :: s ++ DQUOTE :: rest) (length pre) mode
     = Some (Matched (mkToken sym_string (length pre) (length pre + length s + 2))))
    /\ next_token (pre ++ DQUOTE :: s) (length pre) mode
       = Some (NoMatch (length pre))
    /\ (In 0%Z s ->
        next_token (pre ++ DQUOTE :: s ++ DQUOTE :: rest) (length pre) mode
        = Some (NoMatch (length pre))).
Proof.
  intros mode pre s rest Hm Hq. split; [|split].
  - intros Hz. unfold next_token. rewrite skipn_app_length.
    assert (Hs : Forall (fun c => c <> DQUOTE /\ c <> 0%Z) s).
    { rewrite Forall_forall in *. auto. }
    rewrite lex_string_closed by assumption. reflexivity.
  - unfold next_token. rewrite skipn_app_length.
    unfold ts_lex, lexer_start. cbn [input_rest length Nat.add].
    lex_open. rewrite (lex_start_dquote _ Hm). lex_close.
    destruct (lex_string_open s (S (S (length s))) (S (length pre)) (length pre)
                None 0 Hq) as [lexer [-> <-]]; [lia|].
    reflexivity.
  - intros Hnul. unfold next_token. rewrite skipn_app_length.
    unfold ts_lex, lexer_start. cbn [input_rest length Nat.add].
    lex_open. rewrite (lex_start_dquote _ Hm). lex_close.
    destruct (lex_string_nul s (DQUOTE :: rest)
                (S (S (length (s ++ DQUOTE :: rest)))) (S (length pre)) (length pre)
                None 0 Hq Hnul) as [lexer [-> <-]].
    + rewrite length_app. lia.
    + reflexivity.
Qed.

Lemma string_token_extent_witness :
  next_token (codes "print " ++ DQUOTE :: [chr "a"; chr "\"; LF; chr "b"]
                ++ DQUOTE :: codes ";") 6 19
  = Some (Matched (mkToken sym_string 6 12))
  /\ next_token (codes "print " ++ DQUOTE :: [chr "a"; chr "\"; LF; chr "b"]) 6 19
     = Some (NoMatch 6).
Proof.
  destruct (string_token_extent 19 (codes "print ")
              [chr "a"; chr "\"; LF; chr "b"] (codes ";")) as [Hclosed [Hopen _]].
  - cbn; auto.
  - repeat constructor; discriminate.
  - split.
    + apply Hclosed. repeat constructor; discriminate.
    + exact Hopen.
Defined.

(** The claim read for every character other than the quote fails at the
    character 0: the quoted text is not lexed as a string. *)
Lemma string_nul_counterexample :
  Forall (fun c => c <> DQUOTE) [0%Z]
  /\ next_token (DQUOTE :: [0%Z] ++ DQUOTE :: codes ";") 0 19
     = Some (NoMatch 0).
Proof.
  split; [repeat constructor; discriminate | reflexivity].
Qed.


(** ** What lex state 19 can return *)

Lemma mem_In : forall x l, mem x l = true <-> In x l.
Proof.
  intros x l. unfold mem. rewrite existsb_exists. split.
  - intros [y [Hy Heq]]. apply Nat.eqb_eq in Heq. subst. assumption.
  - intros H. exists x. split; [assumption | apply Nat.eqb_refl].
Qed.

Ltac split_ifs :=
  repeat lazymatch goal with
         | |- context [if ?b then _ else _] => destruct b
         end.

Lemma mode19_closed :
  forall s eof c,
    In s mode19_states ->
    (match fst (ts_lex_case s eof c) with
     | ACCEPT_TOKEN symbol => mem symbol mode19_symbols
     | NO_TOKEN => true
     end
     && match snd (ts_lex_case s eof c) with
        | ADVANCE s' | SKIP s' => mem s' mode19_states
        | END_STATE | RETURN_FALSE => true
        end) = true.
Proof.
  intros s eof c Hs. unfold mode19_states in Hs. cbn [In] in Hs.
  repeat (destruct Hs as [<-|Hs];
          [unfold ts_lex_case; split_ifs; reflexivity|]).
  destruct Hs.
Qed.

Lemma mode19_loop :
  forall fuel lexer result s r,
    In s mode19_states ->
    (result = true -> In (result_symbol lexer) mode19_symbols) ->
    ts_lex_loop fuel lexer result s = Some (true, r) ->
    In (result_symbol r) mode19_symbols.
Proof.
  induction fuel as [|fuel IH]; intros lexer result s r Hs Hres Hrun;
    [discriminate|].
  rewrite ts_lex_loop_unfold in Hrun.
  pose proof (mode19_closed s (lexer_eof lexer) (lexer_lookahead lexer) Hs) as Hc.
  destruct (ts_lex_case s (lexer_eof lexer) (lexer_lookahead lexer)) as [acc ex].
  cbn [fst snd] in Hc. apply andb_true_iff in Hc as [Hacc Hex].
  assert (Hres' :
            match acc with ACCEPT_TOKEN _ => true | NO_TOKEN => result end = true ->
            In (result_symbol
                  match acc with
                  | ACCEPT_TOKEN symbol_value => lexer_accept lexer symbol_value
                  | NO_TOKEN => lexer
                  end) mode19_symbols).
  { destruct acc as [|symbol]; [assumption|].
    intros _. unfold lexer_accept. cbn [result_symbol]. apply mem_In. exact Hacc. }
  assert (Hadv : forall l skip, result_symbol (lexer_advance l skip) = result_symbol l).
  { intros l skip. unfold lexer_advance. destruct (input_rest l); reflexivity. }
  destruct ex as [s'|s'| |]; cbn zeta in Hrun.
  - apply (IH _ _ _ _ (proj1 (mem_In _ _) Hex)) in Hrun; [assumption|].
    rewrite Hadv. assumption.
  - apply (IH _ _ _ _ (proj1 (mem_In _ _) Hex)) in Hrun; [assumption|].
    rewrite Hadv. assumption.
  - injection Hrun as Hr <-. apply Hres'. assumption.
  - discriminate.
Qed.

Lemma mode19_recognizes :
  forall symbol, recognizes 19 symbol -> In symbol mode19_symbols.
Proof.
  intros symbol [buffer [t [Hlex <-]]]. unfold next_token, ts_lex in Hlex.
  destruct (ts_lex_loop (2 + length (input_rest (lexer_start (skipn 0 buffer) 0)))
                        (lexer_start (skipn 0 buffer) 0) false 19)
    as [[[|] lexer]|] eqn:Hrun; try discriminate.
  injection Hlex as <-. cbn [kind].
  eapply mode19_loop; [| |exact Hrun].
  - cbn; auto.
  - discriminate.
Qed.

(** ** Two-character operators *)

(** C8.  Where a two-character operator stands in the input and the
    current lexical mode recognises it, the token returned is the operator in
    full, both characters long, never its one-character prefix. *)
Theorem two_char_operator_longest_match :
  forall mode op symbol pre rest,
    In mode [0; 1; 19] ->
    In (op, symbol) two_char_operators ->
    recognizes mode symbol ->
    next_token (pre ++ op ++ rest) (length pre) mode
    = Some (Matched (mkToken symbol (length pre) (2 + length pre))).
Proof.
  intros mode op symbol pre rest Hm Hop Hrec.
  unfold next_token. rewrite skipn_app_length.
  cbn [In two_char_operators] in Hop.
  cbn [In] in Hm. destruct Hm as [<-|[<-|[<-|[]]]].
  - destruct Hop as [Hop|[Hop|[Hop|[Hop|[]]]]];
      injection Hop as <- <-; reflexivity.
  - destruct Hop as [Hop|[Hop|[Hop|[Hop|[]]]]];
      injection Hop as <- <-; reflexivity.
  - apply mode19_recognizes in Hrec. exfalso.
    destruct Hop as [Hop|[Hop|[Hop|[Hop|[]]]]];
      injection Hop as <- <-; cbn in Hrec;
      repeat (destruct Hrec as [Hrec|Hrec]; [discriminate|]); assumption.
Qed.

Lemma two_char_operator_longest_match_witness :
  next_token (codes "1 <= 2;") 2 1
  = Some (Matched (mkToken anon_sym_LT_EQ 2 4)).
Proof.
  apply (two_char_operator_longest_match 1 (codes "<=") anon_sym_LT_EQ
           (codes "1 ") (codes " 2;")).
  - cbn; auto.
  - cbn; auto.
  - exists (codes "<="), (mkToken anon_sym_LT_EQ 0 2). split; reflexivity.
Defined.

(** ** The parse table: lexical modes of operand states *)

Lemma next_token_all_space :
  forall ws mode,
    In mode [0; 19] -> Forall (fun c => is_space c = true) ws ->
    next_token ws 0 mode
    = Some (Matched (mkToken ts_builtin_sym_end (length ws) (length ws))).
Proof.
  intros ws mode Hm Hws. unfold next_token. cbn [skipn].
  replace ws with (ws ++ []) at 1 by apply app_nil_r.
  rewrite ts_lex_skip_spaces; [|cbn in *; tauto|assumption].
  cbn [In] in Hm. destruct Hm as [<-|[<-|[]]]; reflexivity.
Qed.

Lemma mode19_recognizes_iff :
  forall symbol, recognizes 19 symbol <-> In symbol mode19_symbols.
Proof.
  intros symbol. split; [apply mode19_recognizes|].
  intros H. cbn [In mode19_symbols] in H.
  repeat destruct H as [<-|H]; [..|destruct H].
  - exists [], (mkToken ts_builtin_sym_end 0 0). split; reflexivity.
  - exists (codes "print"), (mkToken anon_sym_print 0 5). split; reflexivity.
  - exists (codes "-"), (mkToken anon_sym_DASH 0 1). split; reflexivity.
  - exists (codes "!"), (mkToken anon_sym_BANG 0 1). split; reflexivity.
  - exists (codes "("), (mkToken anon_sym_LPAREN 0 1). split; reflexivity.
  - exists (codes "1"), (mkToken sym_number 0 1). split; reflexivity.
  - exists [DQUOTE; DQUOTE], (mkToken sym_string 0 2). split; reflexivity.
  - exists (codes "true"), (mkToken anon_sym_true 0 4). split; reflexivity.
  - exists (codes "false"), (mkToken anon_sym_false 0 5). split; reflexivity.
  - exists (codes "nil"), (mkToken sym_nil 0 3). split; reflexivity.
Qed.

Lemma operand_states_eq : operand_states = [21; 20; 8; 13; 14; 15; 16; 17; 18].
Proof. vm_compute. reflexivity. Qed.

Lemma statement_start_states_eq : statement_start_states = [1; 2; 3].
Proof. vm_compute. reflexivity. Qed.

(** C2, as the code has it.  The states in which an operand is expected
    behind an operator or an opening delimiter select lex state 19, the very
    entry point of the statement-start states; it recognises the
    statement-start tokens, [print] included.  A [print] in such a state is
    turned away by the parse table, which has no action for it. *)
Theorem operand_states_share_statement_mode :
  forall state,
    In state operand_states ->
    lex_mode state = 19
    /\ Forall (fun start => lex_mode start = lex_mode state) statement_start_states
    /\ (forall symbol,
           recognizes (lex_mode state) symbol <-> In symbol mode19_symbols)
    /\ recognizes (lex_mode state) anon_sym_print
    /\ parse_action state anon_sym_print = None.
Proof.
  intros state Hs.
  assert (Hmode : lex_mode state = 19 /\ parse_action state anon_sym_print = None).
  { rewrite operand_states_eq in Hs.
    cbn [In] in Hs. repeat destruct Hs as [<-|Hs]; [..|destruct Hs];
      split; vm_compute; reflexivity. }
  destruct Hmode as [Hmode Hnone]. rewrite Hmode.
  split; [reflexivity|].
  split; [rewrite statement_start_states_eq; repeat constructor|].
  split; [apply mode19_recognizes_iff|].
  split; [|assumption].
  apply mode19_recognizes_iff. apply mem_In. reflexivity.
Qed.

Lemma operand_states_share_statement_mode_witness :
  lex_mode 16 = 19
  /\ Forall (fun start => lex_mode start = lex_mode 16) statement_start_states
  /\ (forall symbol, recognizes (lex_mode 16) symbol <-> In symbol mode19_symbols)
  /\ recognizes (lex_mode 16) anon_sym_print
  /\ parse_action 16 anon_sym_print = None.
Proof.
  apply (operand_states_share_statement_mode 16).
  rewrite operand_states_eq. cbn [In]. tauto.
Defined.

(** State 16 is entered by shifting [+]; its lexical mode is that of the
    start state and returns [print]. *)
Lemma operand_mode_counterexample :
  parse_action (goto start_state sym__expression) anon_sym_PLUS
  = Some (Shift 16 false)
  /\ In 16 operand_states
  /\ lex_mode 16 = lex_mode start_state
  /\ next_token (codes "1 + print") 4 (lex_mode 16)
     = Some (Matched (mkToken anon_sym_print 4 9)).
Proof.
  split; [vm_compute; reflexivity|].
  split; [rewrite operand_states_eq; cbn [In]; tauto|].
  split; vm_compute; reflexivity.
Qed.

(** ** Field maps *)

(** The claim's reading fails on ["print 1;"]: the statement node is built
    with production id 0 and the lookup of [expression] finds nothing. *)
Lemma print_field_counterexample :
  parse (codes "print 1;")
  = Some (Tree sym_program 0
            [Tree sym_print_statement 0
               [Leaf anon_sym_print 0 5; Leaf sym_number 6 7; Leaf anon_sym_SEMI 7 8]
               0 8]
            0 8)
  /\ child_by_field_id
       (Tree sym_print_statement 0
          [Leaf anon_sym_print 0 5; Leaf sym_number 6 7; Leaf anon_sym_SEMI 7 8]
          0 8)
       field_expression
     = None.
Proof. split; vm_compute; reflexivity. Qed.

(** C1, as the code has it.  ["print 1;"] yields a [print_statement] whose
    child at position 1 is the number.  The table reduces statements with
    production id 0, whose field map is empty: no field of a statement node
    resolves to a child.  The entry [expression -> child 1] belongs to
    production 2, the [group_expression]. *)
Theorem print_statement_children :
  parse (codes "print 1;")
  = Some (Tree sym_program 0
            [Tree sym_print_statement 0
               [Leaf anon_sym_print 0 5; Leaf sym_number 6 7; Leaf anon_sym_SEMI 7 8]
               0 8]
            0 8)
  /\ nth_error
       (node_children
          (Tree sym_print_statement 0
             [Leaf anon_sym_print 0 5; Leaf sym_number 6 7; Leaf anon_sym_SEMI 7 8]
             0 8)) 1
     = Some (Leaf sym_number 6 7)
  /\ (forall field children start_byte end_byte,
         child_by_field_id
           (Tree sym_print_statement 0 children start_byte end_byte) field
         = None)
  /\ forallb (fun cell =>
                match cell with
                | action (Reduce symbol child_count production_id) =>
                    if (symbol =? sym_print_statement)
                       || (symbol =? sym_expression_statement)
                    then production_id =? 0
                    else if production_id =? 2
                         then symbol =? sym_group_expression
                         else true
                | _ => true
                end) ts_parse_actions = true
  /\ field_map 0 = []
  /\ field_map 2 = [field_entry field_expression 1].
Proof.
  split; [vm_compute; reflexivity|]. split; [reflexivity|].
  split; [intros; reflexivity|].
  repeat split; vm_compute; reflexivity.
Qed.

(** ** The precedence ladder in the action table *)

Lemma live_operand_states_eq :
  live_operand_states = [1; 2; 8; 13; 14; 15; 16; 17; 18; 19; 20; 21].
Proof. vm_compute. reflexivity. Qed.

Lemma operand_exits_checked : Forall operand_exits_agree live_operand_states.
Proof.
  rewrite live_operand_states_eq.
  repeat (apply Forall_cons;
          [unfold operand_exits_agree;
           split; [vm_compute; discriminate|];
           split; [repeat constructor; vm_compute; reflexivity|];
           split; [repeat constructor; vm_compute; reflexivity|];
           split; [repeat constructor; vm_compute; reflexivity|];
           vm_compute; reflexivity|]).
  apply Forall_nil.
Qed.

Lemma reduced_symbols_checked :
  Forall (fun symbol =>
            In symbol operand_symbols
            \/ In symbol [sym_program; aux_sym_program_repeat1;
                          sym_expression_statement; sym_print_statement])
         reduced_symbols.
Proof.
  apply Forall_forall. intros symbol Hin.
  assert (E : reduced_symbols = [24; 35; 32; 34; 30; 29; 31; 27; 26])
    by (vm_compute; reflexivity).
  rewrite E in Hin. cbn [In] in Hin.
  repeat (destruct Hin as [<-|Hin]; [vm_compute; tauto|]). destruct Hin.
Qed.

Lemma boolean_state_reduces :
  Forall (fun symbol =>
            parse_action boolean_state symbol = Some (Reduce sym_boolean 1 0))
         continuation_tokens.
Proof. repeat constructor; vm_compute; reflexivity. Qed.

Lemma live_operand_states_split :
  Forall (fun state =>
            In state pending_operand_states
            \/ state = operand_state anon_sym_COMMA
            \/ In state fresh_operand_states)
         live_operand_states.
Proof.
  rewrite live_operand_states_eq.
  repeat (apply Forall_cons; [vm_compute; tauto|]). apply Forall_nil.
Qed.

Lemma ladder_decisions :
  forall c op,
    parse_action (completed_state c) (operator_token op) = Some (ladder_action c op).
Proof. intros [] []; vm_compute; reflexivity. Qed.

Lemma completed_state_reduces_on_closers :
  forall c,
    Forall (fun symbol =>
              parse_action (completed_state c) symbol = Some (class_reduction c))
           closing_tokens.
Proof. intros []; repeat constructor; vm_compute; reflexivity. Qed.

Lemma fresh_states_eq : fresh_states = [26; 24; 23; 25].
Proof. vm_compute. reflexivity. Qed.

Lemma operand_complete_states_eq :
  operand_complete_states = [4; 5; 6; 7; 9; 10; 11; 12; 22; 23; 24; 25; 26].
Proof. vm_compute. reflexivity. Qed.

Lemma fresh_states_shift_operators :
  forall op,
    Forall (fun state =>
              parse_action state (operator_token op)
              = Some (Shift (infix_operand_state op) false))
           fresh_states.
Proof.
  intros op. rewrite fresh_states_eq.
  destruct op; repeat constructor; vm_compute; reflexivity.
Qed.

Lemma operators_lead_to_their_class :
  forall op,
    In (last_operand_state op) live_operand_states
    /\ behind_operand (last_operand_state op)
       = completed_state (operator_class op)
    /\ Forall (fun state =>
                 match parse_action state (operator_token op) with
                 | Some (Shift next_state _) =>
                     next_state = infix_operand_state op
                 | _ => True
                 end)
              operand_complete_states.
Proof.
  intros op. rewrite live_operand_states_eq, operand_complete_states_eq.
  destruct op;
    (split; [vm_compute; tauto|]);
    (split; [vm_compute; reflexivity|]);
    repeat (apply Forall_cons; [vm_compute; first [reflexivity | exact I]|]);
    apply Forall_nil.
Qed.

(** In every configuration in which the last operand of an expression of
    class [c] is on top of the stack and an infix operator is the lookahead,
    the engine does what the ladder demands. *)
Lemma ladder_step :
  forall input p t c op,
    lookahead p = Some t ->
    kind t = operator_token op ->
    top_state (stack p) = completed_state c ->
    parser_step input p
    = match ladder_action c op with
      | Shift next_state _ =>
          Continue (mkParser ((next_state, leaf_of t) :: stack p)
                             (token_end t) None
                             (history p ++ [Shift next_state false]))
      | Reduce symbol child_count production_id =>
          reduce p symbol child_count production_id
      | Recover | Accept => Failed
      end.
Proof.
  intros input p t c op Hlook Hkind Htop.
  unfold parser_step. rewrite Hlook, Htop, Hkind, ladder_decisions.
  unfold ladder_action.
  destruct ((precedence c <? precedence (operator_class op))
            || (precedence c =? precedence (operator_class op))
               && right_associative c);
    [reflexivity | destruct c; reflexivity].
Qed.

(** C3.  The shift/reduce choices of the table are those of the ladder
    ternary < equality < comparison < additive < multiplicative < unary
    prefix < grouping and literals, in the cells the engine reads.  From
    every state in which an operand starts, whatever completes the operand
    (a shifted literal, or a reduced [boolean], binary, ternary, unary or
    group expression, and no other symbol is ever reduced) leads to one and
    the same state; prefix operators and [(] are shifted there to the states
    of their own operands, so they nest to the right.  Every operand state
    is the one of an operator of the ladder, the one of [,], or one in which
    no operator is pending.  Behind the last operand of an expression of
    class [c] the table shifts an infix operator exactly when it binds
    tighter than [c], or as tight with [c] right-associative (only the
    ternary), and reduces the expression of class [c] otherwise; a closing
    token reduces it; the engine does so in every configuration of every
    parse.  Where no operator is pending every operator is
    shifted, each to the operand state of its class.  A [boolean] and a
    parenthesised group are reduced before any token that can follow them.
    The examples of the specification parse as stated. *)
Theorem precedence_ladder_in_table :
  Forall operand_exits_agree live_operand_states
  /\ Forall (fun symbol =>
               In symbol operand_symbols
               \/ In symbol [sym_program; aux_sym_program_repeat1;
                             sym_expression_statement; sym_print_statement])
            reduced_symbols
  /\ Forall (fun symbol =>
               parse_action boolean_state symbol
               = Some (Reduce sym_boolean 1 0))
            continuation_tokens
  /\ Forall (fun state =>
               In state pending_operand_states
               \/ state = operand_state anon_sym_COMMA
               \/ In state fresh_operand_states)
            live_operand_states
  /\ (forall op,
         In (last_operand_state op) live_operand_states
         /\ behind_operand (last_operand_state op)
            = completed_state (operator_class op)
         /\ Forall (fun state =>
                      match parse_action state (operator_token op) with
                      | Some (Shift next_state _) =>
                          next_state = infix_operand_state op
                      | _ => True
                      end)
                   operand_complete_states)
  /\ In (operand_state anon_sym_BANG) live_operand_states
  /\ behind_operand (operand_state anon_sym_BANG) = completed_state UnaryPrefix
  /\ (forall c op,
         parse_action (completed_state c) (operator_token op)
         = Some (ladder_action c op))
  /\ (forall c,
         Forall (fun symbol =>
                   parse_action (completed_state c) symbol
                   = Some (class_reduction c))
                closing_tokens)
  /\ (forall op,
         Forall (fun state =>
                   parse_action state (operator_token op)
                   = Some (Shift (infix_operand_state op) false))
                fresh_states)
  /\ (forall input p t c op,
         lookahead p = Some t ->
         kind t = operator_token op ->
         top_state (stack p) = completed_state c ->
         parser_step input p
         = match ladder_action c op with
           | Shift next_state _ =>
               Continue (mkParser ((next_state, leaf_of t) :: stack p)
                                  (token_end t) None
                                  (history p ++ [Shift next_state false]))
           | Reduce symbol child_count production_id =>
               reduce p symbol child_count production_id
           | Recover | Accept => Failed
           end)
  /\ parse_action (behind_operand (infix_operand_state OpQuestion))
                  anon_sym_COLON
     = Some (Shift (operand_state anon_sym_COLON) false)
  /\ parse_action (behind_operand (operand_state anon_sym_LPAREN))
                  anon_sym_RPAREN
     = Some (Shift (operand_state anon_sym_RPAREN) false)
  /\ Forall (fun symbol =>
               parse_action (operand_state anon_sym_RPAREN) symbol
               = Some (Reduce sym_group_expression 3 2))
            continuation_tokens
  /\ parse (codes "1 + 2 * 3;")
     = Some (Tree sym_program 0
               [Tree sym_expression_statement 0
                  [Tree sym_binary_expression 3
                     [Leaf sym_number 0 1;
                      Leaf anon_sym_PLUS 2 3;
                      Tree sym_binary_expression 3
                        [Leaf sym_number 4 5; Leaf anon_sym_STAR 6 7;
                         Leaf sym_number 8 9] 4 9] 0 9;
                   Leaf anon_sym_SEMI 9 10] 0 10] 0 10)
  /\ parse (codes "1 - 2 - 3;")
     = Some (Tree sym_program 0
               [Tree sym_expression_statement 0
                  [Tree sym_binary_expression 3
                     [Tree sym_binary_expression 3
                        [Leaf sym_number 0 1; Leaf anon_sym_DASH 2 3;
                         Leaf sym_number 4 5] 0 5;
                      Leaf anon_sym_DASH 6 7;
                      Leaf sym_number 8 9] 0 9;
                   Leaf anon_sym_SEMI 9 10] 0 10] 0 10)
  /\ parse (codes "true ? 1 : false ? 2 : 3;")
     = Some (Tree sym_program 0
               [Tree sym_expression_statement 0
                  [Tree sym_ternary_expression 4
                     [Tree sym_boolean 0 [Leaf anon_sym_true 0 4] 0 4;
                      Leaf anon_sym_QMARK 5 6;
                      Leaf sym_number 7 8;
                      Leaf anon_sym_COLON 9 10;
                      Tree sym_ternary_expression 4
                        [Tree sym_boolean 0 [Leaf anon_sym_false 11 16] 11 16;
                         Leaf anon_sym_QMARK 17 18;
                         Leaf sym_number 19 20;
                         Leaf anon_sym_COLON 21 22;
                         Leaf sym_number 23 24] 11 24] 0 24;
                   Leaf anon_sym_SEMI 24 25] 0 25] 0 25)
  /\ parse (codes "-1 + 2;")
     = Some (Tree sym_program 0
               [Tree sym_expression_statement 0
                  [Tree sym_binary_expression 3
                     [Tree sym_unary_expression 1
                        [Leaf anon_sym_DASH 0 1; Leaf sym_number 1 2] 0 2;
                      Leaf anon_sym_PLUS 3 4;
                      Leaf sym_number 5 6] 0 6;
                   Leaf anon_sym_SEMI 6 7] 0 7] 0 7)
  /\ parse (codes "(1 + 2) * 3;")
     = Some (Tree sym_program 0
               [Tree sym_expression_statement 0
                  [Tree sym_binary_expression 3
                     [Tree sym_group_expression 2
                        [Leaf anon_sym_LPAREN 0 1;
                         Tree sym_binary_expression 3
                           [Leaf sym_number 1 2; Leaf anon_sym_PLUS 3 4;
                            Leaf sym_number 5 6] 1 6;
                         Leaf anon_sym_RPAREN 6 7] 0 7;
                      Leaf anon_sym_STAR 8 9;
                      Leaf sym_number 10 11] 0 11;
                   Leaf anon_sym_SEMI 11 12] 0 12] 0 12)
  /\ parse (codes "1 * 2 * 3;")
     = Some (Tree sym_program 0
               [Tree sym_expression_statement 0
                  [Tree sym_binary_expression 3
                     [Tree sym_binary_expression 3
                        [Leaf sym_number 0 1; Leaf anon_sym_STAR 2 3;
                         Leaf sym_number 4 5] 0 5;
                      Leaf anon_sym_STAR 6 7;
                      Leaf sym_number 8 9] 0 9;
                   Leaf anon_sym_SEMI 9 10] 0 10] 0 10)
  /\ parse (codes "1 == 2 < 3 + 4 * -5;")
     = Some (Tree sym_program 0
               [Tree sym_expression_statement 0
                  [Tree sym_binary_expression 3
                     [Leaf sym_number 0 1;
                      Leaf anon_sym_EQ_EQ 2 4;
                      Tree sym_binary_expression 3
                        [Leaf sym_number 5 6;
                         Leaf anon_sym_LT 7 8;
                         Tree sym_binary_expression 3
                           [Leaf sym_number 9 10;
                            Leaf anon_sym_PLUS 11 12;
                            Tree sym_binary_expression 3
                              [Leaf sym_number 13 14;
                               Leaf anon_sym_STAR 15 16;
                               Tree sym_unary_expression 1
                                 [Leaf anon_sym_DASH 17 18;
                                  Leaf sym_number 18 19] 17 19] 13 19]
                           9 19] 5 19] 0 19;
                   Leaf anon_sym_SEMI 19 20] 0 20] 0 20).
Proof.
  split; [exact operand_exits_checked|].
  split; [exact reduced_symbols_checked|].
  split; [exact boolean_state_reduces|].
  split; [exact live_operand_states_split|].
  split; [exact operators_lead_to_their_class|].
  split; [rewrite live_operand_states_eq; vm_compute; tauto|].
  split; [reflexivity|].
  split; [exact ladder_decisions|].
  split; [exact completed_state_reduces_on_closers|].
  split; [exact fresh_states_shift_operators|].
  split; [exact ladder_step|].
  split; [vm_compute; reflexivity|].
  split; [vm_compute; reflexivity|].
  split; [repeat constructor; vm_compute; reflexivity|].
  repeat split; vm_compute; reflexivity.
Qed.

Lemma precedence_ladder_in_table_witness :
  parser_step (codes "1 + 2 * 3;")
    (mkParser [(11, Leaf sym_number 4 5); (16, Leaf anon_sym_PLUS 2 3);
               (26, Leaf sym_number 0 1)]
              5 (Some (mkToken anon_sym_STAR 6 7))
              [Shift 26 false; Shift 16 false; Shift 11 false])
  = Continue
      (mkParser [(17, Leaf anon_sym_STAR 6 7); (11, Leaf sym_number 4 5);
                 (16, Leaf anon_sym_PLUS 2 3); (26, Leaf sym_number 0 1)]
                7 None
                [Shift 26 false; Shift 16 false; Shift 11 false; Shift 17 false])
  /\ parser_step (codes "1 * 2 + 3;")
       (mkParser [(9, Leaf sym_number 4 5); (17, Leaf anon_sym_STAR 2 3);
                  (26, Leaf sym_number 0 1)]
                 5 (Some (mkToken anon_sym_PLUS 6 7))
                 [Shift 26 false; Shift 17 false; Shift 9 false])
     = Continue
         (mkParser [(26, Tree sym_binary_expression 3
                           [Leaf sym_number 0 1; Leaf anon_sym_STAR 2 3;
                            Leaf sym_number 4 5] 0 5)]
                   5 (Some (mkToken anon_sym_PLUS 6 7))
                   [Shift 26 false; Shift 17 false; Shift 9 false;
                    Reduce sym_binary_expression 3 3]).
Proof.
  destruct precedence_ladder_in_table
    as (_ & _ & _ & _ & _ & _ & _ & _ & _ & _ & Hstep & _).
  split.
  - rewrite (Hstep (codes "1 + 2 * 3;") _ (mkToken anon_sym_STAR 6 7)
                   Additive OpStar);
      [vm_compute; reflexivity | reflexivity | reflexivity
       | vm_compute; reflexivity].
  - rewrite (Hstep (codes "1 * 2 + 3;") _ (mkToken anon_sym_PLUS 6 7)
                   Multiplicative OpPlus);
      [vm_compute; reflexivity | reflexivity | reflexivity
       | vm_compute; reflexivity].
Defined.

(** ** The comma operator *)

(** C4.  The table also treats [,] as a binary operator.  The
    operator-continuation lex state returns it; it is shifted wherever an
    operand is complete and no operator is pending, and every other state
    with a complete operand reduces on it (so it binds weaker than each class
    of the ladder, the ternary included).  Its right operand starts in an
    operand state of its own, which every way of completing the operand
    leaves for one and the same state; there every other operator is shifted
    while [,] itself and the closing tokens reduce to a [binary_expression]
    with production id 3 (fields [left] = child 0, [right] = child 2): it is
    left-associative. *)
Theorem comma_operator_in_table :
  next_token (codes "1 , 2") 1 (lex_mode (behind_operand start_state))
  = Some (Matched (mkToken anon_sym_COMMA 2 3))
  /\ Forall operand_exits_agree live_operand_states
  /\ Forall (fun symbol =>
               In symbol operand_symbols
               \/ In symbol [sym_program; aux_sym_program_repeat1;
                             sym_expression_statement; sym_print_statement])
            reduced_symbols
  /\ Forall (fun state =>
               parse_action state anon_sym_COMMA
               = Some (Shift (operand_state anon_sym_COMMA) false))
            fresh_states
  /\ forallb (fun state =>
                match parse_action state anon_sym_COMMA with
                | Some (Shift next_state _) =>
                    (next_state =? operand_state anon_sym_COMMA)
                    && mem state fresh_states
                | Some (Reduce _ _ _) => true
                | _ => false
                end) operand_complete_states = true
  /\ (forall c,
         parse_action (completed_state c) anon_sym_COMMA
         = Some (class_reduction c))
  /\ In (operand_state anon_sym_COMMA) live_operand_states
  /\ (forall op,
         parse_action (behind_operand (operand_state anon_sym_COMMA))
                      (operator_token op)
         = Some (Shift (infix_operand_state op) false))
  /\ Forall (fun symbol =>
               parse_action (behind_operand (operand_state anon_sym_COMMA))
                            symbol
               = Some (Reduce sym_binary_expression 3 3))
            (anon_sym_COMMA :: closing_tokens)
  /\ field_map 3 = [field_entry field_left 0; field_entry field_right 2]
  /\ parse (codes "1 , 2;")
     = Some (Tree sym_program 0
               [Tree sym_expression_statement 0
                  [Tree sym_binary_expression 3
                     [Leaf sym_number 0 1; Leaf anon_sym_COMMA 2 3;
                      Leaf sym_number 4 5] 0 5;
                   Leaf anon_sym_SEMI 5 6] 0 6] 0 6)
  /\ child_by_field_id
       (Tree sym_binary_expression 3
          [Leaf sym_number 0 1; Leaf anon_sym_COMMA 2 3; Leaf sym_number 4 5] 0 5)
       field_right
     = Some (Leaf sym_number 4 5)
  /\ parse (codes "1, 2, 3;")
     = Some (Tree sym_program 0
               [Tree sym_expression_statement 0
                  [Tree sym_binary_expression 3
                     [Tree sym_binary_expression 3
                        [Leaf sym_number 0 1; Leaf anon_sym_COMMA 1 2;
                         Leaf sym_number 3 4] 0 4;
                      Leaf anon_sym_COMMA 4 5;
                      Leaf sym_number 6 7] 0 7;
                   Leaf anon_sym_SEMI 7 8] 0 8] 0 8)
  /\ parse (codes "1 , 2 ? 3 : 4;")
     = Some (Tree sym_program 0
               [Tree sym_expression_statement 0
                  [Tree sym_binary_expression 3
                     [Leaf sym_number 0 1;
                      Leaf anon_sym_COMMA 2 3;
                      Tree sym_ternary_expression 4
                        [Leaf sym_number 4 5; Leaf anon_sym_QMARK 6 7;
                         Leaf sym_number 8 9; Leaf anon_sym_COLON 10 11;
                         Leaf sym_number 12 13] 4 13] 0 13;
                   Leaf anon_sym_SEMI 13 14] 0 14] 0 14)
  /\ parse (codes "1 ? 2 : 3, 4;")
     = Some (Tree sym_program 0
               [Tree sym_expression_statement 0
                  [Tree sym_binary_expression 3
                     [Tree sym_ternary_expression 4
                        [Leaf sym_number 0 1; Leaf anon_sym_QMARK 2 3;
                         Leaf sym_number 4 5; Leaf anon_sym_COLON 6 7;
                         Leaf sym_number 8 9] 0 9;
                      Leaf anon_sym_COMMA 9 10;
                      Leaf sym_number 11 12] 0 12;
                   Leaf anon_sym_SEMI 12 13] 0 13] 0 13)
  /\ parse (codes "print (1, 2);")
     = Some (Tree sym_program 0
               [Tree sym_print_statement 0
                  [Leaf anon_sym_print 0 5;
                   Tree sym_group_expression 2
                     [Leaf anon_sym_LPAREN 6 7;
                      Tree sym_binary_expression 3
                        [Leaf sym_number 7 8; Leaf anon_sym_COMMA 8 9;
                         Leaf sym_number 10 11] 7 11;
                      Leaf anon_sym_RPAREN 11 12] 6 12;
                   Leaf anon_sym_SEMI 12 13] 0 13] 0 13)
  /\ parse (codes "1 , 2 + 3 == 4;")
     = Some (Tree sym_program 0
               [Tree sym_expression_statement 0
                  [Tree sym_binary_expression 3
                     [Leaf sym_number 0 1;
                      Leaf anon_sym_COMMA 2 3;
                      Tree sym_binary_expression 3
                        [Tree sym_binary_expression 3
                           [Leaf sym_number 4 5; Leaf anon_sym_PLUS 6 7;
                            Leaf sym_number 8 9] 4 9;
                         Leaf anon_sym_EQ_EQ 10 12;
                         Leaf sym_number 13 14] 4 14] 0 14;
                   Leaf anon_sym_SEMI 14 15] 0 15] 0 15).
Proof.
  split; [vm_compute; reflexivity|].
  split; [exact operand_exits_checked|].
  split; [exact reduced_symbols_checked|].
  split; [rewrite fresh_states_eq; repeat constructor; vm_compute; reflexivity|].
  split; [vm_compute; reflexivity|].
  split; [intros []; vm_compute; reflexivity|].
  split; [rewrite live_operand_states_eq; vm_compute; tauto|].
  split; [intros []; vm_compute; reflexivity|].
  split; [repeat constructor; vm_compute; reflexivity|].
  repeat split; vm_compute; reflexivity.
Qed.

(** ** The empty program *)

Lemma run_unfold :
  forall input fuel p,
    run input (S fuel) p
    = match parser_step input p with
      | Continue p' => run input fuel p'
      | Accepted root actions => Some (root, actions)
      | Failed => None
      end.
Proof. reflexivity. Qed.

(** C10.  On input that holds nothing but whitespace the parse succeeds
    without error recovery: the only actions are the reduction of [program]
    with no children and the accept, and the root has no children. *)
Theorem empty_input_parses :
  forall ws,
    Forall (fun c => is_space c = true) ws ->
    parse_with_history ws
    = Some (Tree sym_program 0 [] 0 0, [Reduce sym_program 0 0; Accept]).
Proof.
  intros ws Hws. unfold parse_with_history, parse_fuel.
  replace (20 * length ws + 12) with (S (S (S (20 * length ws + 9)))) by lia.
  rewrite run_unfold. unfold parser_step at 1.
  cbn [lookahead stack position top_state].
  change (lex_mode start_state) with 19.
  rewrite next_token_all_space; [|cbn; tauto|assumption].
  rewrite run_unfold. unfold parser_step at 1.
  cbn [lookahead stack position top_state kind].
  change (parse_action start_state ts_builtin_sym_end)
    with (Some (Reduce sym_program 0 0)).
  unfold reduce. cbn [stack length Nat.leb firstn skipn map rev top_state
                      position lookahead history app].
  change (goto start_state sym_program) with 29.
  cbn [Nat.eqb].
  rewrite run_unfold. unfold parser_step at 1.
  cbn [lookahead stack position top_state kind history app].
  change (parse_action 29 ts_builtin_sym_end) with (Some Accept).
  reflexivity.
Qed.

Lemma empty_input_parses_witness :
  parse_with_history [SPACE; LF; TAB]
  = Some (Tree sym_program 0 [] 0 0, [Reduce sym_program 0 0; Accept]).
Proof.
  apply (empty_input_parses [SPACE; LF; TAB]). repeat constructor.
Defined.

(** ** What a run of the tokenizer guarantees *)

(** The cases of [ts_lex], state by state.  Only the three entry states
    skip, and only whitespace; nothing advances into an entry state; state
    20 is entered at the end of the input only; an entry state accepts
    nothing, state 20 accepts end-of-input and stops, every other accepting
    state accepts a token of the grammar. *)
Lemma lex_case_facts :
  forall s c,
    (match snd (ts_lex_case s false c) with
     | SKIP s' => (s' =? s) && mem s [0; 1; 19] && is_space c
     | ADVANCE s' => negb (mem s' [0; 1; 19]) && negb (s' =? 20)
     | END_STATE | RETURN_FALSE => true
     end
     && match fst (ts_lex_case s false c) with
        | ACCEPT_TOKEN symbol =>
            negb (mem s [0; 1; 19]) && (symbol <? TOKEN_COUNT)
            && Bool.eqb (symbol =? ts_builtin_sym_end) (s =? 20)
        | NO_TOKEN => negb (s =? 20)
        end) = true.
Proof.
  intros s c.
  do 46 (destruct s as [|s];
         [unfold ts_lex_case;
          repeat lazymatch goal with
                 | |- context [if ?b then _ else _] => destruct b eqn:?
                 end;
          first [reflexivity
                | unfold is_space;
                  match goal with H : _ = true |- _ => rewrite H end;
                  reflexivity]|]).
  reflexivity.
Qed.

Lemma lex_case_at_eof :
  forall s,
    match snd (ts_lex_case s true 0) with
    | ADVANCE s' => (s' =? 20) && mem s [0; 19]
    | SKIP _ => false
    | END_STATE | RETURN_FALSE => negb (mem s [0; 19])
    end = true.
Proof.
  intros s. do 46 (destruct s as [|s]; [reflexivity|]). reflexivity.
Qed.

Lemma lex_case_accept_any :
  forall s eof c, fst (ts_lex_case s eof c) = fst (ts_lex_case s false 0).
Proof.
  intros s eof c. do 46 (destruct s as [|s]; [reflexivity|]). reflexivity.
Qed.

Lemma lex_case_20 : forall eof c, snd (ts_lex_case 20 eof c) = END_STATE.
Proof. reflexivity. Qed.


Lemma lex_case_accept_facts :
  forall s eof c, accept_facts s (fst (ts_lex_case s eof c)).
Proof.
  intros s eof c. rewrite lex_case_accept_any.
  pose proof (lex_case_facts s 0%Z) as H.
  apply andb_true_iff in H as [_ H].
  destruct (fst (ts_lex_case s false 0)) as [|symbol]; cbn [accept_facts].
  - apply negb_true_iff, Nat.eqb_neq in H. assumption.
  - apply andb_true_iff in H as [H H3]. apply andb_true_iff in H as [H1 H2].
    apply negb_true_iff in H1. apply Nat.ltb_lt in H2.
    apply Bool.eqb_prop in H3.
    split; [assumption|]. split; [assumption|].
    rewrite <- !Nat.eqb_eq. rewrite H3. tauto.
Qed.

Lemma lex_case_exit_facts :
  forall s c,
    match snd (ts_lex_case s false c) with
    | SKIP s' => s' = s /\ mem s entry_states = true /\ is_space c = true
    | ADVANCE s' => mem s' entry_states = false /\ s' <> 20
    | END_STATE | RETURN_FALSE => True
    end.
Proof.
  intros s c. pose proof (lex_case_facts s c) as H.
  apply andb_true_iff in H as [H _].
  destruct (snd (ts_lex_case s false c)) as [s'|s'| |]; try exact I.
  - apply andb_true_iff in H as [H1 H2].
    apply negb_true_iff in H1, H2. apply Nat.eqb_neq in H2. tauto.
  - apply andb_true_iff in H as [H H3]. apply andb_true_iff in H as [H1 H2].
    apply Nat.eqb_eq in H1. tauto.
Qed.

Lemma lex_case_eof_facts :
  forall s,
    (snd (ts_lex_case s true 0) = ADVANCE 20 /\ mem s [0; 19] = true)
    \/ ((snd (ts_lex_case s true 0) = END_STATE
         \/ snd (ts_lex_case s true 0) = RETURN_FALSE)
        /\ mem s [0; 19] = false).
Proof.
  intros s. pose proof (lex_case_at_eof s) as H.
  destruct (snd (ts_lex_case s true 0)) as [s'|s'| |].
  - apply andb_true_iff in H as [H1 H2]. apply Nat.eqb_eq in H1. subst. tauto.
  - discriminate.
  - apply negb_true_iff in H. tauto.
  - apply negb_true_iff in H. tauto.
Qed.

Lemma mem_entry_019 :
  forall s, mem s [0; 19] = true -> mem s entry_states = true.
Proof.
  intros s H. apply mem_In in H. apply mem_In. cbn in *. tauto.
Qed.

Lemma entry_not_019 :
  forall s, mem s entry_states = true -> mem s [0; 19] = false -> s = 1.
Proof.
  intros s H1 H2. apply mem_In in H1. cbn in H1.
  destruct H1 as [<-|[<-|[<-|[]]]]; [discriminate|reflexivity|discriminate].
Qed.

(** The loop keeps the invariant and returns within the bound. *)
Lemma ts_lex_loop_inv :
  forall fuel rest0 offset mode lexer result s,
    lex_inv rest0 offset mode lexer result s ->
    (if s =? 20 then 1 else length (input_rest lexer) + 2) <= fuel ->
    exists result' lexer',
      ts_lex_loop fuel lexer result s = Some (result', lexer')
      /\ lex_post rest0 offset mode lexer' result'.
Proof.
  induction fuel as [|fuel IH]; intros rest0 offset mode lexer result s Hinv Hfuel.
  { destruct (s =? 20); lia. }
  destruct Hinv as (w & tok & Hrest0 & Hw & Hts & Hcur & Hentry & Hother & Hres).
  rewrite ts_lex_loop_unfold.
  pose proof (lex_case_accept_facts s (lexer_eof lexer) (lexer_lookahead lexer)) as Hacc.
  destruct lexer as [rest cur ts te sym]. cbn [input_rest current_position
    token_start_position token_end_position result_symbol] in *.
  unfold lexer_eof, lexer_lookahead in *. cbn [input_rest] in *.
  destruct rest as [|c rest']; cbn [hd] in *.
  - (* end of input *)
    destruct (lex_case_eof_facts s) as [[Hex Hmem]|[Hex Hmem]].
    + (* an entry state moves to state 20 *)
      destruct (ts_lex_case s true 0) as [acc ex]. cbn [fst snd] in *. subst ex.
      destruct (Hentry (mem_entry_019 _ Hmem)) as (Hsm & -> & ->).
      destruct acc as [|symbol];
        [|destruct Hacc as [Hacc _]; rewrite (mem_entry_019 _ Hmem) in Hacc;
          discriminate].
      cbn [lexer_advance input_rest].
      apply IH.
      * exists w, []. cbn [input_rest token_start_position current_position
                          token_end_position result_symbol].
        repeat split; try assumption; try discriminate.
        left. repeat split.
      * assert (Hne : (s =? 20) = false).
        { apply mem_In in Hmem. cbn in Hmem.
          destruct Hmem as [<-|[<-|[]]]; reflexivity. }
        rewrite Hne in Hfuel. cbn in Hfuel |- *. lia.
    + (* the automaton stops *)
      assert (Hpost :
                forall acc,
                  accept_facts s acc ->
                  lex_post rest0 offset mode
                    match acc with
                    | ACCEPT_TOKEN symbol_value =>
                        lexer_accept (mkLexer [] cur ts te sym) symbol_value
                    | NO_TOKEN => mkLexer [] cur ts te sym
                    end
                    match acc with ACCEPT_TOKEN _ => true | NO_TOKEN => result end).
      { intros acc Hacc'. exists w, (tok ++ []).
        split; [assumption|]. split; [assumption|].
        destruct acc as [|symbol]; cbn [accept_facts] in Hacc'.
        - cbn [token_start_position result_symbol]. split; [assumption|].
          split.
          + intros Hr. destruct (Hres Hr) as (Hsym & e & -> & He & Hne & Hend).
            unfold lexer_token_end. cbn [token_end_position].
            split; [assumption|]. rewrite Hrest0, !length_app. cbn [length].
            split; [lia|]. split; [assumption|].
            intros Heq. destruct (Hend Heq) as [-> _]. reflexivity.
          + intros Hr Hmode.
            destruct (mem s entry_states) eqn:Hs.
            * destruct (Hentry eq_refl) as (Hsm & _ & _).
              apply entry_not_019 in Hs; [congruence | assumption].
            * destruct (Hother eq_refl) as [(-> & _)|(_ & Htok)]; [congruence|].
              destruct tok; [congruence | discriminate].
        - destruct Hacc' as (Hs & Hsym & Hiff).
          unfold lexer_accept, lexer_token_end.
          cbn [token_start_position result_symbol token_end_position
               current_position input_rest].
          split; [assumption|]. split; [|discriminate].
          intros _. split; [assumption|].
          rewrite Hrest0, !length_app. cbn [length].
          destruct (Hother Hs) as [(-> & -> & _)|(Hs20 & Htok)].
          + cbn [length app] in *. split; [lia|]. split; [|reflexivity].
            intros Hne. exfalso. apply Hne, Hiff. reflexivity.
          + split; [lia|]. split.
            * intros _. destruct tok; [congruence | cbn [length] in *; lia].
            * intros Heq. apply Hiff in Heq. congruence. }
      assert (Hend20 : s = 20 -> snd (ts_lex_case s true 0) = END_STATE)
        by (intros ->; reflexivity).
      destruct (ts_lex_case s true 0) as [acc ex]. cbn [fst snd] in *.
      destruct Hex as [-> | ->].
      * eexists _, _. split; [reflexivity|]. apply Hpost. assumption.
      * eexists _, _. split; [reflexivity|].
        (* the default branch: taken by no state below 46 *)
        exists w, (tok ++ []). split; [assumption|]. split; [assumption|].
        assert (Hts' :
                  token_start_position
                    match acc with
                    | ACCEPT_TOKEN symbol_value =>
                        lexer_accept (mkLexer [] cur ts te sym) symbol_value
                    | NO_TOKEN => mkLexer [] cur ts te sym
                    end = ts) by (destruct acc; reflexivity).
        rewrite Hts'. split; [assumption|]. split; [discriminate|].
        intros _ Hmode.
        destruct (mem s entry_states) eqn:Hs.
        -- destruct (Hentry eq_refl) as (Hsm & _ & _).
           apply entry_not_019 in Hs; [congruence | assumption].
        -- destruct (Hother eq_refl) as [(Hs20 & _)|(_ & Htok)];
             [specialize (Hend20 Hs20); discriminate|].
           destruct tok; [congruence | discriminate].
  - (* a character is in front *)
    pose proof (lex_case_exit_facts s c) as Hex.
    assert (Hs20 : s <> 20).
    { intros ->. destruct (Hother eq_refl) as [(_ & _ & Hnil)|(Hne & _)];
        [discriminate | congruence]. }
    assert (Hlen : length rest0 = length w + length tok + S (length rest')).
    { rewrite Hrest0, !length_app. cbn [length]. lia. }
    destruct (ts_lex_case s false c) as [acc ex]. cbn [fst snd] in *.
    (* the configuration behind the accept *)
    assert (Hres1 :
              match acc with ACCEPT_TOKEN _ => true | NO_TOKEN => result end = true ->
              let lexer1 :=
                match acc with
                | ACCEPT_TOKEN symbol_value =>
                    lexer_accept (mkLexer (c :: rest') cur ts te sym) symbol_value
                | NO_TOKEN => mkLexer (c :: rest') cur ts te sym
                end in
              result_symbol lexer1 < TOKEN_COUNT
              /\ result_symbol lexer1 <> ts_builtin_sym_end
              /\ exists e,
                  token_end_position lexer1 = Some e
                  /\ offset + length w <= e <= cur
                  /\ offset + length w < e).
    { destruct acc as [|symbol]; cbn [accept_facts] in Hacc.
      - intros Hr. destruct (Hres Hr) as (Hsym & e & -> & He & Hne & Hend).
        cbn [result_symbol token_end_position].
        assert (Hnend : sym <> ts_builtin_sym_end).
        { intros Heq. destruct (Hend Heq) as [_ Hnil]. discriminate. }
        split; [assumption|]. split; [assumption|].
        exists e. auto.
      - intros _. destruct Hacc as (Hs & Hsym & Hiff).
        unfold lexer_accept. cbn [result_symbol token_end_position current_position].
        split; [assumption|]. split; [rewrite Hiff; assumption|].
        exists cur. split; [reflexivity|].
        destruct (Hother Hs) as [(-> & _)|(_ & Htok)]; [congruence|].
        destruct tok; [congruence | cbn [length] in *; lia]. }
    assert (Hts1 :
              token_start_position
                match acc with
                | ACCEPT_TOKEN symbol_value =>
                    lexer_accept (mkLexer (c :: rest') cur ts te sym) symbol_value
                | NO_TOKEN => mkLexer (c :: rest') cur ts te sym
                end = ts)
      by (destruct acc; reflexivity).
    destruct ex as [s'|s'| |].
    + (* ADVANCE *)
      destruct Hex as [Hs' Hs'20].
      apply IH.
      * exists w, (tok ++ [c]).
        destruct acc as [|symbol]; unfold lexer_accept, lexer_advance;
          cbn [input_rest current_position token_start_position
               token_end_position result_symbol] in *.
        all: rewrite <- !app_assoc; cbn [app].
        all: split; [assumption|]; split; [assumption|]; split; [assumption|].
        all: rewrite length_app; cbn [length].
        all: split; [lia|].
        all: split; [rewrite Hs'; discriminate|].
        all: split; [intros _; right; split;
                     [assumption | destruct tok; discriminate]|].
        all: intros Hr; destruct (Hres1 Hr) as (Hsym & Hne & e & He1 & He2 & He3).
        all: split; [assumption|]; exists e.
        all: split; [assumption|]; split; [lia|]; split; [intros _; assumption|].
        all: intros Heq; contradiction.
      * assert (Hne : (s' =? 20) = false) by (apply Nat.eqb_neq; assumption).
        rewrite Hne. rewrite (proj2 (Nat.eqb_neq s 20) Hs20) in Hfuel.
        destruct acc; unfold lexer_accept, lexer_advance;
          cbn [input_rest]; cbn [input_rest length] in Hfuel; lia.
    + (* SKIP *)
      destruct Hex as (-> & Hs & Hc).
      destruct (Hentry Hs) as (Hsm & -> & ->).
      destruct acc as [|symbol];
        [|destruct Hacc as [Hacc _]; congruence].
      apply IH.
      * exists (w ++ [c]), [].
        unfold lexer_advance.
        cbn [input_rest current_position token_start_position
             token_end_position result_symbol app length] in *.
        rewrite <- !app_assoc. cbn [app].
        split; [assumption|].
        split; [apply Forall_app; split; [assumption | repeat constructor; assumption]|].
        rewrite length_app. cbn [length].
        split; [lia|]. split; [lia|].
        split; [intros _; repeat split; assumption|].
        split; [congruence|]. discriminate.
      * rewrite (proj2 (Nat.eqb_neq s 20) Hs20) in *.
        unfold lexer_advance. cbn [input_rest length] in *. lia.
    + (* END_STATE *)
      eexists _, _. split; [reflexivity|].
      exists w, (tok ++ c :: rest'). split; [assumption|]. split; [assumption|].
      rewrite Hts1. split; [assumption|]. split.
      * intros Hr. destruct (Hres1 Hr) as (Hsym & Hne & e & He1 & He2 & He3).
        unfold lexer_token_end. rewrite He1.
        split; [assumption|]. split; [lia|]. split; [intros _; assumption|].
        intros Heq. contradiction.
      * intros _ _. destruct tok; discriminate.
    + (* the default branch *)
      eexists _, _. split; [reflexivity|].
      exists w, (tok ++ c :: rest'). split; [assumption|]. split; [assumption|].
      rewrite Hts1. split; [assumption|]. split; [discriminate|].
      intros _ _. destruct tok; discriminate.
Qed.

(** ** The table is fit for the engine *)

Lemma table_is_ok : forallb state_ok all_states = true.
Proof. vm_compute. reflexivity. Qed.

(** ** Slices and whitespace *)

Lemma firstn_plus :
  forall (A : Type) (k m : nat) (l : list A),
    firstn (k + m) l = firstn k l ++ firstn m (skipn k l).
Proof.
  intros A k. induction k as [|k IH]; intros m l; [reflexivity|].
  destruct l as [|x l]; cbn [Nat.add firstn skipn app].
  - rewrite firstn_nil. reflexivity.
  - rewrite IH. reflexivity.
Qed.

Lemma slice_app :
  forall input a b c,
    a <= b -> b <= c -> slice input a b ++ slice input b c = slice input a c.
Proof.
  intros input a b c Hab Hbc. unfold slice.
  replace (c - a) with ((b - a) + (c - b)) by lia.
  rewrite firstn_plus. rewrite skipn_skipn.
  replace (b - a + a) with b by lia. reflexivity.
Qed.

Lemma slice_full : forall input, slice input 0 (length input) = input.
Proof.
  intros input. unfold slice. rewrite Nat.sub_0_r. cbn [skipn].
  apply firstn_all.
Qed.

Lemma ws_between_spec :
  forall input a b,
    ws_between input a b = true
    <-> a <= b /\ b <= length input
        /\ Forall (fun c => is_space c = true) (slice input a b).
Proof.
  intros input a b. unfold ws_between.
  rewrite !andb_true_iff, Nat.leb_le, Nat.leb_le, forallb_forall, Forall_forall.
  tauto.
Qed.

Lemma ws_between_refl :
  forall input a, a <= length input -> ws_between input a a = true.
Proof.
  intros input a Ha. apply ws_between_spec. split; [lia|]. split; [assumption|].
  unfold slice. rewrite Nat.sub_diag. constructor.
Qed.

Lemma ws_between_trans :
  forall input a b c,
    ws_between input a b = true -> ws_between input b c = true ->
    ws_between input a c = true.
Proof.
  intros input a b c Hab Hbc. apply ws_between_spec in Hab, Hbc.
  destruct Hab as (H1 & H2 & H3). destruct Hbc as (H4 & H5 & H6).
  apply ws_between_spec. split; [lia|]. split; [assumption|].
  rewrite <- (slice_app input a b c) by assumption.
  apply Forall_app. split; assumption.
Qed.

Lemma ws_between_split :
  forall input a b c,
    ws_between input a c = true -> a <= b -> b <= c ->
    ws_between input a b = true /\ ws_between input b c = true.
Proof.
  intros input a b c Hac Hab Hbc. apply ws_between_spec in Hac.
  destruct Hac as (H1 & H2 & H3).
  rewrite <- (slice_app input a b c) in H3 by assumption.
  apply Forall_app in H3 as [H3 H4].
  split; apply ws_between_spec; repeat split; try assumption; lia.
Qed.

Lemma ws_between_bounds :
  forall input a b, ws_between input a b = true -> a <= b /\ b <= length input.
Proof.
  intros input a b H. apply ws_between_spec in H. tauto.
Qed.

Lemma ws_between_prefix :
  forall input pos w tail,
    pos <= length input ->
    skipn pos input = w ++ tail ->
    Forall (fun c => is_space c = true) w ->
    ws_between input pos (pos + length w) = true.
Proof.
  intros input pos w tail Hpos Hskip Hw.
  assert (Hlen : length w + length tail = length input - pos).
  { rewrite <- length_skipn, Hskip, length_app. reflexivity. }
  apply ws_between_spec. split; [lia|]. split; [lia|].
  unfold slice. replace (pos + length w - pos) with (length w) by lia.
  rewrite Hskip. rewrite firstn_app, Nat.sub_diag, firstn_all. cbn [firstn].
  rewrite app_nil_r. assumption.
Qed.

(** ** What [next_token] returns *)

Lemma ts_lex_total :
  forall rest0 offset mode,
    In mode entry_states ->
    exists result lexer,
      ts_lex (lexer_start rest0 offset) mode = Some (result, lexer)
      /\ lex_post rest0 offset mode lexer result.
Proof.
  intros rest0 offset mode Hmode. unfold ts_lex. apply ts_lex_loop_inv.
  - exists [], []. unfold lexer_start.
    cbn [input_rest token_start_position current_position token_end_position
         result_symbol app length].
    split; [reflexivity|]. split; [constructor|].
    split; [lia|]. split; [lia|].
    split; [intros _; repeat split|].
    split; [|discriminate].
    intros H. apply mem_In in Hmode. congruence.
  - unfold lexer_start. cbn [input_rest]. destruct (mode =? 20); lia.
Qed.

(** The outcome of [next_token] at a position inside the input: the bytes
    in front of the token, or of the failing byte, are whitespace; a token
    lies inside the input and is not empty unless it is end-of-input, which
    is returned only when whitespace alone is left; in the lex states 0 and
    19 no match is reported at the end of the input. *)
Lemma next_token_spec :
  forall input pos mode,
    In mode entry_states -> pos <= length input ->
    (exists t,
        next_token input pos mode = Some (Matched t)
        /\ kind t < TOKEN_COUNT
        /\ ws_between input pos (token_start t) = true
        /\ token_start t <= token_end t <= length input
        /\ (kind t <> ts_builtin_sym_end -> token_start t < token_end t)
        /\ (kind t = ts_builtin_sym_end -> token_start t = length input))
    \/ (exists at_offset,
           next_token input pos mode = Some (NoMatch at_offset)
           /\ ws_between input pos at_offset = true
           /\ (mode <> 1 -> at_offset < length input)).
Proof.
  intros input pos mode Hmode Hpos. unfold next_token.
  destruct (ts_lex_total (skipn pos input) pos mode Hmode)
    as (result & lexer & -> & w & tail & Hskip & Hw & Hts & Htrue & Hfalse).
  assert (Hlen : length (skipn pos input) = length input - pos)
    by apply length_skipn.
  assert (Hws : ws_between input pos (pos + length w) = true)
    by (eapply ws_between_prefix; eassumption).
  assert (Hlen' : length w + length tail = length input - pos).
  { rewrite <- Hlen, Hskip, length_app. reflexivity. }
  destruct result.
  - left. destruct (Htrue eq_refl) as (Hsym & Hend & Hne & Heof).
    eexists. split; [reflexivity|]. cbn [kind token_start token_end].
    rewrite Hts. split; [assumption|]. split; [assumption|].
    split; [lia|]. split; [assumption|].
    intros Heq. rewrite (Heof Heq) in Hlen'. cbn [length] in Hlen'. lia.
  - right. eexists. split; [reflexivity|]. rewrite Hts.
    split; [assumption|]. intros Hm.
    specialize (Hfalse eq_refl Hm). destruct tail; [congruence|].
    cbn [length] in Hlen'. lia.
Qed.

(** When whitespace alone is left, the lex states 0 and 19 return
    end-of-input and lex state 1 reports no match. *)
Lemma next_token_at_end :
  forall input pos mode,
    In mode entry_states ->
    ws_between input pos (length input) = true ->
    next_token input pos mode
    = if mode =? 1 then Some (NoMatch (length input))
      else Some (Matched (mkToken ts_builtin_sym_end (length input) (length input))).
Proof.
  intros input pos mode Hmode Hws. apply ws_between_spec in Hws.
  destruct Hws as (Hpos & _ & Hws).
  unfold slice in Hws. rewrite <- length_skipn in Hws. rewrite firstn_all in Hws.
  unfold next_token.
  replace (skipn pos input) with (skipn pos input ++ []) by apply app_nil_r.
  rewrite ts_lex_skip_spaces by assumption.
  rewrite length_skipn. replace (pos + (length input - pos)) with (length input) by lia.
  cbn [In entry_states] in Hmode.
  destruct Hmode as [<-|[<-|[<-|[]]]]; reflexivity.
Qed.

(** ** Sequences of nodes *)

Lemma gaps_ok_bounds :
  forall input ns a b,
    gaps_ok input a ns b = true ->
    a <= last_end a ns /\ last_end a ns <= b /\ b <= length input.
Proof.
  intros input ns. induction ns as [|n ns IH]; intros a b H; cbn [gaps_ok last_end] in *.
  - apply ws_between_bounds in H. lia.
  - apply andb_true_iff in H as [H H3]. apply andb_true_iff in H as [H1 H2].
    apply ws_between_bounds in H1. apply Nat.leb_le in H2.
    apply IH in H3. lia.
Qed.

Lemma gaps_ok_extend_left :
  forall input ns a' a b,
    ws_between input a' a = true -> gaps_ok input a ns b = true ->
    gaps_ok input a' ns b = true.
Proof.
  intros input [|n ns] a' a b Hws H; cbn [gaps_ok] in *.
  - eapply ws_between_trans; eassumption.
  - apply andb_true_iff in H as [H H3]. apply andb_true_iff in H as [H1 H2].
    rewrite (ws_between_trans _ _ _ _ Hws H1), H2, H3. reflexivity.
Qed.

Lemma gaps_ok_extend_right :
  forall input ns a b b',
    gaps_ok input a ns b = true -> ws_between input b b' = true ->
    gaps_ok input a ns b' = true.
Proof.
  intros input ns. induction ns as [|n ns IH]; intros a b b' H Hws; cbn [gaps_ok] in *.
  - eapply ws_between_trans; eassumption.
  - apply andb_true_iff in H as [H H3]. apply andb_true_iff in H as [H1 H2].
    rewrite H1, H2, (IH _ _ _ H3 Hws). reflexivity.
Qed.

Lemma gaps_ok_last :
  forall input ns a b,
    gaps_ok input a ns b = true -> ws_between input (last_end a ns) b = true.
Proof.
  intros input ns. induction ns as [|n ns IH]; intros a b H; cbn [gaps_ok last_end] in *.
  - assumption.
  - apply andb_true_iff in H as [_ H]. apply IH. assumption.
Qed.

Lemma gaps_ok_trim_right :
  forall input ns a b,
    gaps_ok input a ns b = true -> gaps_ok input a ns (last_end a ns) = true.
Proof.
  intros input ns. induction ns as [|n ns IH]; intros a b H; cbn [gaps_ok last_end] in *.
  - apply ws_between_bounds in H. apply ws_between_refl. lia.
  - apply andb_true_iff in H as [H H3]. rewrite H. cbn [andb].
    eapply IH. eassumption.
Qed.

Lemma gaps_ok_concat :
  forall input xs ys a m b,
    gaps_ok input a xs m = true -> gaps_ok input m ys b = true ->
    gaps_ok input a (xs ++ ys) b = true.
Proof.
  intros input xs. induction xs as [|x xs IH]; intros ys a m b Hx Hy;
    cbn [gaps_ok app] in *.
  - eapply gaps_ok_extend_left; eassumption.
  - apply andb_true_iff in Hx as [Hx Hx3]. rewrite Hx. cbn [andb].
    eapply IH; eassumption.
Qed.

Lemma gaps_ok_split :
  forall input xs ys a b,
    gaps_ok input a (xs ++ ys) b = true ->
    gaps_ok input a xs (last_end a xs) = true
    /\ gaps_ok input (last_end a xs) ys b = true.
Proof.
  intros input xs. induction xs as [|x xs IH]; intros ys a b H;
    cbn [gaps_ok app last_end] in *.
  - split; [|assumption].
    apply gaps_ok_bounds in H. apply ws_between_refl. lia.
  - apply andb_true_iff in H as [H H3]. rewrite H. cbn [andb].
    apply IH. assumption.
Qed.

Lemma last_end_app :
  forall xs ys a, last_end a (xs ++ ys) = last_end (last_end a xs) ys.
Proof.
  intros xs. induction xs as [|x xs IH]; intros ys a; cbn [app last_end];
    [reflexivity | apply IH].
Qed.

Lemma last_end_last :
  forall cs c d x, node_end (last (c :: cs) d) = last_end x (c :: cs).
Proof.
  intros cs. induction cs as [|c' cs IH]; intros c d x; [reflexivity|].
  change (last (c :: c' :: cs) d) with (last (c' :: cs) d).
  rewrite (IH c' d (node_end c)). reflexivity.
Qed.

Lemma span_end_last_end :
  forall children offset, span_end children offset = last_end offset children.
Proof.
  intros [|c cs] offset; [reflexivity|]. apply last_end_last.
Qed.

(** Dropping the gap in front of the first node. *)
Lemma gaps_ok_trim_left :
  forall input n ns a b,
    gaps_ok input a (n :: ns) b = true ->
    gaps_ok input (node_start n) (n :: ns) b = true.
Proof.
  intros input n ns a b H. cbn [gaps_ok] in *.
  apply andb_true_iff in H as [H H3]. apply andb_true_iff in H as [H1 H2].
  rewrite H2, H3. apply ws_between_bounds in H1.
  apply gaps_ok_bounds in H3. apply Nat.leb_le in H2.
  rewrite ws_between_refl by lia. reflexivity.
Qed.

(** ** Building nodes *)

Lemma well_ranged_tree_children :
  forall input symbol id children a b,
    well_ranged input (Tree symbol id children a b) = true ->
    forallb (well_ranged input) children = true
    /\ gaps_ok input a children b = true
    /\ last_end a children = b.
Proof.
  intros input symbol id children a b H. cbn [well_ranged] in H.
  repeat (apply andb_true_iff in H as [H ?]).
  repeat split; try assumption.
  rewrite <- span_end_last_end. symmetry. apply Nat.eqb_eq. assumption.
Qed.

(** Replacing suppressed nodes by their children keeps the order and the
    gaps. *)
Lemma gaps_ok_expose :
  forall input ns a b,
    forallb (well_ranged input) ns = true ->
    gaps_ok input a ns b = true ->
    forallb (well_ranged input) (flat_map expose ns) = true
    /\ gaps_ok input a (flat_map expose ns) b = true.
Proof.
  intros input ns. induction ns as [|n ns IH]; intros a b Hwf H;
    cbn [flat_map forallb gaps_ok] in *.
  - split; [reflexivity | assumption].
  - apply andb_true_iff in Hwf as [Hn Hns].
    apply andb_true_iff in H as [H H3]. apply andb_true_iff in H as [H1 H2].
    destruct (IH _ _ Hns H3) as [IHwf IHgaps].
    assert (Hkeep :
              forallb (well_ranged input) ([n] ++ flat_map expose ns) = true
              /\ gaps_ok input a ([n] ++ flat_map expose ns) b = true).
    { cbn [app forallb gaps_ok]. rewrite Hn, IHwf, H1, H2, IHgaps. auto. }
    destruct n as [symbol sa sb | symbol id children sa sb | children sa sb];
      cbn [expose]; try exact Hkeep.
    destruct (is_visible symbol); [exact Hkeep|].
    destruct (well_ranged_tree_children _ _ _ _ _ _ Hn) as (Hcwf & Hcgaps & Hlast).
    cbn [node_start node_end] in *.
    split; [rewrite forallb_app, Hcwf, IHwf; reflexivity|].
    eapply gaps_ok_concat; [|exact IHgaps].
    eapply gaps_ok_extend_left; eassumption.
Qed.

(** The node built over a run of nodes takes their place in the run. *)
Lemma span_node_fits :
  forall input children a b offset,
    forallb (well_ranged input) children = true ->
    gaps_ok input a children b = true ->
    a <= offset -> offset <= b ->
    let s := span_start children offset in
    let e := span_end children offset in
    s <= e /\ e <= length input
    /\ (s =? span_start children s) = true
    /\ (e =? span_end children s) = true
    /\ gaps_ok input s children e = true
    /\ ws_between input a s = true
    /\ ws_between input e b = true.
Proof.
  intros input [|c cs] a b offset Hwf Hgaps Ha Hb; cbn zeta.
  - cbn [span_start span_end gaps_ok] in *.
    pose proof (ws_between_bounds _ _ _ Hgaps) as [_ HbL].
    destruct (ws_between_split _ _ offset _ Hgaps Ha Hb) as [H1 H2].
    rewrite !Nat.eqb_refl, H1, H2, ws_between_refl by lia.
    repeat split; lia.
  - rewrite !span_end_last_end. cbn [span_start].
    pose proof (gaps_ok_trim_left _ _ _ _ _ Hgaps) as Htrim.
    pose proof (gaps_ok_trim_right _ _ _ _ Htrim) as Htrim'.
    pose proof (gaps_ok_bounds _ _ _ _ Htrim) as (B1 & B2 & B3).
    pose proof (gaps_ok_last _ _ _ _ Hgaps) as Hlast.
    cbn [last_end] in *.
    cbn [gaps_ok] in Hgaps.
    apply andb_true_iff in Hgaps as [Hg _]. apply andb_true_iff in Hg as [Hg1 _].
    rewrite !Nat.eqb_refl, Htrim', Hg1, Hlast.
    repeat split; lia.
Qed.

Lemma build_node_fits :
  forall input symbol id popped a b offset,
    forallb (well_ranged input) popped = true ->
    gaps_ok input a popped b = true ->
    a <= offset -> offset <= b ->
    well_ranged input (build_node symbol id popped offset) = true
    /\ gaps_ok input a [build_node symbol id popped offset] b = true.
Proof.
  intros input symbol id popped a b offset Hwf Hgaps Ha Hb.
  destruct (gaps_ok_expose _ _ _ _ Hwf Hgaps) as [Hwf' Hgaps'].
  destruct (span_node_fits _ _ _ _ offset Hwf' Hgaps' Ha Hb)
    as (H1 & H2 & H3 & H4 & H5 & H6 & H7).
  unfold build_node. cbn [well_ranged gaps_ok node_start node_end].
  rewrite Hwf', H3, H4, H5, H6, H7.
  rewrite (proj2 (Nat.leb_le _ _) H1), (proj2 (Nat.leb_le _ _) H2).
  split; reflexivity.
Qed.

Lemma error_node_fits :
  forall input popped a b offset,
    forallb (well_ranged input) popped = true ->
    gaps_ok input a popped b = true ->
    a <= offset -> offset <= b ->
    well_ranged input (error_node popped offset) = true
    /\ gaps_ok input a [error_node popped offset] b = true.
Proof.
  intros input popped a b offset Hwf Hgaps Ha Hb.
  destruct (gaps_ok_expose _ _ _ _ Hwf Hgaps) as [Hwf' Hgaps'].
  destruct (span_node_fits _ _ _ _ offset Hwf' Hgaps' Ha Hb)
    as (H1 & H2 & H3 & H4 & H5 & H6 & H7).
  unfold error_node. cbn [well_ranged gaps_ok node_start node_end].
  rewrite Hwf', H6, H7.
  rewrite (proj2 (Nat.leb_le _ _) H1), (proj2 (Nat.leb_le _ _) H2).
  destruct (flat_map expose popped); [split; reflexivity|].
  rewrite H3, H4, H5. split; reflexivity.
Qed.

(** ** Facts read off the table *)

Lemma in_all_states : forall s, s < STATE_COUNT -> In s all_states.
Proof. intros s Hs. unfold all_states. apply in_seq. lia. Qed.

Lemma in_terminals : forall t, t < TOKEN_COUNT -> In t terminals.
Proof. intros t Ht. unfold terminals. apply in_seq. lia. Qed.

Lemma state_ok_lt : forall s, s < STATE_COUNT -> state_ok s = true.
Proof.
  intros s Hs.
  exact (proj1 (forallb_forall state_ok all_states) table_is_ok s
               (in_all_states s Hs)).
Qed.

Lemma parse_action_terminal :
  forall s t a, parse_action s t = Some a -> t < TOKEN_COUNT.
Proof.
  intros s t a H. unfold parse_action in H.
  destruct (t <? TOKEN_COUNT) eqn:Ht; [|discriminate].
  apply Nat.ltb_lt. assumption.
Qed.

Lemma table_cell_ok :
  forall s t,
    s < STATE_COUNT ->
    shift_ok s t = true /\ reduce_ok s t = true /\ accept_ok s t = true.
Proof.
  intros s t Hs.
  destruct (parse_action s t) as [a|] eqn:Hact.
  - pose proof (parse_action_terminal _ _ _ Hact) as Ht.
    pose proof (state_ok_lt s Hs) as H. unfold state_ok in H.
    apply andb_true_iff in H as [_ H]. rewrite forallb_forall in H.
    assert (Hin : In t terminals) by (apply in_terminals; assumption).
    specialize (H t Hin). rewrite !andb_true_iff in H. tauto.
  - unfold shift_ok, reduce_ok, accept_ok. rewrite Hact. auto.
Qed.

Lemma lex_mode_entry : forall s, s < STATE_COUNT -> In (lex_mode s) entry_states.
Proof.
  intros s Hs. pose proof (state_ok_lt s Hs) as H. unfold state_ok in H.
  do 4 (apply andb_true_iff in H as [H _]). apply mem_In. assumption.
Qed.

Lemma boundary_facts :
  forall s,
    s < STATE_COUNT -> is_statement_boundary s = true ->
    goto s sym__statement < STATE_COUNT
    /\ goto s sym__statement <> 0
    /\ goto s sym__statement <> 29
    /\ rank (goto s sym__statement) <= 1
    /\ lex_mode s <> 1
    /\ parse_action s ts_builtin_sym_end <> None
    /\ parse_action s ts_builtin_sym_end <> Some Recover.
Proof.
  intros s Hs Hb. pose proof (state_ok_lt s Hs) as H. unfold state_ok in H.
  do 3 (apply andb_true_iff in H as [H _]).
  apply andb_true_iff in H as [_ H]. rewrite Hb in H. cbn zeta in H.
  repeat (apply andb_true_iff in H as [H ?]).
  repeat match goal with
         | H : negb _ = true |- _ => apply negb_true_iff in H
         | H : (_ =? _) = false |- _ => apply Nat.eqb_neq in H
         | H : (_ <? _) = true |- _ => apply Nat.ltb_lt in H
         | H : (_ <=? _) = true |- _ => apply Nat.leb_le in H
         end.
  repeat split; try assumption.
  - intros Heq. rewrite Heq in *. discriminate.
  - intros Heq. rewrite Heq in *. discriminate.
Qed.

Lemma non_boundary_rank :
  forall s,
    s < STATE_COUNT -> is_statement_boundary s = false -> s <> 29 ->
    2 <= rank s.
Proof.
  intros s Hs Hb H29. pose proof (state_ok_lt s Hs) as H. unfold state_ok in H.
  do 3 (apply andb_true_iff in H as [H _]).
  apply andb_true_iff in H as [_ H]. rewrite Hb in H.
  rewrite (proj2 (Nat.eqb_neq _ _) H29) in H. apply Nat.leb_le in H. lia.
Qed.

Lemma no_edge_to_start : forall a b, b = start_state -> edge a b = false.
Proof.
  intros a b ->. destruct (Nat.lt_ge_cases a STATE_COUNT) as [Ha|Ha].
  - pose proof (state_ok_lt a Ha) as H. unfold state_ok in H.
    do 2 (apply andb_true_iff in H as [H _]).
    apply andb_true_iff in H as [_ H]. apply negb_true_iff in H. assumption.
  - unfold edge. apply Nat.ltb_ge in Ha. rewrite Ha. reflexivity.
Qed.

Lemma edge_to_29 : forall a, edge a 29 = true -> a = start_state.
Proof.
  intros a He.
  assert (Ha : a < STATE_COUNT).
  { unfold edge in He. do 3 (apply andb_true_iff in He as [He _]).
    apply Nat.ltb_lt. assumption. }
  pose proof (state_ok_lt a Ha) as H. unfold state_ok in H.
  apply andb_true_iff in H as [H _]. apply andb_true_iff in H as [_ H].
  rewrite He in H. cbn in H. apply Nat.eqb_eq. assumption.
Qed.

Lemma rank_le_5 : forall s, rank s <= 5.
Proof.
  intros s. unfold rank.
  do 30 (destruct s as [|s]; [lia|]). lia.
Qed.

(** ** Stacks *)

Lemma top_state_map :
  forall stack, top_state stack = hd start_state (map fst stack).
Proof. intros [|[s n] stack]; reflexivity. Qed.

Lemma valid_stack_hd :
  forall states,
    valid_stack states = true ->
    hd start_state states < STATE_COUNT.
Proof.
  intros [|s below] H; cbn [hd valid_stack] in *.
  - unfold start_state, STATE_COUNT. lia.
  - apply andb_true_iff in H as [H _]. unfold edge in H.
    do 2 (apply andb_true_iff in H as [H _]).
    apply andb_true_iff in H as [_ H].
    apply Nat.ltb_lt. assumption.
Qed.

Lemma valid_stack_skipn :
  forall n states,
    valid_stack states = true -> valid_stack (skipn n states) = true.
Proof.
  induction n as [|n IH]; intros [|s below] H; cbn [skipn]; try assumption.
  apply IH. cbn [valid_stack] in H. apply andb_true_iff in H as [_ H].
  assumption.
Qed.

Lemma valid_stack_no_start :
  forall states, valid_stack states = true -> ~ In start_state states.
Proof.
  induction states as [|s below IH]; intros H Hin; [destruct Hin|].
  cbn [valid_stack] in H. apply andb_true_iff in H as [He H].
  destruct Hin as [->|Hin]; [|exact (IH H Hin)].
  rewrite no_edge_to_start in He by reflexivity. discriminate.
Qed.

Lemma valid_stack_29 :
  forall below, valid_stack (29 :: below) = true -> below = [].
Proof.
  intros below H. pose proof (valid_stack_no_start _ H) as Hno.
  cbn [valid_stack] in H. apply andb_true_iff in H as [He _].
  apply edge_to_29 in He. destruct below as [|b below]; [reflexivity|].
  cbn [hd] in He. subst b. exfalso. apply Hno. cbn. auto.
Qed.

Lemma edge_preds : forall a s, edge a s = true -> In a (preds s).
Proof.
  intros a s H. unfold preds. apply filter_In. split; [|assumption].
  unfold edge in H. do 3 (apply andb_true_iff in H as [H _]).
  apply Nat.ltb_lt in H. apply in_all_states. assumption.
Qed.

(** The state uncovered by popping [j] entries is among the states [j]
    entries below the top. *)
Lemma back_sound :
  forall j states l,
    valid_stack states = true ->
    In (hd start_state states) l ->
    j <= length states ->
    In (hd start_state (skipn j states)) (back j l).
Proof.
  induction j as [|j IH]; intros states l Hvalid Hin Hj; [assumption|].
  destruct states as [|s below]; [cbn in Hj; lia|].
  cbn [skipn back]. cbn [valid_stack] in Hvalid.
  apply andb_true_iff in Hvalid as [He Hvalid].
  apply IH; [assumption| |cbn [length] in Hj; lia].
  apply nodup_In. apply in_flat_map. exists s.
  split; [assumption | apply edge_preds; assumption].
Qed.

Lemma stack_deep_enough :
  forall states n,
    valid_stack states = true ->
    forallb (fun j => negb (mem start_state (back j [hd start_state states])))
            (seq 0 n) = true ->
    n <= length states.
Proof.
  intros states n Hvalid Hcheck.
  destruct (Nat.le_gt_cases n (length states)) as [Hle|Hgt]; [assumption|].
  exfalso. rewrite forallb_forall in Hcheck.
  specialize (Hcheck (length states)).
  assert (Hin : In (length states) (seq 0 n)) by (apply in_seq; lia).
  specialize (Hcheck Hin). apply negb_true_iff in Hcheck.
  assert (Hmem : mem start_state (back (length states) [hd start_state states]) = true).
  { apply mem_In.
    pose proof (back_sound (length states) states [hd start_state states]
                           Hvalid (or_introl eq_refl) (Nat.le_refl _)) as H.
    rewrite skipn_all in H. exact H. }
  congruence.
Qed.

Lemma unwind_spec :
  forall stack wrapped,
    exists k,
      k <= length stack
      /\ unwind stack wrapped
         = (rev (map snd (firstn k stack)) ++ wrapped, skipn k stack)
      /\ is_statement_boundary (top_state (skipn k stack)) = true
      /\ (is_statement_boundary (top_state stack) = false -> 1 <= k).
Proof.
  intros stk. induction stk as [|[s n] below IH]; intros wrapped.
  - exists 0. cbn. repeat split; auto. intros H. discriminate.
  - cbn [unwind]. destruct (is_statement_boundary s) eqn:Hb.
    + exists 0. cbn [firstn skipn map rev app top_state length].
      repeat split; auto; [lia | congruence].
    + destruct (IH (n :: wrapped)) as (k & Hk & Heq & Hbound & _).
      exists (S k). cbn [firstn skipn map rev length snd].
      rewrite Heq, <- app_assoc. cbn [app].
      repeat split; auto; lia.
Qed.

(** ** Resynchronisation *)

Lemma leaf_of_fits :
  forall input offset t,
    ws_between input offset (token_start t) = true ->
    token_start t <= token_end t <= length input ->
    well_ranged input (leaf_of t) = true
    /\ gaps_ok input offset [leaf_of t] (token_end t) = true.
Proof.
  intros input offset t Hws [H1 H2]. unfold leaf_of.
  cbn [well_ranged gaps_ok node_start node_end].
  rewrite Hws, (proj2 (Nat.leb_le _ _) H1), (proj2 (Nat.leb_le _ _) H2).
  rewrite ws_between_refl by assumption. auto.
Qed.

(** The scan always finds its synchronising token: it ends behind a [;]
    or where whitespace alone is left.  What it skipped lies in order behind
    the starting offset. *)
Lemma resynchronize_spec :
  forall input fuel offset skipped,
    offset <= length input ->
    length input - offset < fuel ->
    exists found offset',
      resynchronize input fuel offset skipped = Some (skipped ++ found, offset')
      /\ offset <= offset' <= length input
      /\ forallb (well_ranged input) found = true
      /\ gaps_ok input offset found offset' = true
      /\ (offset' = offset -> ws_between input offset (length input) = true).
Proof.
  intros input fuel. induction fuel as [|fuel IH]; intros offset skipped Hoff Hfuel;
    [lia|].
  cbn [resynchronize].
  assert (Hmode : In (lex_mode 0) entry_states) by (cbn; auto).
  destruct (next_token_spec input offset (lex_mode 0) Hmode Hoff)
    as [(t & -> & Hkind & Hws & Hrange & Hne & Heof)
       |(at_offset & -> & Hws & Hat)].
  - destruct (leaf_of_fits _ _ _ Hws Hrange) as [Hleaf Hgap].
    pose proof (ws_between_bounds _ _ _ Hws) as [Hstart _].
    destruct (Nat.eqb_spec (kind t) ts_builtin_sym_end) as [Hend|Hnend].
    + exists [], offset. rewrite app_nil_r.
      split; [reflexivity|]. split; [lia|]. split; [reflexivity|].
      cbn [gaps_ok]. rewrite ws_between_refl by assumption.
      split; [reflexivity|]. intros _. rewrite <- (Heof Hend). assumption.
    + specialize (Hne Hnend).
      destruct (kind t =? anon_sym_SEMI).
      * exists [leaf_of t], (token_end t).
        split; [reflexivity|]. split; [lia|].
        split; [cbn [forallb]; rewrite Hleaf; reflexivity|].
        split; [assumption|]. lia.
      * destruct (IH (token_end t) (skipped ++ [leaf_of t]))
          as (found & offset' & -> & Hoff' & Hwf & Hgaps & _); [lia | lia|].
        exists (leaf_of t :: found), offset'.
        rewrite <- app_assoc. split; [reflexivity|]. split; [lia|].
        split; [cbn [forallb]; rewrite Hleaf, Hwf; reflexivity|].
        split; [|lia].
        change (leaf_of t :: found) with ([leaf_of t] ++ found).
        eapply gaps_ok_concat; eassumption.
  - assert (Hlt : at_offset < length input) by (apply Hat; discriminate).
    pose proof (ws_between_bounds _ _ _ Hws) as [Hstart _].
    destruct (IH (S at_offset) (skipped ++ [Error [] at_offset (S at_offset)]))
      as (found & offset' & -> & Hoff' & Hwf & Hgaps & _); [lia | lia|].
    exists (Error [] at_offset (S at_offset) :: found), offset'.
    rewrite <- app_assoc. split; [reflexivity|]. split; [lia|].
    assert (Hbyte : well_ranged input (Error [] at_offset (S at_offset)) = true).
    { cbn [well_ranged forallb].
      rewrite (proj2 (Nat.leb_le _ _) (Nat.le_succ_diag_r at_offset)).
      rewrite (proj2 (Nat.leb_le (S at_offset) _) Hlt). reflexivity. }
    split; [cbn [forallb]; rewrite Hbyte, Hwf; reflexivity|].
    split; [|lia].
    cbn [gaps_ok node_start node_end]. rewrite Hws, Hgaps.
    rewrite (proj2 (Nat.leb_le _ _) (Nat.le_succ_diag_r at_offset)).
    reflexivity.
Qed.

(** ** One turn of the engine *)

Lemma stack_nodes_split :
  forall (stack : Stack) k,
    rev (map snd stack)
    = rev (map snd (skipn k stack)) ++ rev (map snd (firstn k stack)).
Proof.
  intros stack k. rewrite <- rev_app_distr, <- map_app, firstn_skipn.
  reflexivity.
Qed.

(** Replacing the [k] topmost nodes by one node that takes their place. *)
Lemma stack_replace :
  forall input (stack : Stack) k pos pos' node s',
    gaps_ok input 0 (rev (map snd stack)) pos = true ->
    forallb (well_ranged input) (map snd stack) = true ->
    (forall m,
        m <= pos ->
        forallb (well_ranged input) (rev (map snd (firstn k stack))) = true ->
        gaps_ok input m (rev (map snd (firstn k stack))) pos = true ->
        well_ranged input node = true
        /\ gaps_ok input m [node] pos' = true) ->
    gaps_ok input 0 (rev (map snd ((s', node) :: skipn k stack))) pos' = true
    /\ forallb (well_ranged input) (map snd ((s', node) :: skipn k stack)) = true.
Proof.
  intros input stack k pos pos' node s' Hgaps Hwf Hnode.
  rewrite (stack_nodes_split stack k) in Hgaps.
  destruct (gaps_ok_split _ _ _ _ _ Hgaps) as [HA Hpopped].
  pose proof (gaps_ok_bounds _ _ _ _ Hpopped) as (Hm & _ & _).
  rewrite <- (firstn_skipn k (map snd stack)), forallb_app in Hwf.
  apply andb_true_iff in Hwf as [Hwf1 Hwf2].
  rewrite firstn_map in Hwf1. rewrite skipn_map in Hwf2.
  assert (Hwf1' : forallb (well_ranged input) (rev (map snd (firstn k stack))) = true).
  { rewrite forallb_forall in *. intros x Hx. apply Hwf1. apply in_rev. assumption. }
  assert (Hle : last_end 0 (rev (map snd (skipn k stack))) <= pos).
  { pose proof (gaps_ok_bounds _ _ _ _ Hpopped). lia. }
  destruct (Hnode _ Hle Hwf1' Hpopped) as [Hn Hg].
  cbn [map snd rev forallb]. rewrite Hn, Hwf2.
  split; [|reflexivity].
  eapply gaps_ok_concat; eassumption.
Qed.

Lemma measure_unfold :
  forall input p,
    measure input p
    = 20 * (length input - position p)
      + 2 * (4 * length (stack p) + rank (top_state (stack p)))
      + match lookahead p with None => 1 | Some _ => 0 end.
Proof.
  intros input p. unfold measure, stack_weight.
  rewrite length_map, <- top_state_map. reflexivity.
Qed.

Lemma good_top_lt :
  forall input p, good input p -> top_state (stack p) < STATE_COUNT.
Proof.
  intros input p [(_ & Hvalid & _) _]. rewrite top_state_map.
  apply valid_stack_hd. assumption.
Qed.

Lemma valid_stack_push :
  forall (stack : Stack) s' symbol node,
    valid_stack (map fst stack) = true ->
    s' < STATE_COUNT -> s' <> 0 -> symbol < SYMBOL_COUNT ->
    transition (top_state stack) symbol = s' ->
    valid_stack (map fst ((s', node) :: stack)) = true.
Proof.
  intros stack s' symbol node Hvalid Hlt Hne Hsym Htrans.
  change (valid_stack (map fst ((s', node) :: stack)))
    with (edge (hd start_state (map fst stack)) s'
          && valid_stack (map fst stack)).
  rewrite Hvalid, andb_true_r.
  rewrite <- top_state_map. unfold edge.
  assert (Htop : top_state stack < STATE_COUNT).
  { rewrite top_state_map. apply valid_stack_hd. assumption. }
  rewrite (proj2 (Nat.ltb_lt _ _) Htop), (proj2 (Nat.ltb_lt _ _) Hlt).
  rewrite (proj2 (Nat.eqb_neq _ _) Hne). cbn [andb negb].
  apply existsb_exists. exists symbol. split.
  - unfold all_symbols. apply in_seq. lia.
  - apply Nat.eqb_eq. assumption.
Qed.

Lemma lookahead_facts :
  forall input p t,
    good input p -> lookahead p = Some t ->
    kind t < TOKEN_COUNT
    /\ ws_between input (position p) (token_start t) = true
    /\ token_start t <= token_end t <= length input
    /\ (kind t <> ts_builtin_sym_end -> token_start t < token_end t)
    /\ (kind t = ts_builtin_sym_end ->
        ws_between input (position p) (length input) = true)
    /\ (ws_between input (position p) (length input) = true ->
        kind t = ts_builtin_sym_end).
Proof.
  intros input p t [(Hpos & _ & Hla & _) _] Hlook. rewrite Hlook in Hla.
  destruct Hla as (mode & Hmode & Hlex).
  destruct (next_token_spec input (position p) mode Hmode Hpos)
    as [(t' & Hlex' & Hkind & Hws & Hrange & Hne & Heof)
       |(at_offset & Hlex' & _)]; [|congruence].
  assert (t' = t) by congruence. subst t'.
  repeat split; try assumption; try lia.
  - intros Hend. rewrite <- (Heof Hend). assumption.
  - intros Hrest. rewrite (next_token_at_end _ _ _ Hmode Hrest) in Hlex.
    destruct (mode =? 1); [discriminate|]. injection Hlex as <-. reflexivity.
Qed.

(** Error recovery succeeds and makes progress whenever the configuration
    is one in which an error can arise: with only whitespace left, the top
    state is no statement boundary. *)
Lemma recover_ok :
  forall input p,
    good input p ->
    (ws_between input (position p) (length input) = true ->
     is_statement_boundary (top_state (stack p)) = false
     /\ 2 <= rank (top_state (stack p))) ->
    exists p',
      recover input p = Continue p'
      /\ good input p'
      /\ measure input p' < measure input p.
Proof.
  intros input p Hgood Hquiet.
  pose proof Hgood as [(Hpos & Hvalid & Hla & H29) (Hgaps & Hwf)].
  unfold recover.
  destruct (unwind_spec (stack p) []) as (k & Hk & -> & Hbound & Hk1).
  rewrite app_nil_r.
  destruct (resynchronize_spec input (S (length input - position p))
                               (position p) [] Hpos (Nat.lt_succ_diag_r _))
    as (found & offset' & -> & Hoff & Hfwf & Hfgaps & Hsame).
  cbn [app].
  assert (Hvalid' : valid_stack (map fst (skipn k (stack p))) = true).
  { rewrite <- skipn_map. apply valid_stack_skipn. assumption. }
  assert (Hb : top_state (skipn k (stack p)) < STATE_COUNT).
  { rewrite top_state_map. apply valid_stack_hd. assumption. }
  destruct (boundary_facts _ Hb Hbound) as (G1 & G2 & G3 & G4 & _).
  rewrite (proj2 (Nat.eqb_neq _ _) G2).
  eexists. split; [reflexivity|]. split; [split|].
  - (* the invariant *)
    unfold parser_inv. cbn [position stack lookahead top_state].
    split; [lia|]. split.
    + eapply valid_stack_push with (symbol := sym__statement); try assumption.
      * unfold sym__statement, SYMBOL_COUNT. lia.
      * reflexivity.
    + split; [exact I | intros Heq; contradiction].
  - (* the nodes *)
    unfold stack_tiles. cbn [position stack].
    apply (stack_replace input (stack p) k (position p)); try assumption.
    intros m Hm Hpwf Hpgaps.
    apply error_node_fits; try lia.
    + rewrite forallb_app, Hpwf, Hfwf. reflexivity.
    + eapply gaps_ok_concat; eassumption.
  - (* the measure *)
    rewrite !measure_unfold. cbn [position stack lookahead top_state length].
    rewrite length_skipn.
    destruct (Nat.eq_dec offset' (position p)) as [Heq|Hneq].
    + destruct (Hquiet (Hsame Heq)) as [Hnb Hrank].
      specialize (Hk1 Hnb). rewrite Heq.
      destruct (lookahead p); lia.
    + pose proof (rank_le_5 (top_state (stack p))).
      destruct (lookahead p); lia.
Qed.

Lemma reduce_ok_step :
  forall input p t symbol n id,
    good input p ->
    lookahead p = Some t ->
    parse_action (top_state (stack p)) (kind t) = Some (Reduce symbol n id) ->
    exists p',
      reduce p symbol n id = Continue p'
      /\ good input p'
      /\ measure input p' < measure input p.
Proof.
  intros input p t symbol n id Hgood Hlook Hact.
  pose proof Hgood as [(Hpos & Hvalid & Hla & H29) (Hgaps & Hwf)].
  pose proof (good_top_lt _ _ Hgood) as Htop.
  destruct (table_cell_ok _ (kind t) Htop) as (_ & Hred & _).
  unfold reduce_ok in Hred. rewrite Hact in Hred.
  apply andb_true_iff in Hred as [Hred Hback].
  apply andb_true_iff in Hred as [Hred Hdepth].
  apply andb_true_iff in Hred as [Hsym1 Hsym2].
  apply Nat.leb_le in Hsym1. apply Nat.ltb_lt in Hsym2.
  rewrite top_state_map in Hdepth, Hback.
  pose proof (stack_deep_enough _ _ Hvalid Hdepth) as Hn.
  rewrite length_map in Hn.
  assert (Hin : In (top_state (skipn n (stack p)))
                   (back n [hd start_state (map fst (stack p))])).
  { rewrite top_state_map, <- skipn_map.
    apply back_sound; [assumption | left; reflexivity |].
    rewrite length_map. assumption. }
  rewrite forallb_forall in Hback. specialize (Hback _ Hin). cbn zeta in Hback.
  apply andb_true_iff in Hback as [Hback Hend].
  apply andb_true_iff in Hback as [Hback Hrank].
  apply andb_true_iff in Hback as [Hlt Hne].
  apply Nat.ltb_lt in Hlt, Hrank. apply negb_true_iff in Hne.
  unfold reduce. rewrite (proj2 (Nat.leb_le _ _) Hn), Hne.
  assert (Hvalid' : valid_stack (map fst (skipn n (stack p))) = true).
  { rewrite <- skipn_map. apply valid_stack_skipn. assumption. }
  eexists. split; [reflexivity|]. split; [split|].
  - unfold parser_inv. cbn [position stack lookahead top_state].
    split; [assumption|]. split.
    + eapply valid_stack_push with (symbol := symbol); try assumption.
      * apply Nat.eqb_neq. assumption.
      * unfold transition.
        rewrite (proj2 (Nat.ltb_ge _ _) Hsym1). reflexivity.
    + split; [assumption|]. intros H29'. exists t. split; [assumption|].
      rewrite H29' in Hend. cbn [Nat.eqb negb orb] in Hend.
      apply Nat.eqb_eq. assumption.
  - unfold stack_tiles. cbn [position stack].
    apply (stack_replace input (stack p) n (position p)); try assumption.
    intros m Hm Hpwf Hpgaps.
    rewrite <- map_rev in *.
    apply build_node_fits; try assumption; lia.
  - rewrite !measure_unfold. cbn [position stack lookahead top_state length].
    rewrite length_skipn. rewrite !top_state_map in *.
    destruct (lookahead p); lia.
Qed.

Lemma shift_ok_step :
  forall input p t next_state repetition,
    good input p ->
    lookahead p = Some t ->
    parse_action (top_state (stack p)) (kind t)
    = Some (Shift next_state repetition) ->
    let p' := mkParser ((next_state, leaf_of t) :: stack p) (token_end t) None
                       (history p ++ [Shift next_state false]) in
    good input p' /\ measure input p' < measure input p.
Proof.
  intros input p t next_state repetition Hgood Hlook Hact p'.
  pose proof Hgood as [(Hpos & Hvalid & Hla & H29) (Hgaps & Hwf)].
  pose proof (good_top_lt _ _ Hgood) as Htop.
  destruct (table_cell_ok _ (kind t) Htop) as (Hshift & _ & _).
  unfold shift_ok in Hshift. rewrite Hact in Hshift.
  apply andb_true_iff in Hshift as [Hshift Hnend].
  apply andb_true_iff in Hshift as [Hshift Hn29].
  apply andb_true_iff in Hshift as [Hlt Hne].
  apply Nat.ltb_lt in Hlt. apply negb_true_iff in Hne, Hn29, Hnend.
  apply Nat.eqb_neq in Hne, Hn29, Hnend.
  destruct (lookahead_facts _ _ _ Hgood Hlook)
    as (Hkind & Hws & Hrange & Hlen & _ & _).
  specialize (Hlen Hnend).
  pose proof (ws_between_bounds _ _ _ Hws) as [Hstart _].
  split; [split|].
  - unfold parser_inv, p'. cbn [position stack lookahead top_state].
    split; [lia|]. split.
    + eapply valid_stack_push with (symbol := kind t); try assumption.
      * unfold TOKEN_COUNT, SYMBOL_COUNT in *. lia.
      * unfold transition. rewrite (proj2 (Nat.ltb_lt _ _) Hkind), Hact.
        reflexivity.
    + split; [exact I | intros Heq; contradiction].
  - unfold stack_tiles, p'. cbn [position stack].
    replace (stack p) with (skipn 0 (stack p)) at 1 2 by reflexivity.
    apply (stack_replace input (stack p) 0 (position p)); try assumption.
    intros m Hm _ Hpgaps. cbn [firstn map rev gaps_ok] in Hpgaps.
    destruct (leaf_of_fits _ _ _ Hws Hrange) as [Hleaf Hgap].
    split; [assumption|].
    eapply gaps_ok_extend_left; eassumption.
  - rewrite !measure_unfold. unfold p'.
    cbn [position stack lookahead top_state length]. rewrite Hlook.
    pose proof (rank_le_5 next_state). lia.
Qed.

Lemma accept_ok_step :
  forall input p t,
    good input p ->
    lookahead p = Some t ->
    parse_action (top_state (stack p)) (kind t) = Some Accept ->
    exists root,
      stack p = [(29, root)]
      /\ well_ranged input root = true
      /\ gaps_ok input 0 [root] (length input) = true.
Proof.
  intros input p t Hgood Hlook Hact.
  pose proof Hgood as [(Hpos & Hvalid & Hla & H29) (Hgaps & Hwf)].
  pose proof (good_top_lt _ _ Hgood) as Htop.
  destruct (table_cell_ok _ (kind t) Htop) as (_ & _ & Hacc).
  unfold accept_ok in Hacc. rewrite Hact in Hacc. apply Nat.eqb_eq in Hacc.
  destruct (H29 Hacc) as (t' & Hlook' & Hend).
  assert (t' = t) by congruence. subst t'.
  destruct (lookahead_facts _ _ _ Hgood Hlook) as (_ & _ & _ & _ & Hrest & _).
  specialize (Hrest Hend).
  destruct (stack p) as [|[s root] below] eqn:Hstack; [discriminate Hacc|].
  cbn [top_state] in Hacc. subst s.
  cbn [map fst] in Hvalid. apply valid_stack_29 in Hvalid.
  destruct below; [|discriminate]. exists root.
  cbn [map snd rev app forallb] in *.
  apply andb_true_iff in Hwf as [Hwf _].
  repeat split; try assumption.
  eapply gaps_ok_extend_right; eassumption.
Qed.

(** Every turn of the loop either accepts or continues in a good
    configuration of smaller measure. *)
Lemma parser_step_ok :
  forall input p,
    good input p ->
    (exists p',
        parser_step input p = Continue p'
        /\ good input p' /\ measure input p' < measure input p)
    \/ (exists root actions,
           parser_step input p = Accepted root actions
           /\ well_ranged input root = true
           /\ gaps_ok input 0 [root] (length input) = true).
Proof.
  intros input p Hgood.
  pose proof Hgood as [(Hpos & Hvalid & Hla & H29) (Hgaps & Hwf)].
  pose proof (good_top_lt _ _ Hgood) as Htop.
  unfold parser_step.
  destruct (lookahead p) as [t|] eqn:Hlook.
  - destruct (lookahead_facts _ _ _ Hgood Hlook)
      as (Hkind & Hws & Hrange & Hlen & _ & Hrest).
    assert (Herror :
              parse_action (top_state (stack p)) (kind t) = None
              \/ parse_action (top_state (stack p)) (kind t) = Some Recover ->
              exists p',
                recover input p = Continue p'
                /\ good input p' /\ measure input p' < measure input p).
    { intros Hnone. apply recover_ok; [assumption|]. intros Hquiet.
      specialize (Hrest Hquiet). rewrite Hrest in Hnone.
      destruct (is_statement_boundary (top_state (stack p))) eqn:Hb.
      - destruct (boundary_facts _ Htop Hb) as (_ & _ & _ & _ & _ & G6 & G7).
        tauto.
      - split; [reflexivity|]. apply non_boundary_rank; try assumption.
        intros Heq. rewrite Heq in Hnone.
        destruct Hnone as [Hnone|Hnone]; vm_compute in Hnone; discriminate. }
    destruct (parse_action (top_state (stack p)) (kind t))
      as [[next_state repetition|symbol n id| |]|] eqn:Hact.
    + left. eexists. split; [reflexivity|].
      apply (shift_ok_step input p t next_state repetition); assumption.
    + left. eapply reduce_ok_step; eassumption.
    + left. apply Herror. auto.
    + right. destruct (accept_ok_step _ _ _ Hgood Hlook Hact)
        as (root & -> & Hroot & Hcover).
      eexists _, _. split; [reflexivity|]. split; assumption.
    + left. apply Herror. auto.
  - assert (Hmode := lex_mode_entry _ Htop).
    destruct (next_token_spec input (position p) _ Hmode Hpos)
      as [(t & Hlex & _)|(at_offset & Hlex & _ & _)]; rewrite Hlex.
    + left. eexists. split; [reflexivity|]. split; [split|].
      * unfold parser_inv. cbn [position stack lookahead].
        split; [assumption|]. split; [assumption|]. split.
        -- exists (lex_mode (top_state (stack p))). split; assumption.
        -- intros Heq. destruct (H29 Heq) as (t' & Hcontra & _). congruence.
      * exact (conj Hgaps Hwf).
      * rewrite !measure_unfold. cbn [position stack lookahead]. rewrite Hlook.
        lia.
    + left. apply recover_ok; [assumption|]. intros Hquiet.
      rewrite (next_token_at_end _ _ _ Hmode Hquiet) in Hlex.
      destruct (Nat.eqb_spec (lex_mode (top_state (stack p))) 1) as [Hm|Hm];
        [|discriminate].
      destruct (is_statement_boundary (top_state (stack p))) eqn:Hb.
      * destruct (boundary_facts _ Htop Hb) as (_ & _ & _ & _ & G5 & _).
        contradiction.
      * split; [reflexivity|]. apply non_boundary_rank; try assumption.
        intros Heq. destruct (H29 Heq) as (t' & Hcontra & _). congruence.
Qed.

(** ** The whole parse *)

Lemma run_ok :
  forall input fuel p,
    good input p ->
    measure input p < fuel ->
    exists root actions,
      run input fuel p = Some (root, actions)
      /\ well_ranged input root = true
      /\ gaps_ok input 0 [root] (length input) = true.
Proof.
  intros input fuel. induction fuel as [|fuel IH]; intros p Hgood Hfuel; [lia|].
  rewrite run_unfold.
  destruct (parser_step_ok input p Hgood)
    as [(p' & -> & Hgood' & Hless)|(root & actions & -> & Hroot & Hcover)].
  - apply IH; [assumption | lia].
  - eauto.
Qed.

Lemma initial_good : forall input, good input (mkParser [] 0 None []).
Proof.
  intros input. split.
  - unfold parser_inv. cbn [position stack lookahead top_state map valid_stack].
    split; [lia|]. split; [reflexivity|]. split; [exact I|].
    intros H. discriminate.
  - unfold stack_tiles. cbn [position stack map rev gaps_ok forallb].
    split; [|reflexivity]. apply ws_between_refl. lia.
Qed.

(** ** The root *)

(** Only [program] leads into the accepting state. *)
Lemma goto_29_program :
  forallb (fun s =>
             forallb (fun symbol =>
                        negb (goto s symbol =? 29) || (symbol =? sym_program))
                     all_symbols)
          all_states = true.
Proof. vm_compute. reflexivity. Qed.

Lemma root_inv_push :
  forall stack state n,
    root_inv stack ->
    (state = 29 -> is_program n = true) ->
    root_inv ((state, n) :: stack).
Proof.
  intros stack state n Hinv Hn s m [Heq|Hin] Hs.
  - injection Heq as <- <-. auto.
  - eapply Hinv; eassumption.
Qed.

Lemma root_inv_skipn :
  forall k stack, root_inv stack -> root_inv (skipn k stack).
Proof.
  intros k stack Hinv s m Hin. apply (Hinv s m).
  rewrite <- (firstn_skipn k stack). apply in_or_app. right. assumption.
Qed.

Lemma reduce_root :
  forall input p t symbol n id p',
    good input p ->
    lookahead p = Some t ->
    parse_action (top_state (stack p)) (kind t) = Some (Reduce symbol n id) ->
    reduce p symbol n id = Continue p' ->
    root_inv (stack p) ->
    root_inv (stack p').
Proof.
  intros input p t symbol n id p' Hgood Hlook Hact Hred Hinv.
  pose proof Hgood as [(_ & Hvalid & _) _].
  pose proof (good_top_lt _ _ Hgood) as Htop.
  destruct (table_cell_ok _ (kind t) Htop) as (_ & Hok & _).
  unfold reduce_ok in Hok. rewrite Hact in Hok.
  do 2 (apply andb_true_iff in Hok as [Hok _]).
  apply andb_true_iff in Hok as [_ Hsym]. apply Nat.ltb_lt in Hsym.
  unfold reduce in Hred.
  destruct (n <=? length (stack p)); [|discriminate].
  destruct (goto (top_state (skipn n (stack p))) symbol =? 0); [discriminate|].
  injection Hred as <-. cbn [stack].
  apply root_inv_push; [apply root_inv_skipn; assumption|].
  intros H29. unfold build_node, is_program.
  assert (Hb : top_state (skipn n (stack p)) < STATE_COUNT).
  { rewrite top_state_map, <- skipn_map.
    apply valid_stack_hd, valid_stack_skipn. assumption. }
  pose proof (proj1 (forallb_forall _ _) goto_29_program _ (in_all_states _ Hb))
    as Hrow.
  cbv beta in Hrow.
  assert (Hin : In symbol all_symbols) by (apply in_seq; lia).
  pose proof (proj1 (forallb_forall _ _) Hrow _ Hin) as Hcell.
  cbv beta in Hcell. rewrite H29 in Hcell. exact Hcell.
Qed.

Lemma recover_root :
  forall input p p',
    good input p ->
    recover input p = Continue p' ->
    root_inv (stack p) ->
    root_inv (stack p').
Proof.
  intros input p p' Hgood Hrec Hinv.
  pose proof Hgood as [(_ & Hvalid & _) _].
  unfold recover in Hrec.
  destruct (unwind_spec (stack p) []) as (k & _ & Hun & Hbound & _).
  rewrite Hun in Hrec.
  destruct (resynchronize input _ (position p) []) as [[skipped offset]|];
    [|discriminate].
  destruct (goto (top_state (skipn k (stack p))) sym__statement =? 0);
    [discriminate|].
  injection Hrec as <-. cbn [stack].
  apply root_inv_push; [apply root_inv_skipn; assumption|].
  intros H29. exfalso.
  assert (Hb : top_state (skipn k (stack p)) < STATE_COUNT).
  { rewrite top_state_map, <- skipn_map.
    apply valid_stack_hd, valid_stack_skipn. assumption. }
  destruct (boundary_facts _ Hb Hbound) as (_ & _ & G3 & _). contradiction.
Qed.

(** A turn of the loop keeps [program] nodes, and nothing else, under the
    accepting state; the root it accepts is one of them. *)
Lemma parser_step_root :
  forall input p,
    good input p ->
    root_inv (stack p) ->
    match parser_step input p with
    | Continue p' => root_inv (stack p')
    | Accepted root _ => is_program root = true
    | Failed => True
    end.
Proof.
  intros input p Hgood Hinv.
  pose proof (good_top_lt _ _ Hgood) as Htop.
  unfold parser_step.
  destruct (lookahead p) as [t|] eqn:Hlook.
  - destruct (parse_action (top_state (stack p)) (kind t))
      as [[next_state repetition|symbol n id| |]|] eqn:Hact.
    + cbn [stack]. apply root_inv_push; [assumption|].
      intros H29. exfalso.
      destruct (table_cell_ok _ (kind t) Htop) as (Hok & _).
      unfold shift_ok in Hok. rewrite Hact in Hok.
      apply andb_true_iff in Hok as [Hok _].
      apply andb_true_iff in Hok as [_ Hok].
      rewrite H29 in Hok. discriminate.
    + destruct (reduce p symbol n id) as [p'| |] eqn:Hred.
      * eapply reduce_root; eassumption.
      * unfold reduce in Hred.
        destruct (n <=? length (stack p)); [|discriminate].
        destruct (goto (top_state (skipn n (stack p))) symbol =? 0);
          discriminate.
      * exact I.
    + destruct (recover input p) as [p'| |] eqn:Hrec.
      * eapply recover_root; eassumption.
      * unfold recover in Hrec. destruct (unwind (stack p) []).
        destruct (resynchronize input _ (position p) []) as [[? ?]|];
          [|discriminate].
        destruct (goto (top_state s) sym__statement =? 0); discriminate.
      * exact I.
    + destruct (accept_ok_step _ _ _ Hgood Hlook Hact) as (root & Hstack & _).
      rewrite Hstack. apply (Hinv 29 root); [|reflexivity].
      rewrite Hstack. left. reflexivity.
    + destruct (recover input p) as [p'| |] eqn:Hrec.
      * eapply recover_root; eassumption.
      * unfold recover in Hrec. destruct (unwind (stack p) []).
        destruct (resynchronize input _ (position p) []) as [[? ?]|];
          [|discriminate].
        destruct (goto (top_state s) sym__statement =? 0); discriminate.
      * exact I.
  - destruct (next_token input (position p) (lex_mode (top_state (stack p))))
      as [[t|at_offset]|].
    + assumption.
    + destruct (recover input p) as [p'| |] eqn:Hrec.
      * eapply recover_root; eassumption.
      * unfold recover in Hrec. destruct (unwind (stack p) []).
        destruct (resynchronize input _ (position p) []) as [[? ?]|];
          [|discriminate].
        destruct (goto (top_state s) sym__statement =? 0); discriminate.
      * exact I.
    + exact I.
Qed.

Lemma run_root :
  forall input fuel p root actions,
    good input p ->
    root_inv (stack p) ->
    run input fuel p = Some (root, actions) ->
    is_program root = true.
Proof.
  intros input fuel. induction fuel as [|fuel IH];
    intros p root actions Hgood Hinv Hrun; [discriminate|].
  rewrite run_unfold in Hrun.
  pose proof (parser_step_root input p Hgood Hinv) as Hroot.
  destruct (parser_step_ok input p Hgood)
    as [(p' & Hstep & Hgood' & _)|(root' & actions' & Hstep & _)];
    rewrite Hstep in Hrun, Hroot.
  - eapply IH; eassumption.
  - injection Hrun as <- <-. assumption.
Qed.

Lemma initial_root_inv : root_inv [].
Proof. intros state n []. Qed.

(** ** The parse of an arbitrary input *)

(** The loop reaches the accept within its bound, whatever the input. *)
Lemma parse_with_history_ok :
  forall input,
    exists root actions,
      parse_with_history input = Some (root, actions)
      /\ is_program root = true
      /\ well_ranged input root = true
      /\ gaps_ok input 0 [root] (length input) = true.
Proof.
  intros input. unfold parse_with_history.
  destruct (run_ok input (parse_fuel input) (mkParser [] 0 None [])
                   (initial_good input))
    as (root & actions & Hrun & Hwf & Hcover).
  - rewrite measure_unfold. cbn [position stack lookahead top_state length].
    unfold parse_fuel. change (rank start_state) with 5. lia.
  - exists root, actions. split; [assumption|]. split; [|split; assumption].
    eapply run_root; [apply initial_good | apply initial_root_inv | eassumption].
Qed.

(** ** Error recovery *)

Lemma resynchronize_sync :
  forall input fuel offset skipped r offset',
    offset <= length input ->
    resynchronize input fuel offset skipped = Some (r, offset') ->
    exists found, r = skipped ++ found /\ synchronised input found offset'.
Proof.
  intros input fuel. induction fuel as [|fuel IH];
    intros offset skipped r offset' Hoff Hres; [discriminate|].
  cbn [resynchronize] in Hres.
  assert (Hmode : In (lex_mode 0) entry_states) by (cbn; auto).
  destruct (next_token_spec input offset (lex_mode 0) Hmode Hoff)
    as [(t & Hlex & Hkind & Hws & Hrange & Hne & Heof)
       |(at_offset & Hlex & Hws & Hat)]; rewrite Hlex in Hres.
  - destruct (Nat.eqb_spec (kind t) ts_builtin_sym_end) as [Hend|Hnend].
    + injection Hres as <- <-. exists []. rewrite app_nil_r.
      split; [reflexivity|]. right. split; [reflexivity|].
      rewrite <- (Heof Hend). assumption.
    + destruct (Nat.eqb_spec (kind t) anon_sym_SEMI) as [Hsemi|Hnsemi].
      * injection Hres as <- <-. exists [leaf_of t].
        split; [reflexivity|]. left. exists [], (token_start t).
        split; [|reflexivity]. unfold leaf_of. rewrite Hsemi. reflexivity.
      * destruct (IH _ _ _ _ (proj2 Hrange) Hres)
          as (found & -> & Hsync).
        exists (leaf_of t :: found). rewrite <- app_assoc.
        split; [reflexivity|].
        assert (Hleaf : is_semicolon (leaf_of t) = false)
          by (cbn [leaf_of is_semicolon]; apply Nat.eqb_neq; assumption).
        destruct Hsync as [(before & a & -> & Hbefore)|[Hnone Hrest]].
        -- left. exists (leaf_of t :: before), a.
           split; [reflexivity|]. cbn [existsb]. rewrite Hleaf. assumption.
        -- right. split; [|assumption].
           cbn [existsb]. rewrite Hleaf. assumption.
  - assert (Hlt : at_offset < length input) by (apply Hat; discriminate).
    destruct (IH _ _ _ _ Hlt Hres) as (found & -> & Hsync).
    exists (Error [] at_offset (S at_offset) :: found). rewrite <- app_assoc.
    split; [reflexivity|].
    destruct Hsync as [(before & a & -> & Hbefore)|[Hnone Hrest]].
    + left. exists (Error [] at_offset (S at_offset) :: before), a.
      split; [reflexivity|]. cbn [existsb is_semicolon orb]. assumption.
    + right. split; [|assumption]. cbn [existsb is_semicolon orb]. assumption.
Qed.

Lemma configuration_good :
  forall input n p, configuration input n = Some p -> good input p.
Proof.
  intros input. induction n as [|n IH]; intros p H.
  - cbn [configuration] in H. injection H as <-. apply initial_good.
  - cbn [configuration] in H.
    destruct (configuration input n) as [q|]; [|discriminate].
    specialize (IH q eq_refl).
    destruct (parser_step_ok input q IH)
      as [(p' & Hstep & Hgood & _)|(root & actions & Hstep & _)];
      rewrite Hstep in H; [|discriminate].
    injection H as <-. assumption.
Qed.

Lemma error_condition_recovers :
  forall input p,
    error_condition input p = true -> parser_step input p = recover input p.
Proof.
  intros input p H. unfold error_condition in H. unfold parser_step.
  destruct (lookahead p) as [t|].
  - destruct (parse_action (top_state (stack p)) (kind t)) as [[| | |]|];
      first [discriminate | reflexivity].
  - destruct (next_token input (position p) (lex_mode (top_state (stack p))))
      as [[t|at_offset]|]; first [discriminate | reflexivity].
Qed.

(** What error recovery does in a configuration of a parse. *)
Lemma recovery_shape :
  forall input p,
    good input p ->
    parser_step input p = recover input p ->
    exists wrapped below skipped offset,
      unwind (stack p) [] = (wrapped, below)
      /\ is_statement_boundary (top_state below) = true
      /\ resynchronize input (S (length input - position p)) (position p) []
         = Some (skipped, offset)
      /\ synchronised input skipped offset
      /\ gaps_ok input (position p) skipped offset = true
      /\ parser_step input p
         = Continue
             (mkParser ((goto (top_state below) sym__statement,
                         error_node (wrapped ++ skipped) (position p)) :: below)
                       offset None (history p ++ [Recover])).
Proof.
  intros input p Hgood Hstep.
  pose proof Hgood as [(Hpos & _) _].
  destruct (unwind_spec (stack p) []) as (k & _ & Hun & Hbound & _).
  destruct (resynchronize_spec input (S (length input - position p))
                               (position p) [] Hpos (Nat.lt_succ_diag_r _))
    as (found & offset & Hres & _ & _ & Hgaps & _).
  cbn [app] in Hres.
  destruct (resynchronize_sync _ _ _ _ _ _ Hpos Hres) as (found' & Heq & Hsync).
  cbn [app] in Heq. subst found'.
  exists (rev (map snd (firstn k (stack p))) ++ []), (skipn k (stack p)),
         found, offset.
  split; [assumption|]. split; [assumption|]. split; [assumption|].
  split; [assumption|]. split; [assumption|].
  rewrite Hstep. unfold recover. rewrite Hun, Hres.
  destruct (goto (top_state (skipn k (stack p))) sym__statement =? 0) eqn:Hgoto;
    [|reflexivity].
  exfalso.
  destruct (parser_step_ok input p Hgood)
    as [(p' & Hcont & _)|(root & actions & Hacc & _)];
    rewrite Hstep in *; unfold recover in *; rewrite Hun, Hres, Hgoto in *;
    discriminate.
Qed.

Lemma run_reaches_accept :
  forall input fuel m p root actions,
    configuration input m = Some p ->
    run input fuel p = Some (root, actions) ->
    exists n q,
      configuration input n = Some q
      /\ parser_step input q = Accepted root actions.
Proof.
  intros input. induction fuel as [|fuel IH]; intros m p root actions Hm Hrun;
    [discriminate|].
  rewrite run_unfold in Hrun.
  destruct (parser_step input p) as [p'|root' actions'|] eqn:Hstep.
  - apply (IH (S m) p'); [|assumption].
    cbn [configuration]. rewrite Hm, Hstep. reflexivity.
  - injection Hrun as <- <-. exists m, p. split; assumption.
  - discriminate.
Qed.

(** ** Error nodes and the history *)

Lemma has_error_expose :
  forall l, existsb has_error (flat_map expose l) = existsb has_error l.
Proof.
  induction l as [|n l IH]; [reflexivity|].
  cbn [flat_map]. rewrite existsb_app, IH. cbn [existsb]. f_equal.
  destruct n as [symbol a b|symbol id children a b|children a b];
    cbn [expose]; try (cbn [existsb]; apply orb_false_r).
  destruct (is_visible symbol); [cbn [existsb]; apply orb_false_r|reflexivity].
Qed.

Lemma existsb_rev :
  forall (A : Type) (f : A -> bool) l, existsb f (rev l) = existsb f l.
Proof.
  intros A f. induction l as [|x l IH]; [reflexivity|].
  cbn [rev existsb]. rewrite existsb_app, IH. cbn [existsb].
  rewrite orb_false_r. apply orb_comm.
Qed.

Lemma in_history_snoc :
  forall (history : list TSParseAction) a,
    a <> Recover -> (In Recover (history ++ [a]) <-> In Recover history).
Proof.
  intros history a Ha. rewrite in_app_iff. cbn [In]. intuition congruence.
Qed.

Lemma parser_step_errors :
  forall input p,
    errors_recorded p ->
    match parser_step input p with
    | Continue p' => errors_recorded p'
    | Accepted root actions => has_error root = true <-> In Recover actions
    | Failed => True
    end.
Proof.
  intros input p Hinv. unfold errors_recorded in *.
  assert (Hrecover :
            match recover input p with
            | Continue p' =>
                existsb has_error (map snd (stack p')) = true
                <-> In Recover (history p')
            | Accepted root actions => has_error root = true <-> In Recover actions
            | Failed => True
            end).
  { unfold recover. destruct (unwind (stack p) []) as [wrapped below].
    destruct (resynchronize input _ (position p) []) as [[skipped offset]|];
      [|exact I].
    destruct (goto (top_state below) sym__statement =? 0); [exact I|].
    cbn [stack history map snd existsb]. unfold error_node. cbn [has_error orb].
    split; intros _; [|reflexivity].
    apply in_or_app. right. left. reflexivity. }
  unfold parser_step.
  destruct (lookahead p) as [t|] eqn:Hlook.
  - destruct (parse_action (top_state (stack p)) (kind t))
      as [[next_state repetition|symbol n id| |]|] eqn:Hact.
    + cbn [stack history map snd existsb]. unfold leaf_of. cbn [has_error orb].
      rewrite in_history_snoc by discriminate. assumption.
    + unfold reduce. destruct (n <=? length (stack p)); [|exact I].
      destruct (goto (top_state (skipn n (stack p))) symbol =? 0); [exact I|].
      cbn [stack history map snd existsb]. rewrite in_history_snoc by discriminate.
      unfold build_node. cbn [has_error].
      rewrite has_error_expose, existsb_rev, <- existsb_app, <- map_app,
        firstn_skipn.
      assumption.
    + exact Hrecover.
    + destruct (stack p) as [|[s root] [|? ?]]; try exact I.
      cbn [map snd existsb] in Hinv. rewrite orb_false_r in Hinv.
      rewrite in_history_snoc by discriminate. assumption.
    + exact Hrecover.
  - destruct (next_token input (position p) (lex_mode (top_state (stack p))))
      as [[t|at_offset]|].
    + cbn [stack history]. assumption.
    + exact Hrecover.
    + exact I.
Qed.

Lemma run_errors :
  forall input fuel p root actions,
    errors_recorded p ->
    run input fuel p = Some (root, actions) ->
    (has_error root = true <-> In Recover actions).
Proof.
  intros input. induction fuel as [|fuel IH]; intros p root actions Hinv Hrun;
    [discriminate|].
  rewrite run_unfold in Hrun.
  pose proof (parser_step_errors input p Hinv) as Hstep.
  destruct (parser_step input p) as [p'|root' actions'|]; [| |discriminate].
  - eapply IH; eassumption.
  - injection Hrun as <- <-. assumption.
Qed.

Lemma initial_errors_recorded : errors_recorded (mkParser [] 0 None []).
Proof.
  unfold errors_recorded. cbn [stack history map existsb In].
  split; [discriminate | contradiction].
Qed.

Lemma quiet_step :
  forall input p,
    error_condition input p = false ->
    match parser_step input p with
    | Continue p' =>
        history p' = history p
        \/ exists a, a <> Recover /\ history p' = history p ++ [a]
    | Accepted _ actions => actions = history p ++ [Accept]
    | Failed => True
    end.
Proof.
  intros input p H. unfold error_condition in H. unfold parser_step.
  destruct (lookahead p) as [t|].
  - destruct (parse_action (top_state (stack p)) (kind t))
      as [[next_state repetition|symbol n id| |]|]; try discriminate.
    + cbn [history]. right. eexists. split; [|reflexivity]. discriminate.
    + unfold reduce. destruct (n <=? length (stack p)); [|exact I].
      destruct (goto (top_state (skipn n (stack p))) symbol =? 0); [exact I|].
      cbn [history]. right. eexists. split; [|reflexivity]. discriminate.
    + destruct (stack p) as [|[s root] [|? ?]]; first [exact I | reflexivity].
  - destruct (next_token input (position p) (lex_mode (top_state (stack p))))
      as [[t|at_offset]|]; try discriminate.
    + cbn [history]. left. reflexivity.
    + exact I.
Qed.

(** C5.  For every input the parse returns a tree and never fails.  The
    loop reaches the accept from the initial configuration within its
    bound; the root it returns is a [program] whose nodes are ranged by
    their children and which spans the input up to leading and trailing
    whitespace, and it holds an error node exactly when recovery has run.
    In every configuration of the parse in which the tokenizer finds no
    token or the table has no action for the lookahead, the engine does not
    stop: it pops the stack back to the last statement boundary, scans on
    to behind the first [;] (or, when there is none, to where only
    whitespace is left of the input), and pushes one error node, as a
    statement, that holds what it popped and what it scanned; without such
    a condition no recovery takes place.  The table keeps the recovery
    action in every cell of state 0; the scan ends from every offset, at
    once where only whitespace is left, and there the lex state of the
    recovery row returns end-of-input. *)
Theorem parse_total :
  forall input,
    (exists root actions n p,
        parse_with_history input = Some (root, actions)
        /\ configuration input n = Some p
        /\ parser_step input p = Accepted root actions
        /\ is_program root = true
        /\ well_ranged input root = true
        /\ gaps_ok input 0 [root] (length input) = true
        /\ (has_error root = true <-> In Recover actions))
    /\ (forall n p,
           configuration input n = Some p ->
           parser_step input p <> Failed)
    /\ (forall n p,
           configuration input n = Some p ->
           error_condition input p = true ->
           exists wrapped below skipped offset,
             unwind (stack p) [] = (wrapped, below)
             /\ is_statement_boundary (top_state below) = true
             /\ resynchronize input (S (length input - position p))
                              (position p) []
                = Some (skipped, offset)
             /\ synchronised input skipped offset
             /\ gaps_ok input (position p) skipped offset = true
             /\ parser_step input p
                = Continue
                    (mkParser
                       ((goto (top_state below) sym__statement,
                         error_node (wrapped ++ skipped) (position p)) :: below)
                       offset None (history p ++ [Recover])))
    /\ (forall n p,
           configuration input n = Some p ->
           error_condition input p = false ->
           match parser_step input p with
           | Continue p' =>
               history p' = history p
               \/ exists a, a <> Recover /\ history p' = history p ++ [a]
           | Accepted _ actions => actions = history p ++ [Accept]
           | Failed => False
           end)
    /\ Forall (fun t => parse_action 0 t = Some Recover) terminals
    /\ (forall offset,
           offset <= length input ->
           exists skipped offset',
             resynchronize input (S (length input - offset)) offset []
             = Some (skipped, offset')
             /\ offset <= offset' <= length input
             /\ synchronised input skipped offset'
             /\ gaps_ok input offset skipped offset' = true)
    /\ (forall offset,
           ws_between input offset (length input) = true ->
           resynchronize input (S (length input - offset)) offset []
           = Some ([], offset))
    /\ next_token input (length input) (lex_mode 0)
       = Some (Matched (mkToken ts_builtin_sym_end (length input) (length input))).
Proof.
  intros input.
  split; [|split; [|split; [|split; [|split; [|split; [|split]]]]]].
  - destruct (parse_with_history_ok input)
      as (root & actions & Hrun & Hprogram & Hwf & Hcover).
    unfold parse_with_history in Hrun.
    destruct (run_reaches_accept input _ 0 _ root actions eq_refl Hrun)
      as (n & p & Hn & Hacc).
    exists root, actions, n, p.
    split; [exact Hrun|]. split; [assumption|]. split; [assumption|].
    split; [assumption|]. split; [assumption|]. split; [assumption|].
    exact (run_errors input _ _ root actions initial_errors_recorded Hrun).
  - intros n p Hn Hfail.
    destruct (parser_step_ok input p (configuration_good _ _ _ Hn))
      as [(p' & Hstep & _)|(root & actions & Hstep & _)]; congruence.
  - intros n p Hn Herr.
    apply recovery_shape; [exact (configuration_good _ _ _ Hn)|].
    apply error_condition_recovers. assumption.
  - intros n p Hn Herr.
    pose proof (quiet_step input p Herr) as Hquiet.
    destruct (parser_step_ok input p (configuration_good _ _ _ Hn))
      as [(p' & Hstep & _)|(root & actions & Hstep & _)];
      rewrite Hstep in *; assumption.
  - apply Forall_forall. intros t Ht.
    unfold terminals in Ht. change TOKEN_COUNT with 24 in Ht. cbn [seq In] in Ht.
    repeat (destruct Ht as [<-|Ht]; [vm_compute; reflexivity|]). destruct Ht.
  - intros offset Hoff.
    destruct (resynchronize_spec input (S (length input - offset)) offset []
                                 Hoff (Nat.lt_succ_diag_r _))
      as (found & offset' & Hres & Hrange & _ & Hgaps & _).
    cbn [app] in Hres.
    destruct (resynchronize_sync _ _ _ _ _ _ Hoff Hres) as (found' & Heq & Hsync).
    cbn [app] in Heq. subst found'.
    exists found, offset'. repeat split; try assumption; lia.
  - intros offset Hrest. cbn [resynchronize].
    rewrite next_token_at_end; [reflexivity | cbn; auto | assumption].
  - rewrite next_token_at_end; [reflexivity | cbn; auto |].
    apply ws_between_refl. lia.
Qed.

Lemma parse_total_witness :
  parse_with_history (codes "print ;")
  = Some (Tree sym_program 0
               [Error [Leaf anon_sym_print 0 5; Leaf anon_sym_SEMI 6 7] 0 7] 0 7,
          [Shift 19 false; Recover; Reduce sym_program 1 0; Accept])
  /\ configuration (codes "print ;") 2
     = Some (mkParser [(19, Leaf anon_sym_print 0 5)] 5 None [Shift 19 false])
  /\ error_condition (codes "print ;")
       (mkParser [(19, Leaf anon_sym_print 0 5)] 5 None [Shift 19 false])
     = true
  /\ parser_step (codes "print ;")
       (mkParser [(19, Leaf anon_sym_print 0 5)] 5 None [Shift 19 false])
     = Continue
         (mkParser
            [(2, Error [Leaf anon_sym_print 0 5; Leaf anon_sym_SEMI 6 7] 0 7)]
            7 None [Shift 19 false; Recover])
  /\ synchronised (codes "print ;") [Leaf anon_sym_SEMI 6 7] 7.
Proof.
  destruct (parse_total (codes "print ;")) as (Hparse & _ & Hrecover & _).
  assert (Hn : configuration (codes "print ;") 2
               = Some (mkParser [(19, Leaf anon_sym_print 0 5)] 5 None
                                [Shift 19 false]))
    by (vm_compute; reflexivity).
  assert (Herr : error_condition (codes "print ;")
                   (mkParser [(19, Leaf anon_sym_print 0 5)] 5 None
                             [Shift 19 false]) = true)
    by (vm_compute; reflexivity).
  destruct (Hrecover 2 _ Hn Herr)
    as (wrapped & below & skipped & offset & Hun & _ & Hres & Hsync & _ & Hstep).
  vm_compute in Hun. injection Hun as <- <-.
  vm_compute in Hres. injection Hres as <- <-.
  destruct Hparse as (root & actions & _ & _ & Hrun & _).
  split.
  - rewrite Hrun. vm_compute in Hrun. injection Hrun as <- <-. reflexivity.
  - split; [exact Hn|]. split; [exact Herr|]. split; [|exact Hsync].
    rewrite Hstep. vm_compute. reflexivity.
Defined.

(** ** Coverage *)

Lemma Node_ind_nested :
  forall P : Node -> Prop,
    (forall symbol a b, P (Leaf symbol a b)) ->
    (forall symbol id children a b,
        Forall P children -> P (Tree symbol id children a b)) ->
    (forall children a b, Forall P children -> P (Error children a b)) ->
    forall n, P n.
Proof.
  intros P HL HT HE. fix IH 1.
  intros [symbol a b | symbol id children a b | children a b].
  - apply HL.
  - apply HT. induction children as [|c cs IHcs]; constructor;
      [apply IH | assumption].
  - apply HE. induction children as [|c cs IHcs]; constructor;
      [apply IH | assumption].
Qed.

Lemma gaps_ok_leaves_of_children :
  forall input children a b,
    Forall (fun c =>
              well_ranged input c = true ->
              gaps_ok input (node_start c) (leaf_nodes c) (node_end c) = true)
           children ->
    forallb (well_ranged input) children = true ->
    gaps_ok input a children b = true ->
    gaps_ok input a (flat_map leaf_nodes children) b = true.
Proof.
  intros input children. induction children as [|c cs IH];
    intros a b Hall Hwf Hgaps; cbn [flat_map forallb gaps_ok] in *;
    [assumption|].
  inversion Hall as [|? ? Hc Hcs]; subst.
  apply andb_true_iff in Hwf as [Hwfc Hwfcs].
  apply andb_true_iff in Hgaps as [Hg H3]. apply andb_true_iff in Hg as [H1 H2].
  eapply gaps_ok_concat; [|apply IH; eassumption].
  eapply gaps_ok_extend_left; [eassumption | apply Hc; assumption].
Qed.

(** The leaves of a well-ranged node lie in order inside its range, apart
    by whitespace only. *)
Lemma gaps_ok_leaf_nodes :
  forall input n,
    well_ranged input n = true ->
    gaps_ok input (node_start n) (leaf_nodes n) (node_end n) = true.
Proof.
  intros input. apply (Node_ind_nested
    (fun n => well_ranged input n = true ->
              gaps_ok input (node_start n) (leaf_nodes n) (node_end n) = true)).
  - intros symbol a b H. cbn [well_ranged leaf_nodes gaps_ok node_start node_end] in *.
    apply andb_true_iff in H as [H1 H2]. rewrite H1.
    apply Nat.leb_le in H1, H2.
    rewrite !ws_between_refl by lia. reflexivity.
  - intros symbol id children a b Hall H.
    cbn [leaf_nodes node_start node_end].
    destruct (well_ranged_tree_children _ _ _ _ _ _ H) as (Hwf & Hgaps & _).
    apply gaps_ok_leaves_of_children; assumption.
  - intros children a b Hall H. cbn [well_ranged] in H.
    apply andb_true_iff in H as [H Hgaps].
    apply andb_true_iff in H as [H Hwf].
    apply andb_true_iff in H as [H1 H2].
    cbn [leaf_nodes node_start node_end].
    destruct children as [|c cs].
    + cbn [gaps_ok node_start node_end]. rewrite H1.
      apply Nat.leb_le in H1, H2.
      rewrite !ws_between_refl by lia. reflexivity.
    + apply andb_true_iff in Hgaps as [_ Hgaps].
      apply gaps_ok_leaves_of_children; assumption.
Qed.

Lemma reassemble_slice :
  forall input ls a,
    gaps_ok input a ls (length input) = true ->
    reassemble input a ls = slice input a (length input).
Proof.
  intros input ls. induction ls as [|n ls IH]; intros a H;
    cbn [reassemble gaps_ok] in *; [reflexivity|].
  apply andb_true_iff in H as [H H3]. apply andb_true_iff in H as [H1 H2].
  apply ws_between_bounds in H1. apply Nat.leb_le in H2.
  pose proof (gaps_ok_bounds _ _ _ _ H3) as (B1 & B2 & _).
  rewrite (IH _ H3). rewrite !slice_app by lia. reflexivity.
Qed.

(** C6, as the model has it.  The leaves of the tree (the tokens, and the
    bytes error recovery skipped because they start no token) lie in source
    order without overlap; what lies before, between and behind them is
    whitespace the tokenizer skipped; their slices and this whitespace put
    together give back the input.  The range of every node runs from its
    first child's start to its last child's end, and its children lie in
    order without overlap, apart by skipped whitespace only. *)
Theorem tree_covers_input :
  forall input root,
    parse input = Some root ->
    well_ranged input root = true
    /\ gaps_ok input 0 (leaf_nodes root) (length input) = true
    /\ reassemble input 0 (leaf_nodes root) = input.
Proof.
  intros input root Hparse. unfold parse in Hparse.
  destruct (parse_with_history_ok input)
    as (root' & actions & Hrun & _ & Hwf & Hcover).
  rewrite Hrun in Hparse. cbn [option_map fst] in Hparse.
  injection Hparse as <-.
  assert (Hleaves : gaps_ok input 0 (leaf_nodes root') (length input) = true).
  { cbn [gaps_ok] in Hcover.
    apply andb_true_iff in Hcover as [Hc H3]. apply andb_true_iff in Hc as [H1 H2].
    eapply gaps_ok_extend_left; [eassumption|].
    eapply gaps_ok_extend_right; [|eassumption].
    apply gaps_ok_leaf_nodes. assumption. }
  split; [assumption|]. split; [assumption|].
  rewrite (reassemble_slice _ _ _ Hleaves). apply slice_full.
Qed.

Lemma tree_covers_input_witness :
  well_ranged (codes "1 + 2;")
    (Tree sym_program 0
       [Tree sym_expression_statement 0
          [Tree sym_binary_expression 3
             [Leaf sym_number 0 1; Leaf anon_sym_PLUS 2 3; Leaf sym_number 4 5]
             0 5;
           Leaf anon_sym_SEMI 5 6] 0 6] 0 6) = true
  /\ gaps_ok (codes "1 + 2;") 0
       [Leaf sym_number 0 1; Leaf anon_sym_PLUS 2 3; Leaf sym_number 4 5;
        Leaf anon_sym_SEMI 5 6] 6 = true
  /\ reassemble (codes "1 + 2;") 0
       [Leaf sym_number 0 1; Leaf anon_sym_PLUS 2 3; Leaf sym_number 4 5;
        Leaf anon_sym_SEMI 5 6] = codes "1 + 2;".
Proof.
  apply (tree_covers_input (codes "1 + 2;")). vm_compute. reflexivity.
Defined.

(** On ["1 + 2;"] the [binary_expression] spans bytes 0 to 5 while its
    children cover 0-1, 2-3 and 4-5: the ranges of the children leave out
    the whitespace between them. *)
Lemma gap_free_counterexample :
  parse (codes "1 + 2;")
  = Some (Tree sym_program 0
            [Tree sym_expression_statement 0
               [Tree sym_binary_expression 3
                  [Leaf sym_number 0 1; Leaf anon_sym_PLUS 2 3; Leaf sym_number 4 5]
                  0 5;
                Leaf anon_sym_SEMI 5 6] 0 6] 0 6)
  /\ tiles_exactly
       (Tree sym_program 0
          [Tree sym_expression_statement 0
             [Tree sym_binary_expression 3
                [Leaf sym_number 0 1; Leaf anon_sym_PLUS 2 3; Leaf sym_number 4 5]
                0 5;
              Leaf anon_sym_SEMI 5 6] 0 6] 0 6) = false
  /\ contiguous 0
       [Leaf sym_number 0 1; Leaf anon_sym_PLUS 2 3; Leaf sym_number 4 5] 5
     = false.
Proof. repeat split; vm_compute; reflexivity. Qed.
